(** * Console driver: input line discipline, blocking read, CGA output, panic

    A shallow embedding of the console driver (console input and output:
    [consoleintr], [consoleread], [consolewrite], [consputc], [cgaputc],
    [cprintf], [panic]) and the properties of its specification.

    Machine integers are [Z] with the wrap-around written out ([uint] is
    reduced modulo 2^32, [char] is a signed byte).  The driver's globals
    ([input], [cons], [panicked], the CRT controller registers and the text
    page [crt]) are the fields of one [State] record which the functions
    thread explicitly.  Calls into the rest of the kernel that carry no data
    the driver looks at again ([acquire], [release], [wakeup], [sleep],
    [uartputc], [cli], ...) are appended to an event [trace]. *)

From Stdlib Require Import ZArith List Lia String Ascii.

From stdpp Require Import base list gmap.

Local Open Scope Z_scope.

(** ** Machine integers *)

Definition to_uint (x : Z) : Z := x mod 2 ^ 32.

Definition to_int (x : Z) : Z :=
  let y := x mod 2 ^ 32 in if y <? 2 ^ 31 then y else y - 2 ^ 32.

Definition to_uchar (x : Z) : Z := x mod 256.

Definition to_uint16 (x : Z) : Z := x mod 2 ^ 16.

(** [char] is signed on the x86 targets of this kernel. *)
Definition to_char (x : Z) : Z :=
  let y := x mod 256 in if y <? 128 then y else y - 256.

(** ** Constants of the source *)

Definition COLUMNS : Z := 80.

Definition BACKSPACE : Z := 0x100.

Definition CRTPORT : Z := 0x3d4.

Definition INPUT_BUF : Z := 128.

(** [CGA_FONT_COLOR(VGA_LIGHT_GRAY, VGA_BLACK)] *)
Definition CGA_FONT_COLOR (foreground background : Z) : Z :=
  Z.shiftl background 4 + foreground.

Definition VGA_BLACK : Z := 0x0.

Definition VGA_LIGHT_GRAY : Z := 0x7.

Definition DEFAULT_CONSOLE_COLOR : Z := CGA_FONT_COLOR VGA_LIGHT_GRAY VGA_BLACK.

(** [C(x)] is control-x. *)
Definition C (x : Z) : Z := x - 64.

Definition CTRL_D : Z := C 68.

Definition CTRL_H : Z := C 72.

Definition CTRL_P : Z := C 80.

Definition CTRL_U : Z := C 85.

Definition CTRL_Z : Z := C 90.

Definition NEWLINE : Z := 10.

Definition CARRIAGE_RETURN : Z := 13.

Definition PERCENT : Z := 37.

(** The text page is 80 columns by 25 rows of 16-bit cells. *)
Definition CRT_CELLS : nat := 2000.

(** ** State *)

Inductive lock_id := ConsLock | InputLock.

Inductive event :=
| EAcquire (l : lock_id)
| ERelease (l : lock_id)
| ECli
| EUart (c : Z)
| EMemmove
| EWakeup
| ESleep
| EProcdump
| ELidt
| EIunlock
| EIlock
| EAcpiHalt.

(** [struct { lock; buf; r; w; e } input]; the lock is in the trace. *)
Record Input := mkInput {
  input_buf : list Z;
  input_r : Z;
  input_w : Z;
  input_e : Z
}.

(** CRT controller: the index register at [CRTPORT] and the data registers
    reached through [CRTPORT + 1]. *)
Record Crtc := mkCrtc {
  crtc_index : Z;
  crtc_regs : gmap Z Z
}.

Record State := mkState {
  panicked : Z;
  cons_locking : Z;
  input : Input;
  crt : list Z;
  crtc : Crtc;
  proc_killed : Z;
  cpu_id : Z;
  callerpcs : list Z;
  trace : list event
}.

Definition with_panicked (v : Z) (s : State) : State :=
  mkState v (cons_locking s) (input s) (crt s) (crtc s) (proc_killed s)
          (cpu_id s) (callerpcs s) (trace s).

Definition with_locking (v : Z) (s : State) : State :=
  mkState (panicked s) v (input s) (crt s) (crtc s) (proc_killed s)
          (cpu_id s) (callerpcs s) (trace s).

Definition with_input (v : Input) (s : State) : State :=
  mkState (panicked s) (cons_locking s) v (crt s) (crtc s) (proc_killed s)
          (cpu_id s) (callerpcs s) (trace s).

Definition with_crt (v : list Z) (s : State) : State :=
  mkState (panicked s) (cons_locking s) (input s) v (crtc s) (proc_killed s)
          (cpu_id s) (callerpcs s) (trace s).

Definition with_crtc (v : Crtc) (s : State) : State :=
  mkState (panicked s) (cons_locking s) (input s) (crt s) v (proc_killed s)
          (cpu_id s) (callerpcs s) (trace s).

Definition with_trace (v : list event) (s : State) : State :=
  mkState (panicked s) (cons_locking s) (input s) (crt s) (crtc s)
          (proc_killed s) (cpu_id s) (callerpcs s) v.

(** Record one call into the rest of the kernel. *)
Definition emit (ev : event) (s : State) : State :=
  with_trace (trace s ++ [ev]) s.

(** Static storage is zero-initialised; the cursor registers and the text
    page hold whatever the boot code left there. *)
Definition boot_state (page : list Z) (regs : Crtc) (cpu : Z) (pcs : list Z) : State :=
  mkState 0 0 (mkInput (replicate (Z.to_nat INPUT_BUF) 0) 0 0 0)
          page regs 0 cpu pcs [].

(** ** Outcomes

    A call either returns, or never returns because the core spins in
    [for (;;);] ([Hang], with the state it spins in), or leaves the defined
    behaviour of C ([Undef]: a [va_arg] that does not match the argument, a
    store past the end of a buffer, a [memset] whose count has wrapped). *)

Inductive Result (A : Type) :=
| Ret (a : A) (s : State)
| Hang (s : State)
| Undef.

Arguments Ret {A} a s.

Arguments Hang {A} s.

Arguments Undef {A}.

Definition M (A : Type) : Type := State -> Result A.

Definition ret {A} (a : A) : M A := fun s => Ret a s.

Definition bind {A B} (m : M A) (k : A -> M B) : M B :=
  fun s => match m s with
           | Ret a s' => k a s'
           | Hang s' => Hang s'
           | Undef => Undef
           end.

Definition lift (f : State -> State) : M unit := fun s => Ret tt (f s).

Definition spin : M unit := fun s => Hang s.

Definition undefined {A} : M A := fun _ => Undef.

Notation "'do' x <- m ; k" := (bind m (fun x => k))
  (at level 10, x name, m at level 100, k at level 200).

Notation "m1 >> m2" := (bind m1 (fun _ => m2))
  (at level 65, right associativity).

(** The state a call leaves behind, when there is one. *)
Definition final_state {A} (o : Result A) : option State :=
  match o with
  | Ret _ s => Some s
  | Hang s => Some s
  | Undef => None
  end.

(** ** Port I/O and the text page *)

Definition outb (port data : Z) (s : State) : State :=
  let d := to_uchar data in
  if port =? CRTPORT then with_crtc (mkCrtc d (crtc_regs (crtc s))) s
  else if port =? CRTPORT + 1 then
    with_crtc (mkCrtc (crtc_index (crtc s))
                      (<[crtc_index (crtc s) := d]> (crtc_regs (crtc s)))) s
  else s.

(** A CRT data register; one never written reads as 0. *)
Definition reg_get (i : Z) (s : State) : Z :=
  default 0 (crtc_regs (crtc s) !! i).

Definition inb (port : Z) (s : State) : Z :=
  if port =? CRTPORT + 1
  then to_uchar (reg_get (crtc_index (crtc s)) s)
  else 0.

(** [crt[pos] = v]; cells past the 80x25 page are not tracked. *)
Definition crt_store (pos v : Z) (s : State) : State :=
  with_crt (<[Z.to_nat pos := v]> (crt s)) s.

(** [memmove(crt + dst, crt + src, n cells)] *)
Definition memmove_cells (dst src n : nat) (l : list Z) : list Z :=
  list_inserts dst (take n (drop src l)) l.

(** [memset(crt + dst, 0, n cells)] *)
Definition memset_cells (dst n : nat) (l : list Z) : list Z :=
  list_inserts dst (replicate n 0) l.

(** The cursor offset held by CRT registers 14 (high byte) and 15 (low). *)
Definition cursor_pos (s : State) : Z :=
  Z.lor (Z.shiftl (to_uchar (reg_get 14 s)) 8) (to_uchar (reg_get 15 s)).

(** The blank cell drawn under the cursor: [' ' | 0x0700]. *)
Definition CARET : Z := Z.lor 32 0x0700.

(** The cell a character is stored as: [(c & 0xFF) | (color << 8)] cut to
    16 bits. *)
Definition cell (c color : Z) : Z :=
  to_uint16 (Z.lor (Z.land c 0xFF) (to_uint (Z.shiftl color 8))).

(** The first [if] chain of [cgaputc]: the offset after the character and
    the page with the character stored. *)
Definition cga_advance (c color pos : Z) (s : State) : Z * State :=
  if c =? NEWLINE then (pos + (COLUMNS - Z.rem pos COLUMNS), s)
  else if c =? BACKSPACE then ((if pos >? 0 then pos - 1 else pos), s)
  else (pos + 1, crt_store pos (cell c color) s).

(** The scroll branch of [cgaputc]. The byte count of the [memset],
    [sizeof(crt[0]) * (24 * COLUMNS - pos)], is unsigned: with [pos] past
    the start of row 24 the cell count is negative, the byte count wraps
    to one near the top of the address space, and the call runs off the
    page and off memory. There is no result then ([None]). This happens
    when the cursor the call found was past the 25 rows. *)
Definition cga_scroll (pos : Z) (s : State) : option (Z * State) :=
  if Z.quot pos COLUMNS >=? 24 then
    let s := emit EMemmove
               (with_crt (memmove_cells 0 (Z.to_nat COLUMNS)
                            (Z.to_nat (23 * COLUMNS)) (crt s)) s) in
    let pos := pos - COLUMNS in
    if 24 * COLUMNS - pos <? 0 then None
    else Some (pos, with_crt (memset_cells (Z.to_nat pos)
                                (Z.to_nat (24 * COLUMNS - pos)) (crt s)) s)
  else Some (pos, s).

Definition cgaputc (c color : Z) (s : State) : option State :=
  let s := outb CRTPORT 14 s in
  let pos := Z.shiftl (inb (CRTPORT + 1) s) 8 in
  let s := outb CRTPORT 15 s in
  let pos := Z.lor pos (inb (CRTPORT + 1) s) in
  let '(pos, s) := cga_advance c color pos s in
  match cga_scroll pos s with
  | None => None
  | Some (pos, s) =>
      let s := outb CRTPORT 14 s in
      let s := outb (CRTPORT + 1) (Z.shiftr pos 8) s in
      let s := outb CRTPORT 15 s in
      let s := outb (CRTPORT + 1) pos s in
      Some (crt_store pos CARET s)
  end.

(** The cursor is on the 25 rows of the page. *)
Definition on_screen (s : State) : Prop := 0 <= cursor_pos s < 25 * COLUMNS.

Definition uartputc (c : Z) : State -> State := emit (EUart c).

Definition consputc (c color : Z) : M unit :=
  fun s =>
    if panicked s =? 0 then
      let s := if c =? BACKSPACE
               then uartputc 8 (uartputc 32 (uartputc 8 s))
               else uartputc c s in
      match cgaputc c color s with
      | Some s' => Ret tt s'
      | None => Undef
      end
    else Hang (emit ECli s).

(** ** Input: the line discipline *)

Definition set_r (v : Z) (s : State) : State :=
  with_input (mkInput (input_buf (input s)) v (input_w (input s))
                      (input_e (input s))) s.

Definition set_w (v : Z) (s : State) : State :=
  with_input (mkInput (input_buf (input s)) (input_r (input s)) v
                      (input_e (input s))) s.

Definition set_e (v : Z) (s : State) : State :=
  with_input (mkInput (input_buf (input s)) (input_r (input s))
                      (input_w (input s)) v) s.

(** [input.buf[i % INPUT_BUF]] *)
Definition buf_get (i : Z) (s : State) : Z :=
  default 0 (input_buf (input s) !! Z.to_nat (i mod INPUT_BUF)).

(** [input.buf[i % INPUT_BUF] = c], the [int] cut to a [char]. *)
Definition buf_set (i c : Z) (s : State) : State :=
  with_input (mkInput (<[Z.to_nat (i mod INPUT_BUF) := to_char c]>
                         (input_buf (input s)))
                      (input_r (input s)) (input_w (input s))
                      (input_e (input s))) s.

(** The body of the kill-line [while]: one erased character per round.
    [fuel] bounds the rounds; [to_uint (e - w)] of them bring [e] to [w]. *)
Fixpoint kill_line (fuel : nat) : M unit :=
  fun s =>
    match fuel with
    | O => Ret tt s
    | S fuel' =>
        if negb (input_e (input s) =? input_w (input s))
           && negb (buf_get (to_uint (input_e (input s) - 1)) s =? NEWLINE)
        then (lift (set_e (to_uint (input_e (input s) - 1)))
              >> consputc BACKSPACE DEFAULT_CONSOLE_COLOR
              >> kill_line fuel') s
        else Ret tt s
    end.

(** The [default:] case of the [switch]. *)
Definition consoleintr_default (c : Z) : M unit :=
  fun s =>
    if negb (c =? 0)
       && (to_uint (input_e (input s) - input_r (input s)) <? INPUT_BUF)
    then
      let c := if c =? CARRIAGE_RETURN then NEWLINE else c in
      let s := set_e (to_uint (input_e (input s) + 1))
                     (buf_set (input_e (input s)) c s) in
      (consputc c DEFAULT_CONSOLE_COLOR
       >> fun s =>
            if (c =? NEWLINE) || (c =? CTRL_D)
               || (input_e (input s) =? to_uint (input_r (input s) + INPUT_BUF))
            then Ret tt (emit EWakeup (set_w (input_e (input s)) s))
            else Ret tt s) s
    else Ret tt s.

(** The [switch (c)] of [consoleintr]. *)
Definition consoleintr_char (c : Z) : M unit :=
  if c =? CTRL_Z then lift (emit ELidt)
  else if c =? CTRL_P then lift (emit EProcdump)
  else if c =? CTRL_U then
    fun s => kill_line (Z.to_nat (to_uint (input_e (input s) - input_w (input s)))) s
  else if (c =? CTRL_H) || (c =? 0x7f) then
    fun s =>
      if negb (input_e (input s) =? input_w (input s))
      then (lift (set_e (to_uint (input_e (input s) - 1)))
            >> consputc BACKSPACE DEFAULT_CONSOLE_COLOR) s
      else Ret tt s
  else consoleintr_default c.

(** [while ((c = getc()) >= 0)]: [keys] are the codes the callback hands
    out, in order; it answers -1 once they are used up. *)
Fixpoint consoleintr_loop (keys : list Z) : M unit :=
  match keys with
  | [] => ret tt
  | c :: keys' =>
      if c >=? 0 then consoleintr_char c >> consoleintr_loop keys'
      else ret tt
  end.

Definition consoleintr (keys : list Z) : M unit :=
  lift (emit (EAcquire InputLock))
  >> consoleintr_loop keys
  >> lift (emit (ERelease InputLock)).

(** ** Input: the blocking read *)

(** A read returns [ret] with [dst] filled, or sleeps on [&input.r] holding
    its locals [target], [n] and what it has written to [dst] so far. *)
Inductive ReadResult :=
| RDone (ret : Z) (dst : list Z) (s : State)
| RBlocked (target n : Z) (dst : list Z) (s : State).

(** After the outer [while]: [release], [ilock], [return target - n]. *)
Definition consoleread_exit (target n : Z) (dst : list Z) (s : State) : ReadResult :=
  RDone (to_int (target - to_uint n)) dst
        (emit EIlock (emit (ERelease InputLock) s)).

(** [while (n > 0)]. Every round that comes back to the test has made [n]
    one smaller, so [Z.to_nat n] rounds are all there can be. *)
Fixpoint consoleread_loop (fuel : nat) (target n : Z) (dst : list Z)
         (s : State) : ReadResult :=
  match fuel with
  | O => consoleread_exit target n dst s
  | S fuel' =>
      if n >? 0 then
        if input_r (input s) =? input_w (input s) then
          if proc_killed s =? 0
          then RBlocked target n dst (emit ESleep s)
          else RDone (-1) dst (emit EIlock (emit (ERelease InputLock) s))
        else
          let c := buf_get (input_r (input s)) s in
          let s := set_r (to_uint (input_r (input s) + 1)) s in
          if c =? CTRL_D then
            consoleread_exit target n dst
              (if to_uint n <? target
               then set_r (to_uint (input_r (input s) - 1)) s
               else s)
          else
            let dst := dst ++ [to_char c] in
            let n := n - 1 in
            if c =? NEWLINE then consoleread_exit target n dst s
            else consoleread_loop fuel' target n dst s
      else consoleread_exit target n dst s
  end.

Definition consoleread (n : Z) (s : State) : ReadResult :=
  let target := to_uint n in
  consoleread_loop (Z.to_nat n) target n []
                   (emit (EAcquire InputLock) (emit EIunlock s)).

(** A sleeper that is woken goes round its loop again in the state it now
    finds. *)
Definition consoleread_wake (target n : Z) (dst : list Z) (s : State) : ReadResult :=
  consoleread_loop (Z.to_nat n) target n dst s.

(** ** Output: [consolewrite] *)

Fixpoint consolewrite_loop (buf : list Z) (i : nat) (n : nat) : M unit :=
  match n with
  | O => ret tt
  | S n' =>
      match buf !! i with
      | Some b => consputc (Z.land b 0xff) DEFAULT_CONSOLE_COLOR
                  >> consolewrite_loop buf (S i) n'
      | None => undefined
      end
  end.

Definition consolewrite (buf : list Z) (n : Z) : M Z :=
  lift (emit EIunlock)
  >> lift (emit (EAcquire ConsLock))
  >> consolewrite_loop buf 0 (Z.to_nat n)
  >> lift (emit (ERelease ConsLock))
  >> lift (emit EIlock)
  >> ret n.

(** ** Formatted output *)

(** The characters of a C string literal, without the terminating NUL. *)
Definition str (s : string) : list Z :=
  map (fun a => Z.of_N (N_of_ascii a)) (list_ascii_of_string s).

Definition digits : list Z := str "0123456789abcdef".

(** [digits[i]], for [i] below 16. *)
Definition digit (i : Z) : Z := default 0 (digits !! Z.to_nat i).

(** A string is the characters up to its NUL; a null pointer is [None]. *)
Inductive arg :=
| AInt (x : Z)
| APtr (x : Z)
| AStr (p : option (list Z)).

(** [consputc] over the characters of a string, up to the first NUL. *)
Fixpoint puts (p : list Z) (color : Z) : M unit :=
  match p with
  | [] => ret tt
  | ch :: p' => if ch =? 0 then ret tt else consputc ch color >> puts p' color
  end.

(** The [do ... while ((x /= base) != 0)] of [printint]; [buf] has room for
    [fuel] more characters. *)
Fixpoint printint_digits (fuel : nat) (x base : Z) (buf : list Z) : option (list Z) :=
  match fuel with
  | O => None
  | S fuel' =>
      let buf := buf ++ [digit (x mod base)] in
      let x := x / base in
      if x =? 0 then Some buf else printint_digits fuel' x base buf
  end.

(** [while (--i >= 0) consputc(buf[i], color)] *)
Fixpoint putrev (buf : list Z) (color : Z) : M unit :=
  match buf with
  | [] => ret tt
  | ch :: buf' => putrev buf' color >> consputc ch color
  end.

Definition printint (xx base sign color : Z) : M unit :=
  let sign := if negb (sign =? 0) then (if xx <? 0 then 1 else 0) else sign in
  let x := if negb (sign =? 0) then to_uint (- xx) else to_uint xx in
  match printint_digits 16 x (to_uint base) [] with
  | None => undefined
  | Some buf =>
      let buf := if negb (sign =? 0) then buf ++ [45] else buf in
      if (16 <? Z.of_nat (length buf)) then undefined
      else putrev buf color
  end.

Section Printf.

(** [sizeof(uintp)]: 4 or 8, fixed by the build. *)
Variable UINTP_SIZE : Z.

Fixpoint printptr_loop (n : nat) (x color : Z) : M unit :=
  match n with
  | O => ret tt
  | S n' =>
      consputc (digit (Z.shiftr x (UINTP_SIZE * 8 - 4))) color
      >> printptr_loop n' (Z.shiftl x 4 mod 2 ^ (UINTP_SIZE * 8)) color
  end.

Definition printptr (x color : Z) : M unit :=
  printptr_loop (Z.to_nat (UINTP_SIZE * 2)) x color.

(** The [for] loop of [cprintf] over [fmt], with [ap] the arguments not yet
    taken. *)
Fixpoint cprintf_loop (fmt : list Z) (ap : list arg) (color : Z) {struct fmt} : M unit :=
  match fmt with
  | [] => ret tt
  | ch :: fmt1 =>
      let c := Z.land ch 0xff in
      if c =? 0 then ret tt
      else if negb (c =? PERCENT) then
        consputc c color >> cprintf_loop fmt1 ap color
      else
        match fmt1 with
        | [] => ret tt
        | ch2 :: fmt2 =>
            let c := Z.land ch2 0xff in
            if c =? 0 then ret tt
            else if c =? 100 then
              match ap with
              | AInt x :: ap' =>
                  printint x 10 1 color >> cprintf_loop fmt2 ap' color
              | _ => undefined
              end
            else if c =? 120 then
              match ap with
              | AInt x :: ap' =>
                  printint x 16 0 color >> cprintf_loop fmt2 ap' color
              | _ => undefined
              end
            else if c =? 112 then
              match ap with
              | APtr x :: ap' =>
                  printptr x color >> cprintf_loop fmt2 ap' color
              | _ => undefined
              end
            else if c =? 115 then
              match ap with
              | AStr p :: ap' =>
                  let s := match p with
                           | None => str "(null)"
                           | Some s => s
                           end in
                  puts s color >> cprintf_loop fmt2 ap' color
              | _ => undefined
              end
            else if c =? PERCENT then
              consputc PERCENT color >> cprintf_loop fmt2 ap color
            else
              consputc PERCENT color >> consputc c color
              >> cprintf_loop fmt2 ap color
        end
  end.

Definition when (b : bool) (m : M unit) : M unit := if b then m else ret tt.

(** [cprintf] with a format that is not the null pointer. *)
Definition cprintf_fmt (fmt : list Z) (ap : list arg) : M unit :=
  fun s =>
    let locking := negb (cons_locking s =? 0) in
    (when locking (lift (emit (EAcquire ConsLock)))
     >> cprintf_loop fmt ap DEFAULT_CONSOLE_COLOR
     >> when locking (lift (emit (ERelease ConsLock)))) s.

(** [for (i = 0; i < 10 && pcs[i] != 0; i++) cprintf(" [%d] %p\n", i, pcs[i])] *)
Fixpoint panic_pcs (i : Z) (pcs : list Z) : M unit :=
  match pcs with
  | [] => ret tt
  | pc :: pcs' =>
      if pc =? 0 then ret tt
      else cprintf_fmt (str " [%d] %p" ++ [NEWLINE]) [AInt i; APtr pc]
           >> panic_pcs (i + 1) pcs'
  end.

(** [panic], with [message] the call [cprintf(s)] in its middle. The ten
    return addresses are the ones [getcallerpcs] finds, [callerpcs]. *)
Definition panic_with (message : M unit) : M unit :=
  lift (emit ECli)
  >> lift (with_locking 0)
  >> (fun s => cprintf_fmt ([NEWLINE; NEWLINE] ++ str "PANIC on cpu %d" ++ [NEWLINE; 32])
                           [AInt (cpu_id s)] s)
  >> message
  >> cprintf_fmt ([NEWLINE] ++ str "STACK:" ++ [NEWLINE]) []
  >> (fun s => panic_pcs 0 (take 10 (callerpcs s)) s)
  >> cprintf_fmt (str "HLT" ++ [NEWLINE]) []
  >> lift (with_panicked 1)
  >> lift (emit EAcpiHalt)
  >> spin.

(** [cprintf]: a null [fmt] goes to [panic("null fmt")], which does not
    come back. *)
Definition cprintf (fmt : option (list Z)) (ap : list arg) : M unit :=
  match fmt with
  | Some f => cprintf_fmt f ap
  | None =>
      fun s =>
        (when (negb (cons_locking s =? 0)) (lift (emit (EAcquire ConsLock)))
         >> panic_with (cprintf_fmt (str "null fmt") [])) s
  end.

Definition panic (s : option (list Z)) : M unit :=
  panic_with (cprintf s []).

End Printf.

(** * Predicates and examples for the statements *)

(** ** The representation of the C objects *)

Definition uint_range (x : Z) : Prop := 0 <= x < 2 ^ 32.

(** [input.buf] has [INPUT_BUF] slots and the indices are [uint]s. *)
Definition wf_input (i : Input) : Prop :=
  length (input_buf i) = Z.to_nat INPUT_BUF
  /\ uint_range (input_r i) /\ uint_range (input_w i) /\ uint_range (input_e i).

(** Characters typed and not yet read, and characters committed and not
    yet read, counted the way the source does ([uint] subtraction). *)
Definition pending (i : Input) : Z := to_uint (input_e i - input_r i).

Definition available (i : Input) : Z := to_uint (input_w i - input_r i).

Ltac uint_arith :=
  unfold uint_range, to_uint, INPUT_BUF in *;
  change (2 ^ 32) with 4294967296 in *;
  Z.div_mod_to_equations; lia.

(** The part of the state that is not the screen: everything but the text
    page, the CRT registers and the trace. *)
Definition same_core (s s' : State) : Prop :=
  panicked s' = panicked s
  /\ cons_locking s' = cons_locking s
  /\ input s' = input s
  /\ proc_killed s' = proc_killed s
  /\ cpu_id s' = cpu_id s
  /\ callerpcs s' = callerpcs s.

(** ** Relating the state before a call to the state it leaves *)

Definition relates {A} (R : State -> State -> Prop) (m : M A) : Prop :=
  forall s, match m s with
            | Ret _ s' => R s s'
            | Hang s' => R s s'
            | Undef => True
            end.

Create HintDb core_db.

(** ** What [panic] and [cprintf] leave alone *)

(** The flag is written in one place, and what is written is 1. *)
Definition panic_step (s s' : State) : Prop :=
  input s' = input s
  /\ proc_killed s' = proc_killed s
  /\ cpu_id s' = cpu_id s
  /\ callerpcs s' = callerpcs s
  /\ (panicked s' = panicked s \/ panicked s' = 1).

(** ** What the input path leaves alone *)

Definition same_env (s s' : State) : Prop :=
  panicked s' = panicked s
  /\ cons_locking s' = cons_locking s
  /\ proc_killed s' = proc_killed s
  /\ cpu_id s' = cpu_id s
  /\ callerpcs s' = callerpcs s.

(** ** What a read changes: the read index and the trace *)

Definition rr_state (o : ReadResult) : State :=
  match o with
  | RDone _ _ s => s
  | RBlocked _ _ _ s => s
  end.

Definition read_step (s s' : State) : Prop :=
  s' = with_trace (trace s') (set_r (input_r (input s')) s).

(** ** The operations of the driver *)

Inductive operation :=
| OpIntr (keys : list Z)
| OpRead (n : Z)
| OpWake (target n : Z) (dst : list Z)
| OpWrite (buf : list Z) (n : Z)
| OpPrintf (fmt : option (list Z)) (ap : list arg)
| OpPanic (msg : option (list Z))
| OpPutc (c color : Z).

(** The state an operation leaves, whether it returns, sleeps or spins. *)
Definition run (sz : Z) (o : operation) (s : State) : option State :=
  match o with
  | OpIntr keys => final_state (consoleintr keys s)
  | OpRead n => Some (rr_state (consoleread n s))
  | OpWake target n dst => Some (rr_state (consoleread_wake target n dst s))
  | OpWrite buf n => final_state (consolewrite buf n s)
  | OpPrintf fmt ap => final_state (cprintf sz fmt ap s)
  | OpPanic msg => final_state (panic sz msg s)
  | OpPutc c color => final_state (consputc c color s)
  end.

Fixpoint run_all (sz : Z) (os : list operation) (s : State) : option State :=
  match os with
  | [] => Some s
  | o :: os' =>
      match run sz o s with
      | Some s' => run_all sz os' s'
      | None => None
      end
  end.

(** ** Example machines *)

(** An example machine: nothing typed, a blank 80x25 page, cursor at 0. *)
Definition blank_page : list Z := replicate CRT_CELLS 0.

Definition idle : State := boot_state blank_page (mkCrtc 0 ∅) 0 [].

Definition panicked_example : State := with_panicked 1 idle.

Definition panicked_example_later : State :=
  with_trace [ECli; EAcquire InputLock; ECli] (set_e 1 (with_input
    (mkInput (<[0%nat := 97]> (input_buf (input idle))) 0 0 0) panicked_example)).

Definition killed_example : State :=
  mkState 0 1 (input idle) (crt idle) (crtc idle) 1 0 [] [].

(** ** The ring invariant *)

(** The invariant in the arithmetic of the source: what is committed is
    part of what is typed, and what is typed fits the buffer. *)
Definition ring_inv (i : Input) : Prop :=
  wf_input i /\ available i <= pending i <= INPUT_BUF.

(** The invariant read on the plain values of the indices. *)
Definition plain_inv (i : Input) : Prop :=
  input_r i <= input_w i <= input_e i /\ input_e i - input_r i <= INPUT_BUF.

(** What one keystroke does to [input], seen from the state the [switch]
    leaves (returning, or spinning in the echo). *)
Definition char_step (c : Z) (s s' : State) : Prop :=
  ring_inv (input s')
  /\ input_r (input s') = input_r (input s)
  /\ pending (input s') <= pending (input s) + 1
  /\ available (input s) <= available (input s')
  /\ (input_w (input s') = input_w (input s)
      \/ c = NEWLINE \/ c = CARRIAGE_RETURN \/ c = CTRL_D
      \/ pending (input s') = INPUT_BUF).

(** A keystroke that does not end a line. *)
Definition quiet (c : Z) : Prop :=
  c <> NEWLINE /\ c <> CARRIAGE_RETURN /\ c <> CTRL_D.

(** ** Calls that return *)

(** On a machine that has not panicked, with the cursor on the page, the
    call returns, and the machine still has not panicked and has the
    cursor on the page. *)
Definition returns {A} (m : M A) : Prop :=
  forall s, panicked s = 0 -> on_screen s ->
            exists a s', m s = Ret a s' /\ panicked s' = 0 /\ on_screen s'.

(** How far a read has moved [r], in the arithmetic of the source. *)
Definition advance (s s' : State) : Z :=
  to_uint (input_r (input s') - input_r (input s)).

(** How far [w] is ahead of the [r] an operation started from. *)
Definition committed_from (s s' : State) : Z :=
  to_uint (input_w (input s') - input_r (input s)).

(** Type one empty line and read it. *)
Definition line_cycle : list operation := [OpIntr [NEWLINE]; OpRead 1].

Fixpoint line_cycles (k : nat) : list operation :=
  match k with
  | O => []
  | S k' => line_cycles k' ++ line_cycle
  end.

(** The buffer is empty and the three indices are at [x]. *)
Definition empty_at (x : Z) (s : State) : Prop :=
  panicked s = 0 /\ on_screen s
  /\ length (input_buf (input s)) = Z.to_nat INPUT_BUF
  /\ input_r (input s) = x /\ input_w (input s) = x /\ input_e (input s) = x.

(** As many lines as bring the indices to their last value, 2^32 - 1. *)
Definition LINES_TO_WRAP : nat := Z.to_nat (2 ^ 32 - 1).

(** An example: the line "h" typed, and then one character of it read. *)
Definition typed_line : State :=
  match consoleintr [104; NEWLINE] idle with
  | Ret _ s => s
  | _ => idle
  end.

Definition read_one : State := rr_state (consoleread 1 typed_line).

(** ** Reading a committed line *)

(** The characters [l] sit in the ring from index [x] on. *)
Definition holds_at (s : State) (x : Z) (l : list Z) : Prop :=
  forall (i : nat) (c : Z), l !! i = Some c -> buf_get (x + Z.of_nat i) s = c.

(** A character a read hands on and goes on after. *)
Definition plain_char (c : Z) : Prop := c <> NEWLINE /\ c <> CTRL_D.

(** The values of the C type [char]. *)
Definition is_char (c : Z) : Prop := -128 <= c <= 127.

(** An example: the line "hello" typed and committed. *)
Definition hello : list Z := str "hello".

Definition hello_typed : State :=
  match consoleintr (hello ++ [NEWLINE]) idle with
  | Ret _ s => s
  | _ => idle
  end.

(** The last five lines of [cgaputc]. *)
Definition cga_finish (pos : Z) (s : State) : State :=
  crt_store pos CARET
    (outb (CRTPORT + 1) pos
       (outb CRTPORT 15
          (outb (CRTPORT + 1) (Z.shiftr pos 8) (outb CRTPORT 14 s)))).

(** ** A run of characters on the screen *)

(** What [consolewrite] makes of the bytes it is given. *)
Definition cells_of (bs : list Z) : list Z :=
  (fun b => cell (Z.land b 0xff) DEFAULT_CONSOLE_COLOR) <$> bs.

Definition uarts_of (bs : list Z) : list event :=
  (fun b => EUart (Z.land b 0xff)) <$> bs.

(** A byte that is not the newline. *)
Definition printable (b : Z) : Prop := Z.land b 0xff <> NEWLINE.

(** Row [k] of a page. *)
Definition row (k : nat) (page : list Z) : list Z := take 80 (drop (80 * k) page).

#[global] Instance lock_id_eq_dec : EqDecision lock_id.
Proof. solve_decision. Defined.

#[global] Instance event_eq_dec : EqDecision event.
Proof. solve_decision. Defined.

(** The number of scrolls a trace records. *)
Definition scrolls (t : list event) : nat :=
  length (filter (fun ev => ev = EMemmove) t).

(** ** What goes out on the serial port *)

Definition uart_out (t : list event) : list Z :=
  omap (fun ev => match ev with EUart c => Some c | _ => None end) t.

(** A character [puts] prints and goes on after. *)
Definition text_char (ch : Z) : Prop := ch <> 0 /\ ch <> BACKSPACE.

(** ** A null string argument *)

(** The argument list with every null string replaced by the string
    "(null)". *)
Definition show_null (a : arg) : arg :=
  match a with
  | AStr None => AStr (Some (str "(null)"))
  | _ => a
  end.

(** ** What a read hands back *)

(** No newline in [l] except possibly as its last element. *)
Definition newline_only_last (l : list Z) : Prop :=
  forall (i : nat), l !! i = Some NEWLINE -> S i = length l.

(** ** Typing ordinary characters *)

(** A key the line discipline stores and echoes as it is: a 7-bit code
    that is not 0, not one of the control keys of the [switch], and neither
    a line terminator nor the EOF marker. *)
Definition ordinary (c : Z) : Prop :=
  0 < c < 127
  /\ c <> CTRL_Z /\ c <> CTRL_P /\ c <> CTRL_U /\ c <> CTRL_H
  /\ c <> NEWLINE /\ c <> CARRIAGE_RETURN /\ c <> CTRL_D.

(** ** Erasing *)

(** What the serial port receives for one erased character. *)
Definition ERASE : list Z := [8; 32; 8].

(** Characters typed and not yet committed. *)
Definition uncommitted (i : Input) : Z := to_uint (input_e i - input_w i).

(** An example: "hello" typed and not committed. *)
Definition hello_pending : State :=
  match consoleintr hello idle with
  | Ret _ s => s
  | _ => idle
  end.

(** ** The cursor and the page *)

(** The cursor is on the 24 rows that scroll, and the page has them. *)
Definition on_page (s : State) : Prop :=
  0 <= cursor_pos s < 24 * COLUMNS
  /\ 24 * COLUMNS <= Z.of_nat (length (crt s)).

(** A call that leaves the cursor on the page and the page as long as it
    was. *)
Definition keeps_page (s s' : State) : Prop :=
  on_page s -> on_page s' /\ length (crt s') = length (crt s).

Create HintDb page_db.

(** ** What [consolewrite] sends *)

(** The byte [consolewrite] makes of a [char] of the caller. *)
Definition byte_of (b : Z) : Z := Z.land b 0xff.

(** ** What [printint] prints *)

(** The number a row of digits, most significant first, stands for. *)
Definition number (base : Z) (ds : list Z) : Z :=
  fold_left (fun a d => a * base + d) ds 0.

(** A row of digits with no leading zero, but for the single digit 0. *)
Definition no_leading_zero (ds : list Z) : Prop :=
  match ds with
  | [] => False
  | [_] => True
  | d :: _ => d <> 0
  end.

(** ** How [panic] ends *)

(** A call that, when it stops in a spin, stops with the flag set. *)
Definition flagged {A} (m : M A) : Prop :=
  forall s, match m s with
            | Hang s' => panicked s' <> 0
            | _ => True
            end.

(** A call that, with the cursor on the page, stays within what the source
    defines, and leaves the cursor on the page when it returns. *)
Definition defined {A} (m : M A) : Prop :=
  forall s, on_screen s ->
            match m s with
            | Ret _ s' => on_screen s'
            | Hang _ => True
            | Undef => False
            end.

(** A byte of a format that is not the start of a directive. *)
Definition plain_byte (ch : Z) : Prop := Z.land ch 0xff <> PERCENT.

Create HintDb flag_db.

#[local] Instance plain_byte_dec ch : Decision (plain_byte ch).
Proof. unfold plain_byte. apply _. Defined.

Ltac plain_text := refine (bool_decide_unpack _ _); vm_compute; exact I.

(** ** Colours *)

(** [CGA_GET_FONT_BACKGROUND_COLOR(color)] *)
Definition CGA_GET_FONT_BACKGROUND_COLOR (color : Z) : Z :=
  Z.shiftr (Z.land color 0xFF00) 4.

(** ** Text in a format *)

(** Where the loop of [cprintf] stops without looking at an argument: the
    end of the format, a NUL, or a [%] with the end or a NUL after it. *)
Definition ends_format (rest : list Z) : Prop :=
  match rest with
  | [] => True
  | ch :: tl =>
      byte_of ch = 0
      \/ (byte_of ch = PERCENT
          /\ match tl with [] => True | ch2 :: _ => byte_of ch2 = 0 end)
  end.

(** A byte of a format that is printed as it is. *)
Definition text_byte (ch : Z) : Prop := byte_of ch <> 0 /\ byte_of ch <> PERCENT.

(** ** What each operation leaves alone *)

Definition keeps_r (s s' : State) : Prop := input_r (input s') = input_r (input s).

(** ** Keys that erase, and reads in a killed process *)

(** A key that takes characters back: backspace, delete, kill-line. *)
Definition erasing (c : Z) : Prop := c = CTRL_H \/ c = 127 \/ c = CTRL_U.

(** An example: a buffer filled by 128 characters with no newline, which
    commits them, in a process that is then killed. *)
Definition killed_full : State :=
  match consoleintr (replicate 128 97) killed_example with
  | Ret _ s => s
  | _ => killed_example
  end.

(** What a read of 200 characters leaves of it. *)
Definition killed_full_read : State := rr_state (consoleread 200 killed_full).

(** An example: a killed process that has read the one line there was. *)
Definition killed_drained : State :=
  match run_all 8 [OpIntr [104; NEWLINE]; OpRead 5] killed_example with
  | Some s => s
  | None => killed_example
  end.

Definition killed_cancelled : State := rr_state (consoleread 5 killed_drained).

(** ** A cursor past the page *)

(** An example: the cursor registers hold 2000, the cell after the last
    one of the page. *)
Definition off_screen_example : State :=
  with_crtc (mkCrtc 15 (<[14 := 7]> (<[15 := 208]> ∅))) idle.

(** * Proofs *)

(** ** Arithmetic of the indices *)

Lemma to_uint_range x : uint_range (to_uint x).
Proof. uint_arith. Qed.

Lemma to_uint_succ_ne x : uint_range x -> to_uint (x + 1) <> x.
Proof. intros; uint_arith. Qed.

Lemma to_uint_pred_succ x : uint_range x -> to_uint (to_uint (x + 1) - 1) = x.
Proof. intros; uint_arith. Qed.

Lemma slot_mod x : to_uint (x + 1) mod INPUT_BUF = (x + 1) mod INPUT_BUF.
Proof. uint_arith. Qed.

Lemma slot_lt (x : Z) (l : list Z) :
  length l = Z.to_nat INPUT_BUF -> (Z.to_nat (x mod INPUT_BUF) < length l)%nat.
Proof. intros ->. unfold INPUT_BUF. Z.div_mod_to_equations. lia. Qed.

(** ** What the output path leaves alone *)

Lemma outb_frame port d s :
  panicked (outb port d s) = panicked s
  /\ cons_locking (outb port d s) = cons_locking s
  /\ input (outb port d s) = input s
  /\ crt (outb port d s) = crt s
  /\ proc_killed (outb port d s) = proc_killed s
  /\ cpu_id (outb port d s) = cpu_id s
  /\ callerpcs (outb port d s) = callerpcs s
  /\ trace (outb port d s) = trace s.
Proof.
  unfold outb. destruct (port =? CRTPORT); [|destruct (port =? CRTPORT + 1)];
    repeat split.
Qed.

Lemma same_core_refl s : same_core s s.
Proof. repeat split. Qed.

Lemma same_core_trans s1 s2 s3 :
  same_core s1 s2 -> same_core s2 s3 -> same_core s1 s3.
Proof.
  unfold same_core. intros (?&?&?&?&?&?) (?&?&?&?&?&?).
  repeat split; congruence.
Qed.

Lemma outb_core port d s : same_core s (outb port d s).
Proof.
  destruct (outb_frame port d s) as (?&?&?&?&?&?&?&?). repeat split; assumption.
Qed.

Lemma cga_advance_core c color pos s :
  same_core s (snd (cga_advance c color pos s)).
Proof.
  unfold cga_advance.
  destruct (c =? NEWLINE); [apply same_core_refl|].
  destruct (c =? BACKSPACE); repeat split.
Qed.

Lemma cga_scroll_core pos s pos' s' :
  cga_scroll pos s = Some (pos', s') -> same_core s s'.
Proof.
  unfold cga_scroll. destruct (_ >=? _); [destruct (_ <? _); [discriminate|]|];
    intros E; injection E as _ <-; repeat split.
Qed.

(** [cgaputc] with the two [inb] read out: the offset it starts from is
    [cursor_pos]. *)
Lemma cgaputc_eq c color s :
  cgaputc c color s
  = let '(pos1, s1) :=
      cga_advance c color (cursor_pos s) (outb CRTPORT 15 (outb CRTPORT 14 s)) in
    match cga_scroll pos1 s1 with
    | None => None
    | Some (pos2, s2) => Some (cga_finish pos2 s2)
    end.
Proof.
  unfold cgaputc.
  change (Z.lor (Z.shiftl (inb (CRTPORT + 1) (outb CRTPORT 14 s)) 8)
                (inb (CRTPORT + 1) (outb CRTPORT 15 (outb CRTPORT 14 s))))
    with (cursor_pos s).
  destruct (cga_advance _ _ _ _) as [pos1 s1].
  destruct (cga_scroll pos1 s1) as [[pos2 s2]|]; reflexivity.
Qed.

Lemma land_shiftl_low a b : 0 <= b < 256 -> Z.land (Z.shiftl a 8) b = 0.
Proof.
  intros Hb. apply Z.bits_inj'. intros n Hn.
  rewrite Z.land_spec, Z.bits_0.
  destruct (Z.lt_ge_cases n 8) as [Hlt|Hge].
  - rewrite Z.shiftl_spec_low by exact Hlt. reflexivity.
  - replace b with (b mod 2 ^ 8) by (apply Z.mod_small; exact Hb).
    rewrite Z.mod_pow2_bits_high by lia. apply andb_false_r.
Qed.

Lemma cursor_recompose p :
  0 <= p < 65536 ->
  Z.lor (Z.shiftl (to_uchar (to_uchar (Z.shiftr p 8))) 8) (to_uchar (to_uchar p)) = p.
Proof.
  intros Hp. unfold to_uchar.
  rewrite !Z.mod_mod by discriminate.
  assert (Hlo : 0 <= p mod 256 < 256) by (apply Z.mod_pos_bound; lia).
  rewrite <- Z.lxor_lor by (apply land_shiftl_low; exact Hlo).
  rewrite <- Z.add_nocarry_lxor by (apply land_shiftl_low; exact Hlo).
  rewrite Z.shiftr_div_pow2, Z.shiftl_mul_pow2 by lia.
  change (2 ^ 8) with 256. Z.div_mod_to_equations. lia.
Qed.

Lemma cga_finish_spec pos s :
  crt (cga_finish pos s) = <[Z.to_nat pos := CARET]> (crt s)
  /\ trace (cga_finish pos s) = trace s
  /\ panicked (cga_finish pos s) = panicked s
  /\ (0 <= pos < 65536 -> cursor_pos (cga_finish pos s) = pos).
Proof.
  repeat split. intros Hp.
  unfold cursor_pos, reg_get, cga_finish. simpl.
  change (to_uchar 14) with 14. change (to_uchar 15) with 15.
  rewrite lookup_insert_ne by discriminate.
  rewrite !lookup_insert_eq. simpl.
  now apply cursor_recompose.
Qed.

Lemma uart_out_app t1 t2 : uart_out (t1 ++ t2) = uart_out t1 ++ uart_out t2.
Proof. apply omap_app. Qed.

Lemma cga_finish_core pos s : same_core s (cga_finish pos s).
Proof.
  unfold cga_finish.
  eapply same_core_trans; [apply (outb_core CRTPORT 14)|].
  eapply same_core_trans; [apply (outb_core (CRTPORT + 1) (Z.shiftr pos 8))|].
  eapply same_core_trans; [apply (outb_core CRTPORT 15)|].
  eapply same_core_trans; [apply (outb_core (CRTPORT + 1) pos)|].
  repeat split.
Qed.

Lemma cgaputc_core c color s s' : cgaputc c color s = Some s' -> same_core s s'.
Proof.
  rewrite cgaputc_eq.
  set (s0 := outb CRTPORT 15 (outb CRTPORT 14 s)).
  assert (H0 : same_core s s0).
  { eapply same_core_trans; [apply (outb_core CRTPORT 14)|apply outb_core]. }
  pose proof (cga_advance_core c color (cursor_pos s) s0) as Ha.
  destruct (cga_advance c color (cursor_pos s) s0) as [p1 s1]. unfold snd in Ha.
  destruct (cga_scroll p1 s1) as [[p2 s2]|] eqn:E2; [|discriminate].
  intros E. injection E as <-. apply cga_scroll_core in E2.
  eapply same_core_trans; [exact H0|].
  eapply same_core_trans; [exact Ha|].
  eapply same_core_trans; [exact E2|apply cga_finish_core].
Qed.

Lemma outb_crt port d s : crt (outb port d s) = crt s.
Proof.
  unfold outb. destruct (_ =? _); [reflexivity|]. destruct (_ =? _); reflexivity.
Qed.

Lemma outb_trace port d s : trace (outb port d s) = trace s.
Proof.
  unfold outb. destruct (_ =? _); [reflexivity|]. destruct (_ =? _); reflexivity.
Qed.

(** The scroll, for an offset no further than the end of row 24: the
    [memset] has a count that is not negative. *)
Lemma cga_scroll_defined pos s :
  0 <= pos <= 25 * COLUMNS ->
  exists s',
    cga_scroll pos s
    = Some ((if pos <? 24 * COLUMNS then pos else pos - COLUMNS), s')
    /\ length (crt s') = length (crt s)
    /\ uart_out (trace s') = uart_out (trace s).
Proof.
  intros Hpos. unfold cga_scroll.
  destruct (Z.quot pos COLUMNS >=? 24) eqn:E;
    rewrite Z.geb_leb in E;
    [apply Z.leb_le in E|apply Z.leb_gt in E];
    unfold COLUMNS in *;
    (destruct (Z.ltb_spec pos (24 * 80)) as [Hlt|Hge]).
  - exfalso. Z.to_euclidean_division_equations. lia.
  - cbv zeta.
    destruct (Z.ltb_spec (24 * 80 - (pos - 80)) 0) as [Hneg|_]; [lia|].
    eexists. split; [reflexivity|]. split.
    + match goal with
      | |- length (crt (with_crt ?l _)) = _ => change (length l = length (crt s))
      end.
      unfold memset_cells. rewrite length_inserts.
      match goal with
      | |- length (crt (emit _ (with_crt ?l _))) = _ => change (length l = length (crt s))
      end.
      unfold memmove_cells. apply length_inserts.
    + match goal with
      | |- uart_out (trace ?x) = _ => change (trace x) with (trace s ++ [EMemmove])
      end.
      rewrite uart_out_app. apply app_nil_r.
  - exists s. repeat split.
  - exfalso. Z.to_euclidean_division_equations. lia.
Qed.

(** With the cursor on the 25 rows of the page [cgaputc] has a result: the
    cursor it leaves is on rows 0 to 23 or at the start of row 24, the page
    has kept its length, and nothing went to the serial port. *)
Lemma cgaputc_defined c color s :
  on_screen s ->
  exists s',
    cgaputc c color s = Some s'
    /\ 0 <= cursor_pos s' <= 24 * COLUMNS
    /\ length (crt s') = length (crt s)
    /\ uart_out (trace s') = uart_out (trace s).
Proof.
  intros (Hlo & Hhi). rewrite cgaputc_eq.
  set (s0 := outb CRTPORT 15 (outb CRTPORT 14 s)).
  assert (Hcrt0 : crt s0 = crt s) by (unfold s0; now rewrite !outb_crt).
  assert (Htr0 : trace s0 = trace s) by (unfold s0; now rewrite !outb_trace).
  destruct (cga_advance c color (cursor_pos s) s0) as [pos1 s1] eqn:E1.
  assert (H1 : 0 <= pos1 <= 25 * COLUMNS
               /\ length (crt s1) = length (crt s)
               /\ trace s1 = trace s).
  { unfold cga_advance in E1.
    destruct (c =? NEWLINE).
    { injection E1 as <- <-. rewrite Hcrt0, Htr0.
      rewrite Z.rem_mod_nonneg by (unfold COLUMNS; lia).
      unfold COLUMNS in *. repeat split; try reflexivity;
        Z.to_euclidean_division_equations; lia. }
    destruct (c =? BACKSPACE).
    { injection E1 as <- <-. rewrite Hcrt0, Htr0. unfold COLUMNS in *.
      destruct (Z.gtb_spec (cursor_pos s) 0); repeat split; lia. }
    injection E1 as <- <-. unfold COLUMNS in *.
    split; [lia|]. split; [|exact Htr0].
    change (crt (crt_store ?p ?v s0)) with (<[Z.to_nat p := v]> (crt s0)).
    now rewrite length_insert, Hcrt0. }
  destruct H1 as (Hr1 & Hl1 & Ht1).
  destruct (cga_scroll_defined pos1 s1 Hr1) as (s2 & E2 & Hl2 & Hu2).
  rewrite E2. eexists. split; [reflexivity|].
  set (pos2 := if pos1 <? 24 * COLUMNS then pos1 else pos1 - COLUMNS).
  assert (Hr2 : 0 <= pos2 <= 24 * COLUMNS).
  { unfold pos2, COLUMNS in *. destruct (Z.ltb_spec pos1 (24 * 80)); lia. }
  destruct (cga_finish_spec pos2 s2) as (Hcrt & Htr & _ & Hcur).
  rewrite Hcur by (unfold COLUMNS in *; lia).
  rewrite Hcrt, length_insert, Hl2, Hl1, Htr, Hu2, Ht1.
  split; [exact Hr2|]. split; reflexivity.
Qed.

(** [consputc] on a machine that has not panicked, with the cursor on the
    page: it returns, touches only the screen and the trace, leaves the
    cursor on the page, and sends the character to the serial port, or the
    erase sequence for [BACKSPACE]. *)
Lemma consputc_ok c color s :
  panicked s = 0 -> on_screen s ->
  exists s',
    consputc c color s = Ret tt s'
    /\ same_core s s'
    /\ on_screen s'
    /\ uart_out (trace s')
       = uart_out (trace s) ++ (if c =? BACKSPACE then [8; 32; 8] else [c]).
Proof.
  intros Hp Hon. unfold consputc. rewrite Hp.
  change (0 =? 0) with true. cbv iota.
  set (s1 := if c =? BACKSPACE then _ else _).
  assert (H1 : same_core s s1 /\ on_screen s1
               /\ uart_out (trace s1)
                  = uart_out (trace s) ++ (if c =? BACKSPACE then [8; 32; 8] else [c])).
  { unfold s1. destruct (c =? BACKSPACE).
    - split; [repeat split|]. split; [exact Hon|].
      change (trace (uartputc 8 (uartputc 32 (uartputc 8 s))))
        with (((trace s ++ [EUart 8]) ++ [EUart 32]) ++ [EUart 8]).
      rewrite !uart_out_app. simpl. rewrite <- !app_assoc. reflexivity.
    - split; [repeat split|]. split; [exact Hon|].
      change (trace (uartputc c s)) with (trace s ++ [EUart c]).
      now rewrite uart_out_app. }
  destruct H1 as (Hc1 & Hon1 & Hu1).
  destruct (cgaputc_defined c color s1 Hon1) as (s' & E & Hcur & _ & Hu).
  rewrite E. exists s'. split; [reflexivity|].
  split; [eapply same_core_trans; [exact Hc1|exact (cgaputc_core _ _ _ _ E)]|].
  split; [unfold on_screen, COLUMNS in *; lia|].
  now rewrite Hu, Hu1.
Qed.

Lemma consputc_returns c color s :
  panicked s = 0 -> on_screen s ->
  exists s', consputc c color s = Ret tt s' /\ same_core s s' /\ on_screen s'.
Proof.
  intros Hp Hon. destruct (consputc_ok c color s Hp Hon) as (s' & E & Hc & Hon' & _).
  exists s'. split; [exact E|]. split; [exact Hc|exact Hon'].
Qed.

(** Whatever the cursor, what [consputc] leaves, if anything, differs from
    what it found in the screen and the trace only. *)
Lemma consputc_core c color s :
  match consputc c color s with
  | Ret _ s' => same_core s s'
  | Hang s' => same_core s s'
  | Undef => True
  end.
Proof.
  unfold consputc. destruct (panicked s =? 0); [|repeat split].
  set (s1 := if c =? BACKSPACE then _ else _).
  assert (H1 : same_core s s1) by (unfold s1; destruct (c =? BACKSPACE); repeat split).
  destruct (cgaputc c color s1) as [s'|] eqn:E; [|exact I].
  eapply same_core_trans; [exact H1|exact (cgaputc_core _ _ _ _ E)].
Qed.

(** [consputc] on a machine that has panicked. *)
Lemma consputc_hangs c color s :
  panicked s <> 0 -> consputc c color s = Hang (emit ECli s).
Proof.
  intros Hp. unfold consputc.
  destruct (Z.eqb_spec (panicked s) 0); [contradiction|reflexivity].
Qed.

Section Relates.

Context (R : State -> State -> Prop).

Hypothesis R_refl : forall s, R s s.

Hypothesis R_trans : forall s1 s2 s3, R s1 s2 -> R s2 s3 -> R s1 s3.

Lemma relates_ret {A} (a : A) : relates R (ret a).
Proof. intros s. apply R_refl. Qed.

Lemma relates_undefined {A} : relates R (@undefined A).
Proof. intros s. exact I. Qed.

Lemma relates_spin : relates R spin.
Proof. intros s. apply R_refl. Qed.

Lemma relates_lift f : (forall s, R s (f s)) -> relates R (lift f).
Proof. intros H s. apply H. Qed.

Lemma relates_bind {A B} (m : M A) (k : A -> M B) :
  relates R m -> (forall a, relates R (k a)) -> relates R (bind m k).
Proof.
  intros Hm Hk s. unfold bind. specialize (Hm s).
  destruct (m s) as [a s1| s1|]; try assumption.
  specialize (Hk a s1). destruct (k a s1); eauto.
Qed.

Lemma relates_fun {A} (f : State -> M A) :
  (forall s0, relates R (f s0)) -> relates R (fun s => f s s).
Proof. intros H s. apply (H s s). Qed.

End Relates.

Lemma relates_weaken {A} (R R' : State -> State -> Prop) (m : M A) :
  (forall s s', R s s' -> R' s s') -> relates R m -> relates R' m.
Proof.
  intros HR Hm s. specialize (Hm s). destruct (m s); auto.
Qed.

Lemma core_ret {A} (a : A) : relates same_core (ret a).
Proof. apply relates_ret, same_core_refl. Qed.

Lemma core_bind {A B} (m : M A) (k : A -> M B) :
  relates same_core m -> (forall a, relates same_core (k a)) ->
  relates same_core (bind m k).
Proof. apply relates_bind, same_core_trans. Qed.

Lemma core_undefined {A} : relates same_core (@undefined A).
Proof. apply relates_undefined. Qed.

Lemma core_emit ev : relates same_core (lift (emit ev)).
Proof. apply relates_lift. intros s. repeat split. Qed.

Lemma core_consputc c color : relates same_core (consputc c color).
Proof.
  intros s. pose proof (consputc_core c color s) as H.
  destruct (consputc c color s); exact H.
Qed.

#[local] Hint Resolve core_ret core_bind core_undefined core_emit core_consputc : core_db.

Lemma core_puts p color : relates same_core (puts p color).
Proof.
  induction p as [|ch p IH]; simpl; [auto with core_db|].
  destruct (ch =? 0); auto with core_db.
Qed.

Lemma core_putrev p color : relates same_core (putrev p color).
Proof. induction p as [|ch p IH]; simpl; auto with core_db. Qed.

Lemma core_printint xx base sign color :
  relates same_core (printint xx base sign color).
Proof.
  unfold printint. destruct (printint_digits _ _ _ _); [|auto with core_db].
  destruct (_ <? _); auto using core_putrev with core_db.
Qed.

Lemma core_printptr_loop sz n x color :
  relates same_core (printptr_loop sz n x color).
Proof. revert x. induction n as [|n IH]; intros x; simpl; auto with core_db. Qed.

Lemma core_printptr sz x color : relates same_core (printptr sz x color).
Proof. apply core_printptr_loop. Qed.

#[local] Hint Resolve core_puts core_putrev core_printint core_printptr : core_db.

Lemma core_cprintf_loop sz fmt :
  forall ap color, relates same_core (cprintf_loop sz fmt ap color).
Proof.
  induction fmt as [fmt IH] using (induction_ltof1 _ (@length Z)).
  unfold ltof in IH. intros ap color.
  destruct fmt as [|ch fmt1]; simpl; [auto with core_db|].
  destruct (Z.land ch 255 =? 0); [auto with core_db|].
  destruct (negb (Z.land ch 255 =? PERCENT)).
  { apply core_bind; [auto with core_db|]. intros _. apply IH. simpl. lia. }
  destruct fmt1 as [|ch2 fmt2]; [auto with core_db|].
  assert (Hrec : forall ap', relates same_core (cprintf_loop sz fmt2 ap' color)).
  { intros ap'. apply IH. simpl. lia. }
  destruct (Z.land ch2 255 =? 0); [auto with core_db|].
  repeat match goal with
         | |- relates _ (if ?b then _ else _) => destruct b
         | |- relates _ (match ?a with _ => _ end) => destruct a
         end; auto 6 with core_db.
Qed.

Lemma core_when b (m : M unit) : relates same_core m -> relates same_core (when b m).
Proof. destruct b; simpl; auto with core_db. Qed.

Lemma core_cprintf_fmt sz fmt ap : relates same_core (cprintf_fmt sz fmt ap).
Proof.
  unfold cprintf_fmt.
  apply (relates_fun same_core
           (fun s0 => when (negb (cons_locking s0 =? 0)) (lift (emit (EAcquire ConsLock)))
                      >> cprintf_loop sz fmt ap DEFAULT_CONSOLE_COLOR
                      >> when (negb (cons_locking s0 =? 0)) (lift (emit (ERelease ConsLock))))).
  intros s0. auto 6 using core_when, core_cprintf_loop with core_db.
Qed.

Lemma panic_step_refl s : panic_step s s.
Proof. repeat split. now left. Qed.

Lemma panic_step_trans s1 s2 s3 :
  panic_step s1 s2 -> panic_step s2 s3 -> panic_step s1 s3.
Proof.
  unfold panic_step. intros (?&?&?&?&Hp1) (?&?&?&?&Hp2).
  repeat split; try congruence.
  destruct Hp2 as [Hp2|Hp2]; [rewrite Hp2; exact Hp1|now right].
Qed.

Lemma core_panic_step s s' : same_core s s' -> panic_step s s'.
Proof. intros (?&?&?&?&?&?). repeat split; auto. Qed.

Lemma ps_cprintf_fmt sz fmt ap : relates panic_step (cprintf_fmt sz fmt ap).
Proof. eapply relates_weaken; [apply core_panic_step|apply core_cprintf_fmt]. Qed.

Lemma ps_panic_pcs sz pcs : forall i, relates panic_step (panic_pcs sz i pcs).
Proof.
  induction pcs as [|pc pcs IH]; intros i; simpl.
  - apply relates_ret, panic_step_refl.
  - destruct (pc =? 0); [apply relates_ret, panic_step_refl|].
    apply (relates_bind panic_step panic_step_trans);
      [apply ps_cprintf_fmt|intros _; apply IH].
Qed.

Lemma ps_panic_with sz message :
  relates panic_step message -> relates panic_step (panic_with sz message).
Proof.
  intros Hm. unfold panic_with.
  repeat (apply relates_bind; [exact panic_step_trans| |intros _]);
    try exact Hm; try apply ps_cprintf_fmt.
  - apply relates_lift. intros s. repeat split. now left.
  - apply relates_lift. intros s. repeat split. now left.
  - apply (relates_fun panic_step (fun s0 => cprintf_fmt sz _ [AInt (cpu_id s0)])).
    intros s0. apply ps_cprintf_fmt.
  - apply (relates_fun panic_step (fun s0 => panic_pcs sz 0 (take 10 (callerpcs s0)))).
    intros s0. apply ps_panic_pcs.
  - apply relates_lift. intros s. repeat split. now right.
  - apply relates_lift. intros s. repeat split. now left.
  - apply relates_spin, panic_step_refl.
Qed.

Lemma ps_cprintf sz fmt ap : relates panic_step (cprintf sz fmt ap).
Proof.
  destruct fmt as [f|]; simpl; [apply ps_cprintf_fmt|].
  apply (relates_fun panic_step
           (fun s0 => when (negb (cons_locking s0 =? 0)) (lift (emit (EAcquire ConsLock)))
                      >> panic_with sz (cprintf_fmt sz (str "null fmt") []))).
  intros s0. apply relates_bind; [exact panic_step_trans| |intros _].
  - destruct (negb _); simpl.
    + apply relates_lift. intros s. repeat split. now left.
    + apply relates_ret, panic_step_refl.
  - apply ps_panic_with, ps_cprintf_fmt.
Qed.

Lemma ps_panic sz msg : relates panic_step (panic sz msg).
Proof. apply ps_panic_with, ps_cprintf. Qed.

(** [panic] never returns, and [cprintf] of a null format never does. *)
Lemma panic_with_no_return sz message s :
  forall a s', panic_with sz message s <> Ret a s'.
Proof.
  intros a s'. unfold panic_with, bind, lift, spin.
  repeat match goal with
         | |- context [match ?x with Ret _ _ => _ | Hang _ => _ | Undef => _ end] =>
             destruct x; try discriminate
         end.
Qed.

Lemma same_env_refl s : same_env s s.
Proof. repeat split. Qed.

Lemma same_env_trans s1 s2 s3 : same_env s1 s2 -> same_env s2 s3 -> same_env s1 s3.
Proof.
  unfold same_env. intros (?&?&?&?&?) (?&?&?&?&?). repeat split; congruence.
Qed.

Lemma core_env s s' : same_core s s' -> same_env s s'.
Proof. intros (?&?&?&?&?&?). repeat split; auto. Qed.

Lemma env_consputc c color : relates same_env (consputc c color).
Proof. eapply relates_weaken; [apply core_env|apply core_consputc]. Qed.

Lemma env_kill_line fuel : relates same_env (kill_line fuel).
Proof.
  induction fuel as [|fuel IH]; intros s; simpl; [apply same_env_refl|].
  destruct (_ && _); [|apply same_env_refl].
  apply (relates_bind same_env same_env_trans); [|intros _].
  - apply relates_lift. intros s1. repeat split.
  - apply (relates_bind same_env same_env_trans); [apply env_consputc|intros _; exact IH].
Qed.

Lemma env_consoleintr_default c : relates same_env (consoleintr_default c).
Proof.
  intros s. unfold consoleintr_default.
  destruct (_ && _); [|apply same_env_refl].
  set (c' := if c =? CARRIAGE_RETURN then NEWLINE else c).
  set (s1 := set_e _ _).
  assert (H1 : same_env s s1) by (repeat split).
  unfold bind. pose proof (env_consputc c' DEFAULT_CONSOLE_COLOR s1) as H2.
  destruct (consputc c' DEFAULT_CONSOLE_COLOR s1) as [[] s2|s2|]; [| |exact I].
  - pose proof (same_env_trans _ _ _ H1 H2) as H3.
    destruct (_ || _); [|assumption].
    eapply same_env_trans; [exact H3|]. repeat split.
  - exact (same_env_trans _ _ _ H1 H2).
Qed.

Lemma env_consoleintr_char c : relates same_env (consoleintr_char c).
Proof.
  unfold consoleintr_char.
  destruct (c =? CTRL_Z); [apply relates_lift; intros s; repeat split|].
  destruct (c =? CTRL_P); [apply relates_lift; intros s; repeat split|].
  destruct (c =? CTRL_U).
  { intros s. apply env_kill_line. }
  destruct (_ || _); [|apply env_consoleintr_default].
  intros s. destruct (negb _); [|apply same_env_refl].
  apply (relates_bind same_env same_env_trans); [|intros _; apply env_consputc].
  apply relates_lift. intros s1. repeat split.
Qed.

Lemma env_consoleintr_loop keys : relates same_env (consoleintr_loop keys).
Proof.
  induction keys as [|c keys IH]; simpl; [apply relates_ret, same_env_refl|].
  destruct (c >=? 0); [|apply relates_ret, same_env_refl].
  apply (relates_bind same_env same_env_trans); [apply env_consoleintr_char|auto].
Qed.

Lemma env_consoleintr keys : relates same_env (consoleintr keys).
Proof.
  unfold consoleintr.
  apply (relates_bind same_env same_env_trans); [|intros _].
  { apply relates_lift. intros s. repeat split. }
  apply (relates_bind same_env same_env_trans); [apply env_consoleintr_loop|intros _].
  apply relates_lift. intros s. repeat split.
Qed.

Lemma env_consolewrite_loop buf n : forall i, relates same_env (consolewrite_loop buf i n).
Proof.
  induction n as [|n IH]; intros i; simpl; [apply relates_ret, same_env_refl|].
  destruct (buf !! i); [|apply relates_undefined].
  apply (relates_bind same_env same_env_trans); [apply env_consputc|auto].
Qed.

Lemma env_consolewrite buf n : relates same_env (consolewrite buf n).
Proof.
  unfold consolewrite.
  assert (Hl : forall ev, relates same_env (lift (emit ev))).
  { intros ev. apply relates_lift. intros s. repeat split. }
  apply (relates_bind same_env same_env_trans); [apply Hl|intros _].
  apply (relates_bind same_env same_env_trans); [apply Hl|intros _].
  apply (relates_bind same_env same_env_trans);
    [apply env_consolewrite_loop|intros _].
  apply (relates_bind same_env same_env_trans); [apply Hl|intros _].
  apply (relates_bind same_env same_env_trans); [apply Hl|intros _].
  apply relates_ret, same_env_refl.
Qed.

Lemma read_step_refl s : read_step s s.
Proof. destruct s as [? ? [] ? ? ? ? ? ?]. reflexivity. Qed.

Lemma read_step_emit ev s s' : read_step s s' -> read_step s (emit ev s').
Proof. unfold read_step. intros H. rewrite H at 1. reflexivity. Qed.

Lemma read_step_set_r v s s' : read_step s s' -> read_step s (set_r v s').
Proof. unfold read_step. intros H. rewrite H at 1. reflexivity. Qed.

Lemma consoleread_exit_step target n dst s0 s :
  read_step s0 s -> read_step s0 (rr_state (consoleread_exit target n dst s)).
Proof. intros H. simpl. now do 2 apply read_step_emit. Qed.

Lemma consoleread_loop_step fuel :
  forall target n dst s0 s,
    read_step s0 s ->
    read_step s0 (rr_state (consoleread_loop fuel target n dst s)).
Proof.
  induction fuel as [|fuel IH]; intros target n dst s0 s H.
  { now apply consoleread_exit_step. }
  simpl. destruct (n >? 0); [|now apply consoleread_exit_step].
  destruct (input_r (input s) =? input_w (input s)).
  { destruct (proc_killed s =? 0); simpl.
    - now apply read_step_emit.
    - now do 2 apply read_step_emit. }
  destruct (_ =? CTRL_D).
  { destruct (to_uint n <? target); apply consoleread_exit_step;
      repeat apply read_step_set_r; exact H. }
  destruct (_ =? NEWLINE).
  - apply consoleread_exit_step. now apply read_step_set_r.
  - apply IH. now apply read_step_set_r.
Qed.

Lemma consoleread_step n s : read_step s (rr_state (consoleread n s)).
Proof.
  unfold consoleread. apply consoleread_loop_step.
  do 2 apply read_step_emit. apply read_step_refl.
Qed.

Lemma relates_final {A} R (m : M A) s s' :
  relates R m -> final_state (m s) = Some s' -> R s s'.
Proof.
  intros H E. specialize (H s). destruct (m s); simpl in E; congruence.
Qed.

(** No operation takes the flag from non-zero back to zero. *)
Lemma run_keeps_panicked sz o s s' :
  run sz o s = Some s' -> panicked s <> 0 -> panicked s' <> 0.
Proof.
  intros E Hp.
  assert (Henv : same_env s s' -> panicked s' <> 0).
  { intros (Heq & _). now rewrite Heq. }
  assert (Hps : panic_step s s' -> panicked s' <> 0).
  { intros (_ & _ & _ & _ & [Heq|Heq]); rewrite Heq; [exact Hp|discriminate]. }
  assert (Hrd : read_step s s' -> panicked s' <> 0).
  { intros ->. exact Hp. }
  destruct o; simpl in E.
  - apply Henv. eapply relates_final; [apply env_consoleintr|exact E].
  - apply Hrd. injection E as <-. apply consoleread_step.
  - apply Hrd. injection E as <-. apply consoleread_loop_step, read_step_refl.
  - apply Henv. eapply relates_final; [apply env_consolewrite|exact E].
  - apply Hps. eapply relates_final; [apply ps_cprintf|exact E].
  - apply Hps. eapply relates_final; [apply ps_panic|exact E].
  - apply Henv. eapply relates_final; [apply env_consputc|exact E].
Qed.

(** * The claims *)

(** ** Panic *)

(** C8: once [panicked] is non-zero it stays non-zero through every
    operation of the driver, and every later [consputc] spins: it calls
    [cli] and nothing else, so the state it spins in is the state it found
    with only [ECli] added to the trace (no [EUart], no change to the text
    page or the cursor registers). *)
Theorem panicked_console_spins (sz : Z) (os : list operation) (s s' : State) :
  panicked s <> 0 ->
  run_all sz os s = Some s' ->
  panicked s' <> 0
  /\ forall c color, consputc c color s' = Hang (emit ECli s').
Proof.
  revert s. induction os as [|o os IH]; intros s Hp E; simpl in E.
  - injection E as <-. split; [exact Hp|].
    intros c color. now apply consputc_hangs.
  - destruct (run sz o s) as [s1|] eqn:E1; [|discriminate].
    apply (IH s1); [|exact E].
    eapply run_keeps_panicked; eassumption.
Qed.

Lemma panicked_console_spins_witness :
  panicked panicked_example_later <> 0
  /\ forall c color,
      consputc c color panicked_example_later
      = Hang (emit ECli panicked_example_later).
Proof.
  apply (panicked_console_spins 8 [OpPutc 98 7; OpIntr [97]] panicked_example).
  - vm_compute. discriminate.
  - vm_compute. reflexivity.
Defined.

(** ** The line discipline *)

(** C10: a keystroke with code 0 is dropped. The [switch] does nothing for
    it (the state comes back as it went in: nothing stored, [r], [w], [e]
    as they were, no echo, no [wakeup]), and a batch that starts with it
    goes on as if it had not been there. *)
Theorem nul_keystroke_dropped (keys : list Z) (s : State) :
  consoleintr_char 0 s = Ret tt s
  /\ consoleintr (0 :: keys) s = consoleintr keys s.
Proof. split; reflexivity. Qed.

(** ** The blocking read *)

Lemma consoleintr_default_accepts c s :
  panicked s = 0 -> on_screen s -> c <> 0 -> pending (input s) < INPUT_BUF ->
  exists s',
    consoleintr_default c s = Ret tt s'
    /\ same_env s s'
    /\ on_screen s'
    /\ input s' =
       let c' := if c =? CARRIAGE_RETURN then NEWLINE else c in
       let e' := to_uint (input_e (input s) + 1) in
       mkInput (<[Z.to_nat (input_e (input s) mod INPUT_BUF) := to_char c']>
                  (input_buf (input s)))
               (input_r (input s))
               (if (c' =? NEWLINE) || (c' =? CTRL_D)
                   || (e' =? to_uint (input_r (input s) + INPUT_BUF))
                then e' else input_w (input s))
               e'.
Proof.
  intros Hp Hon Hc Hroom. unfold consoleintr_default.
  unfold pending in Hroom.
  destruct (Z.eqb_spec c 0) as [|_]; [contradiction|].
  destruct (Z.ltb_spec (to_uint (input_e (input s) - input_r (input s))) INPUT_BUF) as [_|]; [|lia].
  simpl negb. simpl andb. cbv iota.
  set (c' := if c =? CARRIAGE_RETURN then NEWLINE else c).
  set (s1 := set_e _ _).
  destruct (consputc_returns c' DEFAULT_CONSOLE_COLOR s1 Hp Hon) as (s2 & E2 & Hc2 & Hon2).
  unfold bind. rewrite E2.
  destruct Hc2 as (Hp2 & Hl2 & Hi2 & Hk2 & Hcpu2 & Hpcs2).
  rewrite Hi2. simpl.
  assert (He : same_env s s2).
  { unfold same_env. rewrite Hp2, Hl2, Hk2, Hcpu2, Hpcs2. repeat split. }
  destruct (_ || _); eexists; (split; [reflexivity|]); (split; [exact He|]);
    (split; [exact Hon2|]).
  - simpl. rewrite Hi2. reflexivity.
  - rewrite Hi2. reflexivity.
Qed.

Lemma to_nat_pos n : 0 < n -> exists f, Z.to_nat n = S f.
Proof. intros H. exists (Nat.pred (Z.to_nat n)). lia. Qed.

(** A read that finds the EOF marker first. *)
Lemma consoleread_eof_first n s :
  0 < n ->
  input_r (input s) <> input_w (input s) ->
  buf_get (input_r (input s)) s = CTRL_D ->
  consoleread n s
  = RDone 0 []
      (emit EIlock (emit (ERelease InputLock)
         (set_r (to_uint (input_r (input s) + 1))
            (emit (EAcquire InputLock) (emit EIunlock s))))).
Proof.
  intros Hn Hrw Hc. unfold consoleread.
  destruct (to_nat_pos n Hn) as [f ->]. simpl.
  replace (n >? 0) with true by lia.
  destruct (Z.eqb_spec (input_r (input s)) (input_w (input s))); [contradiction|].
  change (buf_get (input_r (input s)) (emit (EAcquire InputLock) (emit EIunlock s)))
    with (buf_get (input_r (input s)) s).
  rewrite Hc. simpl. rewrite Z.ltb_irrefl.
  unfold consoleread_exit. rewrite Z.sub_diag. reflexivity.
Qed.

(** A read that finds nothing committed goes to sleep. *)
Lemma consoleread_blocks n s :
  0 < n ->
  input_r (input s) = input_w (input s) ->
  proc_killed s = 0 ->
  consoleread n s
  = RBlocked (to_uint n) n []
      (emit ESleep (emit (EAcquire InputLock) (emit EIunlock s))).
Proof.
  intros Hn Hrw Hk. unfold consoleread.
  destruct (to_nat_pos n Hn) as [f ->]. simpl.
  replace (n >? 0) with true by lia.
  rewrite Hrw, Z.eqb_refl, Hk. reflexivity.
Qed.

(** C1: with nothing pending ([r = w = e]), one EOF keystroke followed by
    two reads (of any positive sizes, on a machine that has not panicked
    and has its cursor on the page, so that the echo returns, in a process
    that is not killed): the first read returns 0 and has
    written nothing to [dst]; it has consumed the marker, so [r = w] again;
    the second read finds nothing and sleeps, leaving [input] as it is. *)
Theorem eof_yields_one_empty_read (s : State) (n1 n2 : Z) :
  wf_input (input s) -> panicked s = 0 -> on_screen s -> proc_killed s = 0 ->
  input_w (input s) = input_r (input s) ->
  input_e (input s) = input_r (input s) ->
  0 < n1 -> 0 < n2 ->
  exists s1 s2 s3,
    consoleintr [CTRL_D] s = Ret tt s1
    /\ consoleread n1 s1 = RDone 0 [] s2
    /\ input_r (input s2) = input_w (input s2)
    /\ consoleread n2 s2 = RBlocked (to_uint n2) n2 [] s3
    /\ input s3 = input s2.
Proof.
  intros (Hlen & Hr & Hw & He) Hp Hon Hk Hwr Her Hn1 Hn2.
  set (sa := emit (EAcquire InputLock) s).
  destruct (consoleintr_default_accepts CTRL_D sa) as (sb & Eb & Henv & _ & Hin).
  { exact Hp. } { exact Hon. } { discriminate. }
  { unfold pending. simpl. rewrite Her, Z.sub_diag. reflexivity. }
  simpl in Hin. rewrite Her in Hin.
  exists (emit (ERelease InputLock) sb).
  assert (E1 : consoleintr [CTRL_D] s = Ret tt (emit (ERelease InputLock) sb)).
  { unfold consoleintr, bind, lift. fold sa. simpl.
    change (consoleintr_char CTRL_D) with (consoleintr_default CTRL_D).
    unfold bind. rewrite Eb. reflexivity. }
  pose proof (to_uint_succ_ne _ Hr) as Hne.
  pose proof (slot_lt (input_r (input s)) _ Hlen) as Hslot.
  set (s1 := emit (ERelease InputLock) sb).
  assert (Hin1 : input s1 = input sb) by reflexivity.
  eexists. eexists. split; [exact E1|].
  split.
  { apply consoleread_eof_first; [exact Hn1| |].
    - rewrite Hin1, Hin. simpl. auto.
    - unfold buf_get. rewrite Hin1, Hin. simpl.
      rewrite list_lookup_insert_eq by exact Hslot. reflexivity. }
  split.
  { simpl. rewrite Hin. reflexivity. }
  split.
  { apply consoleread_blocks; [exact Hn2| |].
    - simpl. rewrite Hin. reflexivity.
    - simpl. destruct Henv as (_ & _ & Hk' & _). rewrite Hk'. exact Hk. }
  reflexivity.
Qed.

Lemma idle_wf : wf_input (input idle).
Proof. repeat split; (reflexivity || (simpl; lia) || discriminate). Qed.

Lemma eof_yields_one_empty_read_witness :
  exists s1 s2 s3,
    consoleintr [CTRL_D] idle = Ret tt s1
    /\ consoleread 5 s1 = RDone 0 [] s2
    /\ input_r (input s2) = input_w (input s2)
    /\ consoleread 7 s2 = RBlocked (to_uint 7) 7 [] s3
    /\ input s3 = input s2.
Proof.
  apply (eof_yields_one_empty_read idle 5 7);
    [|reflexivity| |reflexivity|reflexivity|reflexivity|lia|lia].
  - repeat split; (reflexivity || (simpl; lia) || discriminate).
  - vm_compute. split; [discriminate|reflexivity].
Defined.

Lemma ring_inv_plain i :
  ring_inv i -> input_r i + INPUT_BUF < 2 ^ 32 -> plain_inv i.
Proof.
  unfold ring_inv, plain_inv, wf_input, available, pending.
  intros ((_ & Hr & Hw & He) & Ha) Hn. uint_arith.
Qed.

Lemma consputc_final c color s s' :
  final_state (consputc c color s) = Some s' -> input s' = input s.
Proof.
  intros E. pose proof (relates_final _ _ _ _ (core_consputc c color) E) as H.
  apply H.
Qed.

(** One round of kill-line or one backspace: [e] steps back towards [w]. *)
Lemma erase_keeps_inv (i : Input) :
  ring_inv i -> input_e i <> input_w i ->
  let i' := mkInput (input_buf i) (input_r i) (input_w i)
                    (to_uint (input_e i - 1)) in
  ring_inv i' /\ pending i' = pending i - 1 /\ available i' = available i.
Proof.
  unfold ring_inv, wf_input, available, pending. simpl.
  intros ((Hl & Hr & Hw & He) & Ha) Hne.
  repeat split; try assumption; try apply to_uint_range; uint_arith.
Qed.

Lemma kill_line_final fuel :
  forall s s',
    final_state (kill_line fuel s) = Some s' ->
    ring_inv (input s) ->
    ring_inv (input s')
    /\ input_r (input s') = input_r (input s)
    /\ input_w (input s') = input_w (input s)
    /\ pending (input s') <= pending (input s).
Proof.
  induction fuel as [|fuel IH]; intros s s' E Hinv; simpl in E.
  { injection E as <-. repeat split; try apply Hinv; lia. }
  destruct (negb (input_e (input s) =? input_w (input s))) eqn:Hne; simpl in E.
  2:{ injection E as <-. repeat split; try apply Hinv; lia. }
  destruct (negb (buf_get _ s =? NEWLINE)); simpl in E.
  2:{ injection E as <-. repeat split; try apply Hinv; lia. }
  apply negb_true_iff, Z.eqb_neq in Hne.
  destruct (erase_keeps_inv (input s) Hinv Hne) as (Hinv1 & Hp1 & Ha1).
  unfold bind, lift in E.
  set (s1 := set_e (to_uint (input_e (input s) - 1)) s) in *.
  destruct (consputc BACKSPACE DEFAULT_CONSOLE_COLOR s1) as [[] s2|s2|] eqn:E2;
    [| |discriminate].
  - assert (Hi2 : input s2 = input s1).
    { apply (consputc_final BACKSPACE DEFAULT_CONSOLE_COLOR). rewrite E2. reflexivity. }
    destruct (IH s2 s' E) as (H1 & H2 & H3 & H4).
    { rewrite Hi2. exact Hinv1. }
    rewrite Hi2 in H2, H3, H4. simpl in H2, H3, H4.
    repeat split; try apply H1; try assumption.
    change (pending (input s1)) with
      (pending (mkInput (input_buf (input s)) (input_r (input s))
                        (input_w (input s)) (to_uint (input_e (input s) - 1)))) in H4.
    lia.
  - injection E as <-.
    assert (Hi2 : input s2 = input s1).
    { apply (consputc_final BACKSPACE DEFAULT_CONSOLE_COLOR). rewrite E2. reflexivity. }
    rewrite Hi2. simpl. repeat split; try apply Hinv1.
    fold (pending (input s)). 
    change (to_uint (to_uint (input_e (input s) - 1) - input_r (input s))) with
      (pending (mkInput (input_buf (input s)) (input_r (input s))
                        (input_w (input s)) (to_uint (input_e (input s) - 1)))).
    lia.
Qed.

Lemma char_step_same c s s' :
  ring_inv (input s) -> input s' = input s -> char_step c s s'.
Proof.
  intros Hinv Heq. unfold char_step. rewrite Heq.
  repeat split; try apply Hinv; lia.
Qed.

(** Storing a character at [e]. *)
Lemma store_keeps_inv (i : Input) (c : Z) :
  ring_inv i -> pending i < INPUT_BUF ->
  let i' := mkInput (<[Z.to_nat (input_e i mod INPUT_BUF) := c]> (input_buf i))
                    (input_r i) (input_w i) (to_uint (input_e i + 1)) in
  ring_inv i' /\ pending i' = pending i + 1 /\ available i' = available i.
Proof.
  unfold ring_inv, wf_input, available, pending. simpl.
  intros ((Hl & Hr & Hw & He) & Ha) Hroom.
  rewrite length_insert.
  repeat split; try assumption; try apply to_uint_range; uint_arith.
Qed.

(** Committing: [w = e]. *)
Lemma commit_keeps_inv (i : Input) :
  ring_inv i ->
  let i' := mkInput (input_buf i) (input_r i) (input_e i) (input_e i) in
  ring_inv i' /\ pending i' = pending i /\ available i' = pending i.
Proof.
  unfold ring_inv, wf_input, available, pending. simpl.
  intros ((Hl & Hr & Hw & He) & Ha).
  repeat split; try assumption; uint_arith.
Qed.

Lemma consoleintr_default_final c s s' :
  final_state (consoleintr_default c s) = Some s' ->
  ring_inv (input s) -> char_step c s s'.
Proof.
  intros E Hinv. unfold consoleintr_default in E.
  destruct (negb (c =? 0)); simpl in E.
  2:{ injection E as <-. now apply char_step_same. }
  destruct (Z.ltb_spec (to_uint (input_e (input s) - input_r (input s))) INPUT_BUF)
    as [Hroom|_].
  2:{ injection E as <-. now apply char_step_same. }
  set (c' := if c =? CARRIAGE_RETURN then NEWLINE else c) in *.
  set (s1 := set_e _ _) in *.
  destruct (store_keeps_inv (input s) (to_char c') Hinv Hroom) as (Hinv1 & Hp1 & Ha1).
  change (mkInput _ _ _ _) with (input s1) in Hinv1, Hp1, Ha1.
  assert (Hr1 : input_r (input s1) = input_r (input s)) by reflexivity.
  assert (Hw1 : input_w (input s1) = input_w (input s)) by reflexivity.
  unfold bind in E.
  destruct (consputc c' DEFAULT_CONSOLE_COLOR s1) as [[] s2|s2|] eqn:E2;
    [| |discriminate].
  - assert (Hi2 : input s2 = input s1).
    { apply (consputc_final c' DEFAULT_CONSOLE_COLOR). rewrite E2. reflexivity. }
    rewrite Hi2 in E.
    destruct ((c' =? NEWLINE) || (c' =? CTRL_D)
              || (input_e (input s1) =? to_uint (input_r (input s1) + INPUT_BUF)))
      eqn:Hcommit; injection E as <-.
    + destruct (commit_keeps_inv (input s1) Hinv1) as (Hinv3 & Hp3 & Ha3).
      unfold char_step. simpl. rewrite Hi2.
      change (mkInput _ _ _ _) with
        (mkInput (input_buf (input s1)) (input_r (input s1))
                 (input_e (input s1)) (input_e (input s1))).
      repeat split; try apply Hinv3; try lia.
      { destruct Hinv as (_ & Hle). lia. }
      apply orb_true_iff in Hcommit as [Hcommit|Hfull].
      * apply orb_true_iff in Hcommit as [Hnl|Heof].
        -- apply Z.eqb_eq in Hnl. unfold c' in Hnl.
           destruct (Z.eqb_spec c CARRIAGE_RETURN); auto.
        -- apply Z.eqb_eq in Heof. unfold c' in Heof.
           destruct (Z.eqb_spec c CARRIAGE_RETURN); [discriminate|auto].
      * apply Z.eqb_eq in Hfull. right; right; right; right.
        rewrite Hp3. unfold pending. rewrite Hfull.
        destruct Hinv1 as ((_ & Hr & _) & _). uint_arith.
    + unfold char_step. rewrite Hi2.
      repeat split; try apply Hinv1; lia.
  - injection E as <-.
    assert (Hi2 : input s2 = input s1).
    { apply (consputc_final c' DEFAULT_CONSOLE_COLOR). rewrite E2. reflexivity. }
    unfold char_step. rewrite Hi2.
    repeat split; try apply Hinv1; lia.
Qed.

Lemma consoleintr_char_final c s s' :
  final_state (consoleintr_char c s) = Some s' ->
  ring_inv (input s) -> char_step c s s'.
Proof.
  intros E Hinv. unfold consoleintr_char in E.
  destruct (c =? CTRL_Z).
  { injection E as <-. now apply char_step_same. }
  destruct (c =? CTRL_P).
  { injection E as <-. now apply char_step_same. }
  destruct (c =? CTRL_U).
  { destruct (kill_line_final _ _ _ E Hinv) as (H1 & H2 & H3 & H4).
    unfold char_step. repeat split; try apply H1; try assumption; try lia.
    unfold available. rewrite H2, H3. lia. }
  destruct ((c =? CTRL_H) || (c =? 127)).
  2:{ now apply consoleintr_default_final. }
  destruct (negb (input_e (input s) =? input_w (input s))) eqn:Hne.
  2:{ injection E as <-. now apply char_step_same. }
  apply negb_true_iff, Z.eqb_neq in Hne.
  destruct (erase_keeps_inv (input s) Hinv Hne) as (Hinv1 & Hp1 & Ha1).
  unfold bind, lift in E.
  set (s1 := set_e (to_uint (input_e (input s) - 1)) s) in *.
  change (mkInput _ _ _ _) with (input s1) in Hinv1, Hp1, Ha1.
  assert (Hi2 : input s' = input s1).
  { apply (consputc_final BACKSPACE DEFAULT_CONSOLE_COLOR).
    destruct (consputc BACKSPACE DEFAULT_CONSOLE_COLOR s1) as [[] s2|s2|];
      simpl in *; congruence. }
  assert (Hr1 : input_r (input s1) = input_r (input s)) by reflexivity.
  assert (Hw1 : input_w (input s1) = input_w (input s)) by reflexivity.
  unfold char_step. rewrite Hi2.
  repeat split; try apply Hinv1; lia.
Qed.

Lemma consoleintr_loop_final keys :
  forall s s',
    final_state (consoleintr_loop keys s) = Some s' ->
    ring_inv (input s) ->
    ring_inv (input s')
    /\ input_r (input s') = input_r (input s)
    /\ available (input s) <= available (input s')
    /\ (Forall quiet keys ->
        pending (input s) + Z.of_nat (length keys) < INPUT_BUF ->
        input_w (input s') = input_w (input s)).
Proof.
  induction keys as [|c keys IH]; intros s s' E Hinv; simpl in E.
  { injection E as <-. repeat split; try apply Hinv; lia. }
  destruct (c >=? 0); simpl in E.
  2:{ injection E as <-. repeat split; try apply Hinv; lia. }
  unfold bind in E.
  destruct (consoleintr_char c s) as [[] s1|s1|] eqn:E1; [| |discriminate].
  - assert (Hc : char_step c s s1).
    { apply consoleintr_char_final; [rewrite E1; reflexivity|exact Hinv]. }
    destruct Hc as (Hinv1 & Hr1 & Hp1 & Ha1 & Hw1).
    destruct (IH s1 s' E Hinv1) as (Hinv' & Hr' & Ha' & Hw').
    repeat split; try apply Hinv'; try congruence; try lia.
    intros Hq Hlen. apply Forall_cons in Hq as ((Hq1 & Hq2 & Hq3) & Hq).
    rewrite length_cons in Hlen.
    assert (Hw1' : input_w (input s1) = input_w (input s)).
    { destruct Hw1 as [?|[?|[?|[?|?]]]]; try contradiction; [assumption|lia]. }
    rewrite <- Hw1'. apply Hw'; [exact Hq|lia].
  - injection E as <-.
    assert (Hc : char_step c s s1).
    { apply consoleintr_char_final; [rewrite E1; reflexivity|exact Hinv]. }
    destruct Hc as (Hinv1 & Hr1 & Hp1 & Ha1 & Hw1).
    repeat split; try apply Hinv1; try assumption.
    intros Hq Hlen. apply Forall_cons in Hq as ((Hq1 & Hq2 & Hq3) & Hq).
    rewrite length_cons in Hlen.
    destruct Hw1 as [?|[?|[?|[?|?]]]]; try contradiction; [assumption|lia].
Qed.

Lemma consoleintr_final keys s s' :
  final_state (consoleintr keys s) = Some s' ->
  ring_inv (input s) ->
  ring_inv (input s')
  /\ input_r (input s') = input_r (input s)
  /\ available (input s) <= available (input s')
  /\ (Forall quiet keys ->
      pending (input s) + Z.of_nat (length keys) < INPUT_BUF ->
      input_w (input s') = input_w (input s)).
Proof.
  intros E Hinv. unfold consoleintr, bind, lift in E.
  set (sa := emit (EAcquire InputLock) s) in *.
  destruct (consoleintr_loop keys sa) as [[] s1|s1|] eqn:E1; [| |discriminate];
    injection E as <-;
    apply (consoleintr_loop_final keys sa s1); try exact Hinv;
    rewrite E1; reflexivity.
Qed.

Lemma returns_ret {A} (a : A) : returns (ret a).
Proof. intros s Hp Hon. now exists a, s. Qed.

Lemma returns_bind {A B} (m : M A) (k : A -> M B) :
  returns m -> (forall a, returns (k a)) -> returns (bind m k).
Proof.
  intros Hm Hk s Hp Hon. destruct (Hm s Hp Hon) as (a & s1 & E1 & Hp1 & Hon1).
  unfold bind. rewrite E1. now apply Hk.
Qed.

Lemma returns_lift f :
  (forall s, panicked (f s) = panicked s) ->
  (forall s, cursor_pos (f s) = cursor_pos s) ->
  returns (lift f).
Proof.
  intros H Hc s Hp Hon. exists tt, (f s). split; [reflexivity|].
  split; [now rewrite H|]. unfold on_screen. now rewrite Hc.
Qed.

Lemma returns_consputc c color : returns (consputc c color).
Proof.
  intros s Hp Hon.
  destruct (consputc_returns c color s Hp Hon) as (s' & E & Hc & Hon').
  exists tt, s'. split; [exact E|]. split; [|exact Hon'].
  destruct Hc as (Hp' & _). now rewrite Hp'.
Qed.

Lemma returns_kill_line fuel : returns (kill_line fuel).
Proof.
  induction fuel as [|fuel IH]; intros s Hp Hon; simpl.
  { now exists tt, s. }
  destruct (_ && _); [|now exists tt, s].
  apply (returns_bind (lift _)); [now apply returns_lift| |exact Hp|exact Hon].
  intros _. apply returns_bind; [apply returns_consputc|intros _; exact IH].
Qed.

Lemma returns_consoleintr_default c : returns (consoleintr_default c).
Proof.
  intros s Hp Hon. unfold consoleintr_default.
  destruct (_ && _); [|now exists tt, s].
  match goal with
  | |- context [bind (consputc ?c' ?col) ?k ?s1] =>
      apply (returns_bind (consputc c' col) k);
        [apply returns_consputc| |exact Hp|exact Hon]
  end.
  intros _ s2 Hp2 Hon2.
  destruct (_ || _); eexists tt, _; (split; [reflexivity|split; [exact Hp2|exact Hon2]]).
Qed.

Lemma returns_consoleintr_char c : returns (consoleintr_char c).
Proof.
  unfold consoleintr_char.
  destruct (c =? CTRL_Z); [now apply returns_lift|].
  destruct (c =? CTRL_P); [now apply returns_lift|].
  destruct (c =? CTRL_U).
  { intros s. apply returns_kill_line. }
  destruct (_ || _); [|apply returns_consoleintr_default].
  intros s Hp Hon. destruct (negb _); [|now exists tt, s].
  apply (returns_bind (lift _)); [now apply returns_lift| |exact Hp|exact Hon].
  intros _. apply returns_consputc.
Qed.

Lemma returns_consoleintr keys : returns (consoleintr keys).
Proof.
  unfold consoleintr. apply returns_bind; [now apply returns_lift|intros _].
  apply returns_bind; [|intros _; now apply returns_lift].
  induction keys as [|c keys IH]; simpl; [apply returns_ret|].
  destruct (c >=? 0); [|apply returns_ret].
  apply returns_bind; [apply returns_consoleintr_char|intros _; exact IH].
Qed.

(** C6 as stated fails: a carriage return is neither the newline character
    nor the EOF marker, and it commits the line. *)
Lemma carriage_return_commits :
  CARRIAGE_RETURN <> NEWLINE /\ CARRIAGE_RETURN <> CTRL_D
  /\ Z.of_nat (length [CARRIAGE_RETURN]) < INPUT_BUF
  /\ input_r (input idle) = input_w (input idle)
  /\ match consoleintr [CARRIAGE_RETURN] idle with
     | Ret _ s' => input_r (input s') = 0 /\ input_w (input s') = 1
     | _ => False
     end.
Proof. vm_compute. repeat split; congruence. Qed.

(** C6, amended: keystrokes that are neither newline, carriage return nor
    the EOF marker, few enough to leave the buffer short of full, commit
    nothing: [w] stays where it was, so a buffer that had [r == w] still has
    it, in whatever state the batch leaves the machine; and on a machine
    that has not panicked and has its cursor on the page the batch
    returns. *)
Theorem uncommitted_until_terminator (keys : list Z) (s : State) :
  ring_inv (input s) ->
  input_r (input s) = input_w (input s) ->
  Forall quiet keys ->
  pending (input s) + Z.of_nat (length keys) < INPUT_BUF ->
  (forall s', final_state (consoleintr keys s) = Some s' ->
              input_r (input s') = input_w (input s')
              /\ input_w (input s') = input_w (input s))
  /\ (panicked s = 0 -> on_screen s -> exists s', consoleintr keys s = Ret tt s').
Proof.
  intros Hinv Hrw Hq Hlen. split.
  - intros s' E.
    destruct (consoleintr_final keys s s' E Hinv) as (_ & Hr & _ & Hw).
    specialize (Hw Hq Hlen). split; congruence.
  - intros Hp Hon.
    destruct (returns_consoleintr keys s Hp Hon) as ([] & s' & E & _).
    now exists s'.
Qed.

Lemma idle_ring_inv : ring_inv (input idle).
Proof.
  split; [repeat split; (reflexivity || (simpl; lia) || discriminate)|].
  vm_compute. split; discriminate.
Qed.

Lemma uncommitted_until_terminator_witness :
  (forall s', final_state (consoleintr [104; 105; CTRL_H; 33] idle) = Some s' ->
              input_r (input s') = input_w (input s')
              /\ input_w (input s') = input_w (input idle))
  /\ (exists s', consoleintr [104; 105; CTRL_H; 33] idle = Ret tt s').
Proof.
  destruct (uncommitted_until_terminator [104; 105; CTRL_H; 33] idle)
    as (Hquiet & Hret).
  - split; [repeat split; (reflexivity || (simpl; lia) || discriminate)|].
    vm_compute. split; discriminate.
  - reflexivity.
  - repeat constructor; discriminate.
  - vm_compute. reflexivity.
  - split; [exact Hquiet|]. apply Hret; [reflexivity|].
    vm_compute. split; [discriminate|reflexivity].
Defined.

(** ** The reader and the ring invariant *)

(** Consuming one committed character. *)
Lemma consume_keeps_inv (i : Input) :
  ring_inv i -> input_r i <> input_w i ->
  let i' := mkInput (input_buf i) (to_uint (input_r i + 1)) (input_w i)
                    (input_e i) in
  ring_inv i' /\ available i' = available i - 1 /\ pending i' = pending i - 1.
Proof.
  unfold ring_inv, wf_input, available, pending. simpl.
  intros ((Hl & Hr & Hw & He) & Ha) Hne.
  repeat split; try assumption; try apply to_uint_range; uint_arith.
Qed.

Lemma consoleread_loop_inv fuel :
  forall target n dst s,
    ring_inv (input s) ->
    let s' := rr_state (consoleread_loop fuel target n dst s) in
    ring_inv (input s')
    /\ advance s s' <= available (input s)
    /\ input_w (input s') = input_w (input s)
    /\ input_e (input s') = input_e (input s).
Proof.
  assert (Hstay : forall s, ring_inv (input s) ->
            ring_inv (input s) /\ advance s s <= available (input s)
            /\ input_w (input s) = input_w (input s)
            /\ input_e (input s) = input_e (input s)).
  { intros s Hinv. repeat split; try apply Hinv.
    unfold advance. rewrite Z.sub_diag.
    destruct Hinv as (_ & Ha). unfold available in *. uint_arith. }
  induction fuel as [|fuel IH]; intros target n dst s Hinv.
  { apply (Hstay s Hinv). }
  simpl. destruct (n >? 0); [|apply (Hstay s Hinv)].
  destruct (Z.eqb_spec (input_r (input s)) (input_w (input s))) as [Heq|Hne].
  { destruct (proc_killed s =? 0); apply (Hstay s Hinv). }
  destruct (consume_keeps_inv (input s) Hinv Hne) as (Hinv1 & Ha1 & Hp1).
  set (s1 := set_r (to_uint (input_r (input s) + 1)) s) in *.
  change (mkInput _ _ _ _) with (input s1) in Hinv1, Ha1, Hp1.
  assert (Hadv1 : advance s s1 = 1).
  { unfold advance. simpl. destruct Hinv as ((_ & Hr & _) & _). uint_arith. }
  assert (Hone : 1 <= available (input s)).
  { destruct Hinv1 as (_ & Hb). unfold available in *.
    destruct Hinv as ((_ & Hr & Hw & _) & _). uint_arith. }
  assert (Hs1 : ring_inv (input s1) /\ advance s s1 <= available (input s)
                /\ input_w (input s1) = input_w (input s)
                /\ input_e (input s1) = input_e (input s)).
  { repeat split; try apply Hinv1. lia. }
  destruct (_ =? CTRL_D).
  { destruct (to_uint n <? target); [|exact Hs1].
    simpl. rewrite to_uint_pred_succ by apply Hinv.
    destruct s as [? ? [] ? ? ? ? ? ?]. apply (Hstay _ Hinv). }
  destruct (_ =? NEWLINE); [exact Hs1|].
  destruct (IH target (n - 1) (dst ++ [to_char (buf_get (input_r (input s)) s)]) s1 Hinv1)
    as (Hinv' & Hadv' & Hw' & He').
  repeat split; try apply Hinv'; try assumption.
  rewrite Ha1 in Hadv'. clear Hs1 Hadv1 Ha1 Hp1 Hinv1 IH.
  unfold advance in *. subst s1. simpl in Hadv'.
  destruct Hinv as ((_ & Hr & Hw & _) & Hb).
  destruct Hinv' as ((_ & Hr' & _) & _).
  unfold available, pending in *. uint_arith.
Qed.

Lemma core_consolewrite_loop buf n :
  forall i, relates same_core (consolewrite_loop buf i n).
Proof.
  induction n as [|n IH]; intros i; simpl; [apply core_ret|].
  destruct (buf !! i); [|apply core_undefined].
  apply core_bind; [apply core_consputc|auto].
Qed.

Lemma core_consolewrite buf n : relates same_core (consolewrite buf n).
Proof.
  unfold consolewrite.
  repeat (apply core_bind; [first [apply core_emit|apply core_consolewrite_loop]
                           |intros _]).
  apply core_ret.
Qed.

(** What an operation does to the indices: the invariant is kept, [r]
    moves forward and not past the old [w], and [w], measured from the old
    [r], is no lower than it was and at most a buffer ahead. *)
Lemma run_indices sz o s s' :
  ring_inv (input s) ->
  run sz o s = Some s' ->
  ring_inv (input s')
  /\ advance s s' <= available (input s)
  /\ available (input s) <= committed_from s s' <= INPUT_BUF.
Proof.
  intros Hinv E.
  assert (Hsame : input s' = input s ->
            ring_inv (input s')
            /\ advance s s' <= available (input s)
            /\ available (input s) <= committed_from s s' <= INPUT_BUF).
  { intros Heq. unfold advance, committed_from. rewrite Heq, Z.sub_diag.
    split; [exact Hinv|]. destruct Hinv as (_ & Hb).
    unfold available in *. uint_arith. }
  assert (Hread : forall o', s' = rr_state o' ->
            (ring_inv (input (rr_state o'))
             /\ advance s (rr_state o') <= available (input s)
             /\ input_w (input (rr_state o')) = input_w (input s)
             /\ input_e (input (rr_state o')) = input_e (input s)) ->
            ring_inv (input s')
            /\ advance s s' <= available (input s)
            /\ available (input s) <= committed_from s s' <= INPUT_BUF).
  { intros o' -> (Hinv' & Hadv & Hw' & He'). repeat split; try apply Hinv'; try exact Hadv;
      unfold committed_from; rewrite Hw'; fold (available (input s)); [lia|].
    destruct Hinv as (_ & Hb). lia. }
  destruct o; simpl in E.
  - destruct (consoleintr_final keys s s' E Hinv) as (Hinv' & Hr & Ha & _).
    split; [exact Hinv'|]. unfold advance, committed_from. rewrite Hr, Z.sub_diag.
    rewrite <- Hr. fold (available (input s')).
    destruct Hinv' as (_ & Hb'). destruct Hinv as (_ & Hb).
    unfold available in *. uint_arith.
  - injection E as E. eapply Hread; [symmetry; exact E|].
    unfold consoleread.
    apply (consoleread_loop_inv (Z.to_nat n) (to_uint n) n []
             (emit (EAcquire InputLock) (emit EIunlock s))). exact Hinv.
  - injection E as E. eapply Hread; [symmetry; exact E|].
    apply (consoleread_loop_inv (Z.to_nat n) target n dst s). exact Hinv.
  - apply Hsame. eapply (relates_final same_core) in E; [|apply core_consolewrite].
    apply E.
  - apply Hsame. eapply (relates_final panic_step) in E; [|apply ps_cprintf].
    apply E.
  - apply Hsame. eapply (relates_final panic_step) in E; [|apply ps_panic].
    apply E.
  - apply Hsame. eapply (relates_final same_core) in E; [|apply core_consputc].
    apply E.
Qed.

Lemma run_all_inv sz os :
  forall s s', ring_inv (input s) -> run_all sz os s = Some s' -> ring_inv (input s').
Proof.
  induction os as [|o os IH]; intros s s' Hinv E; simpl in E.
  - now injection E as <-.
  - destruct (run sz o s) as [s1|] eqn:E1; [|discriminate].
    apply (IH s1); [|exact E]. now apply (run_indices sz o s s1).
Qed.

Lemma boot_ring_inv page regs cpu pcs :
  ring_inv (input (boot_state page regs cpu pcs)).
Proof.
  split; [repeat split; (reflexivity || (simpl; lia) || discriminate)|].
  vm_compute. split; discriminate.
Qed.

(** C4 as stated fails: a backspace takes [e] back. *)
Lemma backspace_decreases_e :
  match consoleintr [97] idle with
  | Ret _ s =>
      match consoleintr [CTRL_H] s with
      | Ret _ s' => input_e (input s) = 1 /\ input_e (input s') = 0
      | _ => False
      end
  | _ => False
  end.
Proof. vm_compute. split; reflexivity. Qed.

(** ** Reaching the wrap of the indices *)

Lemma run_all_app sz os1 os2 s :
  run_all sz (os1 ++ os2) s
  = match run_all sz os1 s with
    | Some s1 => run_all sz os2 s1
    | None => None
    end.
Proof.
  revert s. induction os1 as [|o os1 IH]; intros s; simpl; [reflexivity|].
  destruct (run sz o s); [apply IH|reflexivity].
Qed.

Lemma line_cycle_moves sz x s :
  uint_range x -> empty_at x s ->
  exists s', run_all sz line_cycle s = Some s' /\ empty_at (to_uint (x + 1)) s'.
Proof.
  intros Hx (Hp & Hon & Hlen & Hr & Hw & He).
  set (sa := emit (EAcquire InputLock) s).
  destruct (consoleintr_default_accepts NEWLINE sa) as (sb & Eb & Henv & Honb & Hin).
  { exact Hp. } { exact Hon. } { discriminate. }
  { unfold pending. simpl. rewrite He, Hr, Z.sub_diag. reflexivity. }
  simpl in Hin. rewrite He, Hr in Hin.
  set (s1 := emit (ERelease InputLock) sb).
  assert (E1 : consoleintr [NEWLINE] s = Ret tt s1).
  { unfold consoleintr, bind, lift. fold sa. simpl.
    change (consoleintr_char NEWLINE) with (consoleintr_default NEWLINE).
    unfold bind. rewrite Eb. reflexivity. }
  assert (Hin1 : input s1 = input sb) by reflexivity.
  pose proof (to_uint_succ_ne _ Hx) as Hne.
  pose proof (slot_lt x _ Hlen) as Hslot.
  assert (E2 : consoleread 1 s1
               = RDone 1 [NEWLINE]
                   (emit EIlock (emit (ERelease InputLock)
                      (set_r (to_uint (x + 1))
                         (emit (EAcquire InputLock) (emit EIunlock s1)))))).
  { unfold consoleread. simpl.
    unfold buf_get. simpl. rewrite Hin. simpl.
    destruct (Z.eqb_spec x (to_uint (x + 1))) as [Heq|_]; [congruence|].
    rewrite list_lookup_insert_eq by exact Hslot. reflexivity. }
  eexists. split.
  { simpl. rewrite E1. simpl. rewrite E2. reflexivity. }
  unfold empty_at. simpl. rewrite Hin. simpl. rewrite length_insert.
  destruct Henv as (Hp' & _). simpl in Hp'.
  split; [congruence|]. split; [exact Honb|].
  repeat split; congruence.
Qed.

Lemma line_cycles_reach sz (k : nat) s :
  empty_at 0 s ->
  exists s', run_all sz (line_cycles k) s = Some s'
             /\ empty_at (to_uint (Z.of_nat k)) s'.
Proof.
  intros H0. induction k as [|k (s1 & E1 & H1)].
  - exists s. split; [reflexivity|exact H0].
  - destruct (line_cycle_moves sz _ s1 (to_uint_range _) H1) as (s2 & E2 & H2).
    exists s2. split.
    + change (line_cycles (S k)) with (line_cycles k ++ line_cycle).
      rewrite run_all_app, E1. exact E2.
    + replace (to_uint (Z.of_nat (S k))) with (to_uint (to_uint (Z.of_nat k) + 1));
        [exact H2|].
      rewrite Nat2Z.inj_succ. uint_arith.
Qed.

(** C3 as stated fails where the indices wrap: after 2^32 - 1 lines typed
    and read the three indices stand at 2^32 - 1, with the plain ordering
    in force; one more keystroke takes [e] round to 0, below [r] and [w]. *)
Lemma plain_order_fails_at_wrap :
  exists s s',
    run_all 8 (line_cycles LINES_TO_WRAP) idle = Some s
    /\ plain_inv (input s)
    /\ run 8 (OpIntr [97]) s = Some s'
    /\ input_r (input s') = 2 ^ 32 - 1
    /\ input_w (input s') = 2 ^ 32 - 1
    /\ input_e (input s') = 0
    /\ ~ plain_inv (input s').
Proof.
  destruct (line_cycles_reach 8 LINES_TO_WRAP idle) as (s & E & H).
  { split; [reflexivity|]. split; [|repeat split].
    vm_compute. split; [discriminate|reflexivity]. }
  assert (Hx : to_uint (Z.of_nat LINES_TO_WRAP) = 2 ^ 32 - 1).
  { unfold LINES_TO_WRAP. rewrite Z2Nat.id by discriminate. reflexivity. }
  rewrite Hx in H. clear Hx.
  destruct H as (Hp & Hon & Hlen & Hr & Hw & He).
  set (sa := emit (EAcquire InputLock) s).
  destruct (consoleintr_default_accepts 97 sa) as (sb & Eb & Henv & _ & Hin).
  { exact Hp. } { exact Hon. } { discriminate. }
  { unfold pending. simpl. rewrite He, Hr, Z.sub_diag. reflexivity. }
  simpl in Hin. rewrite He, Hr, Hw in Hin.
  exists s, (emit (ERelease InputLock) sb).
  split; [exact E|]. split.
  { unfold plain_inv. rewrite Hr, Hw, He. vm_compute. repeat split; discriminate. }
  split.
  { simpl. unfold consoleintr, bind, lift. fold sa. simpl.
    change (consoleintr_char 97) with (consoleintr_default 97).
    unfold bind. rewrite Eb. reflexivity. }
  simpl. rewrite Hin. simpl.
  repeat split; try reflexivity.
  unfold plain_inv. simpl. vm_compute. intros ((_ & H) & _). apply H. reflexivity.
Qed.

Lemma to_char_id c : is_char c -> to_char c = c.
Proof.
  unfold is_char, to_char. intros H.
  destruct (Z.ltb_spec (c mod 256) 128); Z.div_mod_to_equations; lia.
Qed.

Lemma map_to_char_id l : Forall is_char l -> map to_char l = l.
Proof.
  induction 1 as [|c l Hc _ IH]; simpl; [reflexivity|].
  now rewrite to_char_id, IH.
Qed.

Lemma buf_get_to_uint x s : buf_get (to_uint x) s = buf_get x s.
Proof.
  unfold buf_get. f_equal. f_equal. f_equal. uint_arith.
Qed.

Lemma buf_get_set_r x v s : buf_get x (set_r v s) = buf_get x s.
Proof. reflexivity. Qed.

Lemma set_r_same s : set_r (input_r (input s)) s = s.
Proof. destruct s as [? ? [] ? ? ? ? ? ?]. reflexivity. Qed.

Lemma read_chars (body : list Z) :
  forall fuel target n dst s,
    Forall plain_char body ->
    holds_at s (input_r (input s)) body ->
    (length body <= fuel)%nat ->
    Z.of_nat (length body) <= n ->
    Z.of_nat (length body) <= available (input s) ->
    ring_inv (input s) ->
    consoleread_loop fuel target n dst s
    = consoleread_loop (fuel - length body) target (n - Z.of_nat (length body))
        (dst ++ map to_char body)
        (set_r (to_uint (input_r (input s) + Z.of_nat (length body))) s).
Proof.
  induction body as [|c body IH]; intros fuel target n dst s Hpl Hat Hf Hn Hav Hinv.
  { simpl. rewrite Nat.sub_0_r, Z.sub_0_r, Z.add_0_r, app_nil_r.
    replace (to_uint (input_r (input s))) with (input_r (input s)).
    - now rewrite set_r_same.
    - destruct Hinv as ((_ & Hr & _) & _). uint_arith. }
  apply Forall_cons in Hpl as ((Hnl & Heof) & Hpl).
  rewrite length_cons in *.
  destruct fuel as [|fuel]; [lia|].
  simpl consoleread_loop at 1.
  replace (n >? 0) with true by lia.
  assert (Hne : input_r (input s) <> input_w (input s)).
  { intros Heq. unfold available in Hav. rewrite Heq, Z.sub_diag in Hav.
    change (to_uint 0) with 0 in Hav. lia. }
  destruct (Z.eqb_spec (input_r (input s)) (input_w (input s))) as [|_];
    [contradiction|].
  assert (Hc : buf_get (input_r (input s)) s = c).
  { specialize (Hat 0%nat c eq_refl). now rewrite Z.add_0_r in Hat. }
  rewrite Hc.
  destruct (Z.eqb_spec c CTRL_D) as [|_]; [contradiction|].
  destruct (Z.eqb_spec c NEWLINE) as [|_]; [contradiction|].
  destruct (consume_keeps_inv (input s) Hinv Hne) as (Hinv1 & Ha1 & Hp1).
  set (s1 := set_r (to_uint (input_r (input s) + 1)) s) in *.
  change (mkInput _ _ _ _) with (input s1) in Hinv1, Ha1, Hp1.
  rewrite (IH fuel target (n - 1) (dst ++ [to_char c]) s1); try lia; try assumption.
  - replace (n - 1 - Z.of_nat (length body))
      with (n - Z.of_nat (S (length body))) by lia.
    replace ((dst ++ [to_char c]) ++ map to_char body)
      with (dst ++ map to_char (c :: body))
      by (rewrite <- app_assoc; reflexivity).
    replace (to_uint (input_r (input s1) + Z.of_nat (length body)))
      with (to_uint (input_r (input s) + Z.of_nat (S (length body)))).
    + reflexivity.
    + subst s1. simpl input_r. rewrite Nat2Z.inj_succ. uint_arith.
  - intros i c' Hi. subst s1. simpl input_r. rewrite buf_get_set_r.
    rewrite <- (Hat (S i) c' Hi), <- buf_get_to_uint.
    rewrite <- (buf_get_to_uint (input_r (input s) + Z.of_nat (S i))).
    f_equal. rewrite Nat2Z.inj_succ. uint_arith.
Qed.

Lemma holds_at_prefix s x l1 l2 : holds_at s x (l1 ++ l2) -> holds_at s x l1.
Proof.
  intros H i c Hi. apply H. rewrite lookup_app_l; [exact Hi|].
  now apply lookup_lt_Some in Hi.
Qed.

Lemma holds_at_suffix s x l1 l2 :
  holds_at s x (l1 ++ l2) -> holds_at s (x + Z.of_nat (length l1)) l2.
Proof.
  intros H i c Hi. rewrite <- Z.add_assoc, <- Nat2Z.inj_add. apply H.
  rewrite lookup_app_r by lia. rewrite <- Hi. f_equal. lia.
Qed.

(** A request that ends before the line does. *)
Lemma read_line_prefix (body : list Z) target dst s :
  Forall plain_char body ->
  holds_at s (input_r (input s)) body ->
  Z.of_nat (length body) <= available (input s) ->
  ring_inv (input s) ->
  consoleread_loop (length body) target (Z.of_nat (length body)) dst s
  = consoleread_exit target 0 (dst ++ map to_char body)
      (set_r (to_uint (input_r (input s) + Z.of_nat (length body))) s).
Proof.
  intros Hpl Hat Hav Hinv.
  rewrite (read_chars body); try assumption; try lia.
  rewrite Nat.sub_diag, Z.sub_diag. reflexivity.
Qed.

(** A request that reaches the end of the line. *)
Lemma read_line_rest (body : list Z) fuel target n dst s :
  Forall plain_char body ->
  holds_at s (input_r (input s)) (body ++ [NEWLINE]) ->
  (length body < fuel)%nat ->
  Z.of_nat (length body) < n ->
  Z.of_nat (length body) + 1 <= available (input s) ->
  ring_inv (input s) ->
  consoleread_loop fuel target n dst s
  = consoleread_exit target (n - Z.of_nat (length body) - 1)
      (dst ++ map to_char body ++ [NEWLINE])
      (set_r (to_uint (input_r (input s) + Z.of_nat (length body) + 1)) s).
Proof.
  intros Hpl Hat Hf Hn Hav Hinv.
  rewrite (read_chars body); try assumption; try lia;
    [|now apply holds_at_prefix in Hat].
  destruct (fuel - length body)%nat as [|f] eqn:Hfuel; [lia|].
  set (s1 := set_r (to_uint (input_r (input s) + Z.of_nat (length body))) s).
  simpl consoleread_loop.
  replace (n - Z.of_nat (length body) >? 0) with true by lia.
  assert (Hr1 : input_r (input s1) = to_uint (input_r (input s) + Z.of_nat (length body)))
    by reflexivity.
  assert (Hw1 : input_w (input s1) = input_w (input s)) by reflexivity.
  clear Hr1 Hw1.
  destruct Hinv as ((Hl & Hr & Hw & He) & Hb).
  destruct (Z.eqb_spec (to_uint (input_r (input s) + Z.of_nat (length body)))
                       (input_w (input s))) as [Heq|_].
  { exfalso. unfold available in *. uint_arith. }
  assert (Hc : buf_get (to_uint (input_r (input s) + Z.of_nat (length body))) s1 = NEWLINE).
  { subst s1. rewrite buf_get_set_r, buf_get_to_uint.
    apply holds_at_suffix in Hat. specialize (Hat 0%nat NEWLINE eq_refl).
    now rewrite Z.add_0_r in Hat. }
  rewrite Hc.
  change (NEWLINE =? CTRL_D) with false. change (NEWLINE =? NEWLINE) with true.
  cbv iota. rewrite <- app_assoc.
  change (to_char NEWLINE) with NEWLINE.
  replace (to_uint (to_uint (input_r (input s) + Z.of_nat (length body)) + 1))
    with (to_uint (input_r (input s) + Z.of_nat (length body) + 1)) by uint_arith.
  reflexivity.
Qed.

(** C5: a committed line [body ++ "\n"] of [L] characters sits at [r];
    a read of [n] characters, [0 < n < L], returns [n] and hands over the
    first [n] characters of the line; the next read, asking for at least
    the [L - n] that are left, returns [L - n] and hands over exactly the
    rest, newline included, and [r] has then moved past the line. *)
Theorem partial_read_then_rest (s : State) (body : list Z) (n m : Z) :
  ring_inv (input s) ->
  Forall plain_char body ->
  Forall is_char body ->
  holds_at s (input_r (input s)) (body ++ [NEWLINE]) ->
  Z.of_nat (length (body ++ [NEWLINE])) <= available (input s) ->
  0 < n < Z.of_nat (length (body ++ [NEWLINE])) ->
  Z.of_nat (length (body ++ [NEWLINE])) - n <= m ->
  exists s1 s2,
    consoleread n s = RDone n (take (Z.to_nat n) (body ++ [NEWLINE])) s1
    /\ consoleread m s1
       = RDone (Z.of_nat (length (body ++ [NEWLINE])) - n)
               (drop (Z.to_nat n) (body ++ [NEWLINE])) s2
    /\ input_r (input s2)
       = to_uint (input_r (input s) + Z.of_nat (length (body ++ [NEWLINE]))).
Proof.
  rewrite length_app. simpl length. rewrite Nat2Z.inj_add.
  change (Z.of_nat 1) with 1.
  intros Hinv Hpl Hch Hat Hav Hn Hm.
  set (k := Z.to_nat n).
  assert (Hk : (k <= length body)%nat) by lia.
  assert (Hkn : Z.of_nat k = n) by lia.
  assert (Hlen1 : length (take k body) = k) by (rewrite length_take; lia).
  assert (Hsplit : body ++ [NEWLINE] = take k body ++ (drop k body ++ [NEWLINE])).
  { now rewrite app_assoc, take_drop. }
  pose proof Hinv as ((Hl & Hr & Hw & He) & Hb).
  (* first read *)
  set (s0 := emit (EAcquire InputLock) (emit EIunlock s)).
  assert (E1 : consoleread n s
               = RDone n (take k body)
                   (emit EIlock (emit (ERelease InputLock)
                      (set_r (to_uint (input_r (input s) + n)) s0)))).
  { unfold consoleread. fold s0. fold k.
    rewrite <- Hkn at 2. rewrite <- Hlen1 at 1 2.
    rewrite (read_line_prefix (take k body) (to_uint n) [] s0).
    - unfold consoleread_exit. simpl app.
      rewrite map_to_char_id by now apply Forall_take.
      rewrite Hlen1, Hkn. f_equal.
      unfold to_int, to_uint. change (0 mod 2 ^ 32) with 0. rewrite Z.sub_0_r.
      rewrite Z.mod_mod by discriminate.
      rewrite Z.mod_small by (unfold INPUT_BUF, available in *; uint_arith).
      destruct (Z.ltb_spec n (2 ^ 31)); [reflexivity|].
      unfold INPUT_BUF, available in *. uint_arith.
    - now apply Forall_take.
    - rewrite Hsplit in Hat. now apply holds_at_prefix in Hat.
    - rewrite Hlen1. change (input s0) with (input s). lia.
    - exact Hinv. }
  set (s1 := emit EIlock (emit (ERelease InputLock)
                (set_r (to_uint (input_r (input s) + n)) s0))) in *.
  assert (Hinv1 : ring_inv (input s1)).
  { pose proof (run_indices 8 (OpRead n) s s1 Hinv) as H. simpl in H.
    rewrite E1 in H. now apply H. }
  assert (Hav1 : available (input s1) = available (input s) - n).
  { unfold available. simpl. unfold INPUT_BUF, available in *. uint_arith. }
  (* second read *)
  set (s10 := emit (EAcquire InputLock) (emit EIunlock s1)).
  exists s1. eexists. split.
  { rewrite E1. f_equal. rewrite take_app_le by lia. reflexivity. }
  split.
  { unfold consoleread. fold s10.
    rewrite (read_line_rest (drop k body) (Z.to_nat m) (to_uint m) m [] s10).
    - unfold consoleread_exit. rewrite length_drop. simpl app.
      rewrite map_to_char_id by now apply Forall_drop.
      rewrite drop_app_le by lia. f_equal.
      replace (Z.of_nat (length body) + 1 - n)
        with (Z.of_nat (length body - k) + 1) by lia.
      unfold to_int.
      replace ((to_uint m - to_uint (m - Z.of_nat (length body - k) - 1)) mod 2 ^ 32)
        with (Z.of_nat (length body - k) + 1)
        by (unfold INPUT_BUF, available in *; uint_arith).
      destruct (Z.ltb_spec (Z.of_nat (length body - k) + 1) (2 ^ 31)); [reflexivity|].
      unfold INPUT_BUF, available in *. uint_arith.
    - now apply Forall_drop.
    - intros i c Hi. change (input_r (input s10)) with (to_uint (input_r (input s) + n)).
      change (buf_get (to_uint (input_r (input s) + n) + Z.of_nat i) s10)
        with (buf_get (to_uint (input_r (input s) + n) + Z.of_nat i) s).
      rewrite <- buf_get_to_uint.
      replace (to_uint (to_uint (input_r (input s) + n) + Z.of_nat i))
        with (to_uint (input_r (input s) + Z.of_nat (length (take k body)) + Z.of_nat i))
        by (rewrite Hlen1; uint_arith).
      rewrite buf_get_to_uint.
      rewrite Hsplit in Hat. apply holds_at_suffix in Hat. now apply Hat.
    - rewrite length_drop. lia.
    - rewrite length_drop. lia.
    - rewrite length_drop. change (input s10) with (input s1). lia.
    - exact Hinv1. }
  simpl. clear E1 Hinv1 Hav1. uint_arith.
Qed.

Lemma partial_read_then_rest_witness :
  exists s1 s2,
    consoleread 2 hello_typed
    = RDone 2 (take (Z.to_nat 2) (hello ++ [NEWLINE])) s1
    /\ consoleread 10 s1
       = RDone (Z.of_nat (length (hello ++ [NEWLINE])) - 2)
               (drop (Z.to_nat 2) (hello ++ [NEWLINE])) s2
    /\ input_r (input s2)
       = to_uint (input_r (input hello_typed)
                  + Z.of_nat (length (hello ++ [NEWLINE]))).
Proof.
  apply (partial_read_then_rest hello_typed hello 2 10).
  - vm_compute. repeat split; discriminate.
  - repeat (constructor; [split; discriminate|]). constructor.
  - repeat (constructor; [unfold is_char; simpl; lia|]). constructor.
  - intros i c Hi.
    do 6 (destruct i as [|i]; [injection Hi as <-; vm_compute; reflexivity|]).
    discriminate.
  - vm_compute. discriminate.
  - vm_compute. split; reflexivity.
  - vm_compute. discriminate.
Defined.

(** ** One character on the screen *)

(** A character that is neither newline nor [BACKSPACE], with room left on
    the 24 rows: it is stored under the cursor and the cursor moves on. *)
Lemma consputc_no_scroll c color s :
  panicked s = 0 -> c <> NEWLINE -> c <> BACKSPACE ->
  0 <= cursor_pos s -> cursor_pos s + 1 < 24 * COLUMNS ->
  exists s',
    consputc c color s = Ret tt s'
    /\ panicked s' = 0
    /\ trace s' = trace s ++ [EUart c]
    /\ cursor_pos s' = cursor_pos s + 1
    /\ crt s' = <[Z.to_nat (cursor_pos s + 1) := CARET]>
                  (<[Z.to_nat (cursor_pos s) := cell c color]> (crt s)).
Proof.
  intros Hp Hnl Hbs Hlo Hhi. unfold consputc. rewrite Hp.
  change (0 =? 0) with true. cbv iota.
  destruct (Z.eqb_spec c BACKSPACE) as [|_]; [contradiction|].
  rewrite cgaputc_eq.
  change (cursor_pos (uartputc c s)) with (cursor_pos s).
  unfold cga_advance.
  destruct (Z.eqb_spec c NEWLINE) as [|_]; [contradiction|].
  destruct (Z.eqb_spec c BACKSPACE) as [|_]; [contradiction|].
  unfold cga_scroll.
  assert (Hq : (Z.quot (cursor_pos s + 1) COLUMNS >=? 24) = false).
  { rewrite Z.quot_div_nonneg by (unfold COLUMNS; lia).
    unfold COLUMNS in *. rewrite Z.geb_leb. apply Z.leb_gt.
    apply Z.div_lt_upper_bound; lia. }
  rewrite Hq. cbv iota.
  eexists. split; [reflexivity|].
  match goal with
  | |- context [cga_finish ?p ?x] =>
      destruct (cga_finish_spec p x) as (Hcrt & Htr & Hpan & Hcur)
  end.
  rewrite Hcrt, Htr, Hpan, Hcur by (unfold COLUMNS in *; lia).
  repeat split; assumption.
Qed.

(** The same character with the cursor on the last cell of row 23: the
    page scrolls. *)
Lemma consputc_scroll c color s :
  panicked s = 0 -> c <> NEWLINE -> c <> BACKSPACE ->
  cursor_pos s = 24 * COLUMNS - 1 ->
  exists s',
    consputc c color s = Ret tt s'
    /\ panicked s' = 0
    /\ trace s' = trace s ++ [EUart c; EMemmove]
    /\ cursor_pos s' = 23 * COLUMNS
    /\ crt s' = <[Z.to_nat (23 * COLUMNS) := CARET]>
                  (memset_cells (Z.to_nat (23 * COLUMNS)) (Z.to_nat COLUMNS)
                     (memmove_cells 0 (Z.to_nat COLUMNS) (Z.to_nat (23 * COLUMNS))
                        (<[Z.to_nat (24 * COLUMNS - 1) := cell c color]> (crt s)))).
Proof.
  intros Hp Hnl Hbs Hpos. unfold consputc. rewrite Hp.
  change (0 =? 0) with true. cbv iota.
  destruct (Z.eqb_spec c BACKSPACE) as [|_]; [contradiction|].
  rewrite cgaputc_eq.
  change (cursor_pos (uartputc c s)) with (cursor_pos s).
  unfold cga_advance.
  destruct (Z.eqb_spec c NEWLINE) as [|_]; [contradiction|].
  destruct (Z.eqb_spec c BACKSPACE) as [|_]; [contradiction|].
  unfold cga_scroll. rewrite Hpos.
  change (Z.quot (24 * COLUMNS - 1 + 1) COLUMNS >=? 24) with true. cbv iota zeta.
  change (24 * COLUMNS - 1 + 1 - COLUMNS) with (23 * COLUMNS).
  change (24 * COLUMNS - 23 * COLUMNS) with COLUMNS.
  change (COLUMNS <? 0) with false. cbv iota.
  eexists. split; [reflexivity|].
  match goal with
  | |- context [cga_finish ?p ?x] =>
      destruct (cga_finish_spec p x) as (Hcrt & Htr & Hpan & Hcur)
  end.
  rewrite Hcrt, Htr, Hpan, Hcur by (unfold COLUMNS; lia).
  split; [exact Hp|]. split; [|split; reflexivity].
  transitivity ((trace s ++ [EUart c]) ++ [EMemmove]); [reflexivity|].
  rewrite <- app_assoc. reflexivity.
Qed.

Lemma land_byte_not_backspace b : Z.land b 0xff <> BACKSPACE.
Proof.
  change 0xff with (Z.ones 8). rewrite Z.land_ones by lia.
  unfold BACKSPACE. change (2 ^ 8) with 256. Z.div_mod_to_equations. lia.
Qed.

Lemma page_step (cells : list Z) (v y : Z) (crt0 : list Z) :
  (S (length cells) < length crt0)%nat ->
  <[S (length cells) := CARET]>
    (<[length cells := v]> (cells ++ y :: drop (S (length cells)) crt0))
  = (cells ++ [v]) ++ CARET :: drop (S (S (length cells))) crt0.
Proof.
  intros Hlen.
  rewrite insert_app_r_alt by lia. rewrite Nat.sub_diag. simpl.
  rewrite insert_app_r_alt by lia.
  replace (S (length cells) - length cells)%nat with 1%nat by lia. simpl.
  destruct (lookup_lt_is_Some_2 crt0 (S (length cells)) Hlen) as [x Hx].
  rewrite (drop_S crt0 x (S (length cells)) Hx). simpl.
  rewrite <- app_assoc. reflexivity.
Qed.

Lemma consolewrite_loop_app buf n m :
  forall i s,
    consolewrite_loop buf i (n + m) s
    = bind (consolewrite_loop buf i n)
           (fun _ => consolewrite_loop buf (i + n) m) s.
Proof.
  induction n as [|n IH]; intros i s.
  { simpl. unfold bind, ret. now rewrite Nat.add_0_r. }
  simpl. destruct (buf !! i) as [b|]; [|reflexivity].
  unfold bind.
  destruct (consputc (Z.land b 255) DEFAULT_CONSOLE_COLOR s) as [[] s1|s1|];
    try reflexivity.
  rewrite IH. unfold bind.
  now replace (i + S n)%nat with (S i + n)%nat by lia.
Qed.

(** Writing on the 24 rows without reaching their end. *)
Lemma write_no_scroll (buf crt0 : list Z) (n : nat) :
  forall i s y,
    panicked s = 0 ->
    length crt0 = CRT_CELLS ->
    cursor_pos s = Z.of_nat i ->
    crt s = cells_of (take i buf) ++ y :: drop (S i) crt0 ->
    (i + n <= length buf)%nat ->
    (i + n < 1920)%nat ->
    Forall printable buf ->
    exists s',
      consolewrite_loop buf i n s = Ret tt s'
      /\ panicked s' = 0
      /\ trace s' = trace s ++ uarts_of (take n (drop i buf))
      /\ cursor_pos s' = Z.of_nat (i + n)
      /\ crt s' = cells_of (take (i + n) buf)
                  ++ (match n with O => y | S _ => CARET end)
                  :: drop (S (i + n)) crt0.
Proof.
  induction n as [|n IH]; intros i s y Hp Hlen Hcur Hcrt Hbuf Hroom Hpr.
  { exists s. simpl. rewrite Nat.add_0_r, app_nil_r.
    split; [reflexivity|]. split; [exact Hp|]. split; [reflexivity|].
    split; [exact Hcur|]. exact Hcrt. }
  simpl.
  destruct (lookup_lt_is_Some_2 buf i) as [b Hb]; [lia|]. rewrite Hb.
  assert (Hbp : printable b).
  { rewrite Forall_forall in Hpr. apply Hpr. eapply list_elem_of_lookup_2, Hb. }
  destruct (consputc_no_scroll (Z.land b 255) DEFAULT_CONSOLE_COLOR s)
    as (s1 & E1 & Hp1 & Ht1 & Hc1 & Hcrt1);
    [exact Hp|exact Hbp|apply land_byte_not_backspace|lia|unfold COLUMNS; lia|].
  unfold bind. rewrite E1.
  assert (Hli : length (cells_of (take i buf)) = i).
  { unfold cells_of. rewrite length_fmap, length_take. lia. }
  destruct (IH (S i) s1 CARET) as (s' & E' & Hp' & Ht' & Hc' & Hcrt'); try assumption; try lia.
  { rewrite Hcrt1, Hcur, Hcrt.
    replace (Z.to_nat (Z.of_nat i + 1)) with (S i) by lia.
    replace (Z.to_nat (Z.of_nat i)) with i by lia.
    pose proof (page_step (cells_of (take i buf))
                  (cell (Z.land b 255) DEFAULT_CONSOLE_COLOR) y crt0) as Hps.
    rewrite Hli in Hps.
    rewrite Hps by (rewrite Hlen; unfold CRT_CELLS; lia).
    rewrite (take_S_r buf i b Hb).
    unfold cells_of. rewrite fmap_app. reflexivity. }
  exists s'. split; [exact E'|]. split; [exact Hp'|].
  replace (i + S n)%nat with (S i + n)%nat by lia.
  split; [|split; [assumption|]].
  - rewrite Ht', Ht1. rewrite (drop_S buf b i Hb). simpl.
    rewrite <- app_assoc. reflexivity.
  - rewrite Hcrt'. now destruct n.
Qed.

(** The scroll on a page whose first [keep + w] cells are [full]: the
    [memmove] by one row of [w] cells, the [memset] of the last row and the
    caret at its start. *)
Lemma page_scroll (full rest : list Z) (w keep : nat) :
  length full = (keep + w)%nat -> (0 < w <= keep)%nat ->
  <[keep := CARET]> (memset_cells keep w (memmove_cells 0 w keep (full ++ rest)))
  = drop w full ++ CARET :: replicate (w - 1) 0 ++ rest.
Proof.
  intros Hlen Hw. unfold memset_cells, memmove_cells.
  rewrite drop_app_le by lia.
  rewrite take_app_length' by (rewrite length_drop; lia).
  rewrite <- (take_drop keep full) at 2. rewrite <- app_assoc.
  rewrite list_inserts_0_r by (rewrite length_drop, length_take; lia).
  pose proof (list_inserts_app_r (replicate w 0) (drop w full)
                (drop keep full ++ rest) 0) as Hmid.
  replace (length (drop w full) + 0)%nat with keep in Hmid
    by (rewrite length_drop; lia).
  rewrite Hmid. clear Hmid.
  rewrite list_inserts_0_r by (rewrite length_replicate, length_drop; lia).
  rewrite insert_app_r_alt by (rewrite length_drop; lia).
  replace (keep - length (drop w full))%nat with 0%nat by (rewrite length_drop; lia).
  destruct w as [|w]; [lia|]. simpl. now rewrite Nat.sub_0_r.
Qed.

(** C2 as stated fails: 80*25+1 characters on an empty page scroll it
    twice, and what the last scroll leaves on the bottom row (row 23, the
    last the driver writes) is the character typed after it, the caret and
    blanks, not the row above. *)
Lemma two_scrolls_in_2001 :
  match consolewrite (replicate 2001 97) 2001 idle with
  | Ret _ s =>
      scrolls (trace s) = 2%nat
      /\ row 23 (crt s) = cell 97 7 :: CARET :: replicate 78 0
      /\ row 22 (crt s) = replicate 80 (cell 97 7)
  | _ => False
  end.
Proof. vm_compute. repeat split. Qed.

(** C2, amended: on a page with the cursor at 0, [consolewrite] of
    24*80 = 1920 bytes, none of them a newline, scrolls exactly once, on the
    last byte: the trace has one [memmove], after the last character went
    to the serial port, and writing one byte fewer has none. After it the
    cursor is at the start of row 23, rows 0..22 hold the cells of bytes
    80..1919 (so row 22, second from bottom, is what the bottom row 23 held
    when the scroll began), row 23 is the caret and 79 zero cells, and the
    cells from 1920 on (row 24) are untouched. *)
Theorem one_scroll_after_24_rows (buf : list Z) (s : State) :
  panicked s = 0 ->
  cursor_pos s = 0 ->
  length (crt s) = CRT_CELLS ->
  length buf = 1920%nat ->
  Forall printable buf ->
  exists s1 s2,
    consolewrite buf 1919 s = Ret 1919 s1
    /\ trace s1 = trace s ++ [EIunlock; EAcquire ConsLock]
                  ++ uarts_of (take 1919 buf) ++ [ERelease ConsLock; EIlock]
    /\ crt s1 = cells_of (take 1919 buf) ++ CARET :: drop 1920 (crt s)
    /\ consolewrite buf 1920 s = Ret 1920 s2
    /\ trace s2 = trace s ++ [EIunlock; EAcquire ConsLock]
                  ++ uarts_of buf ++ [EMemmove; ERelease ConsLock; EIlock]
    /\ cursor_pos s2 = 1840
    /\ crt s2 = drop 80 (cells_of buf) ++ CARET :: replicate 79 0
                ++ drop 1920 (crt s)
    /\ row 22 (crt s2) = cells_of (drop 1840 buf)
    /\ row 23 (crt s2) = CARET :: replicate 79 0.
Proof.
  intros Hp Hcur Hlen Hbuf Hpr.
  set (s0 := emit (EAcquire ConsLock) (emit EIunlock s)).
  destruct (lookup_lt_is_Some_2 (crt s) 0) as [x0 Hx0];
    [rewrite Hlen; unfold CRT_CELLS; lia|].
  destruct (lookup_lt_is_Some_2 buf 1919) as [b Hb]; [lia|].
  assert (Hsnoc : buf = take 1919 buf ++ [b]).
  { rewrite <- (take_S_r buf 1919 b Hb). symmetry. apply take_ge. lia. }
  (* the first 1919 bytes *)
  destruct (write_no_scroll buf (crt s) 1919 0 s0 x0)
    as (sa & Ea & Hpa & Hta & Hca & Hcrta); try assumption; try lia.
  { change (crt s0) with (crt s). change (cells_of (take 0 buf)) with (@nil Z).
    rewrite <- (drop_S (crt s) x0 0 Hx0). reflexivity. }
  change (0 + 1919)%nat with 1919%nat in Hca, Hcrta.
  rewrite drop_0 in Hta.
  change (S 1919) with 1920%nat in Hcrta.
  (* the last byte *)
  destruct (consputc_scroll (Z.land b 255) DEFAULT_CONSOLE_COLOR sa)
    as (sb & Eb & Hpb & Htb & Hcb & Hcrtb);
    [exact Hpa| |apply land_byte_not_backspace|rewrite Hca; reflexivity|].
  { rewrite Forall_forall in Hpr. apply Hpr. eapply list_elem_of_lookup_2, Hb. }
  assert (Hcells : length (cells_of buf) = (1840 + 80)%nat).
  { unfold cells_of. rewrite length_fmap, Hbuf. reflexivity. }
  assert (Hpage : crt sb = drop 80 (cells_of buf) ++ CARET :: replicate 79 0
                           ++ drop 1920 (crt s)).
  { rewrite Hcrtb, Hcrta.
    change (Z.to_nat (24 * COLUMNS - 1)) with 1919%nat.
    change (Z.to_nat (23 * COLUMNS)) with 1840%nat.
    change (Z.to_nat COLUMNS) with 80%nat.
    rewrite insert_app_r_alt
      by (unfold cells_of; rewrite length_fmap, length_take; lia).
    replace (1919 - length (cells_of (take 1919 buf)))%nat with 0%nat
      by (unfold cells_of; rewrite length_fmap, length_take; lia).
    change (<[0%nat := cell (Z.land b 255) DEFAULT_CONSOLE_COLOR]>
              (CARET :: drop 1920 (crt s)))
      with ([cell (Z.land b 255) DEFAULT_CONSOLE_COLOR] ++ drop 1920 (crt s)).
    rewrite app_assoc.
    replace (cells_of (take 1919 buf) ++ [cell (Z.land b 255) DEFAULT_CONSOLE_COLOR])
      with (cells_of buf)
      by (rewrite Hsnoc at 1; unfold cells_of; rewrite fmap_app; reflexivity).
    rewrite (page_scroll (cells_of buf) (drop 1920 (crt s)) 80 1840 Hcells) by lia.
    reflexivity. }
  exists (emit EIlock (emit (ERelease ConsLock) sa)),
         (emit EIlock (emit (ERelease ConsLock) sb)).
  split.
  { unfold consolewrite, bind, lift. fold s0.
    change (Z.to_nat 1919) with 1919%nat. rewrite Ea. reflexivity. }
  split.
  { change (trace (emit EIlock (emit (ERelease ConsLock) sa)))
      with ((trace sa ++ [ERelease ConsLock]) ++ [EIlock]).
    rewrite Hta.
    change (trace s0) with ((trace s ++ [EIunlock]) ++ [EAcquire ConsLock]).
    rewrite <- !app_assoc. reflexivity. }
  split; [exact Hcrta|].
  split.
  { unfold consolewrite, bind, lift. fold s0.
    change (Z.to_nat 1920) with (1919 + 1)%nat.
    rewrite consolewrite_loop_app. unfold bind. rewrite Ea.
    change (0 + 1919)%nat with 1919%nat.
    simpl consolewrite_loop. rewrite Hb. unfold bind. rewrite Eb. reflexivity. }
  split.
  { change (trace (emit EIlock (emit (ERelease ConsLock) sb)))
      with ((trace sb ++ [ERelease ConsLock]) ++ [EIlock]).
    rewrite Htb, Hta.
    change (trace s0) with ((trace s ++ [EIunlock]) ++ [EAcquire ConsLock]).
    rewrite Hsnoc at 2. unfold uarts_of. rewrite fmap_app.
    rewrite <- !app_assoc. reflexivity. }
  split; [exact Hcb|].
  change (crt (emit EIlock (emit (ERelease ConsLock) sb))) with (crt sb).
  split; [exact Hpage|].
  assert (Hd80 : length (drop 80 (cells_of buf)) = 1840%nat)
    by (rewrite length_drop; lia).
  split.
  - unfold row. change (80 * 22)%nat with 1760%nat. rewrite Hpage.
    rewrite drop_app_le by lia. rewrite drop_drop.
    change (80 + 1760)%nat with 1840%nat.
    rewrite take_app_length' by (rewrite length_drop; lia).
    unfold cells_of. now rewrite fmap_drop.
  - unfold row. change (80 * 23)%nat with 1840%nat. rewrite Hpage.
    rewrite drop_app_length' by (symmetry; exact Hd80).
    change (CARET :: replicate 79 0 ++ drop 1920 (crt s))
      with ((CARET :: replicate 79 0) ++ drop 1920 (crt s)).
    now rewrite take_app_length' by reflexivity.
Qed.

Lemma one_scroll_after_24_rows_witness :
  exists s1 s2,
    consolewrite (replicate 1920 97) 1919 idle = Ret 1919 s1
    /\ trace s1 = trace idle ++ [EIunlock; EAcquire ConsLock]
                  ++ uarts_of (take 1919 (replicate 1920 97))
                  ++ [ERelease ConsLock; EIlock]
    /\ crt s1 = cells_of (take 1919 (replicate 1920 97))
                ++ CARET :: drop 1920 (crt idle)
    /\ consolewrite (replicate 1920 97) 1920 idle = Ret 1920 s2
    /\ trace s2 = trace idle ++ [EIunlock; EAcquire ConsLock]
                  ++ uarts_of (replicate 1920 97)
                  ++ [EMemmove; ERelease ConsLock; EIlock]
    /\ cursor_pos s2 = 1840
    /\ crt s2 = drop 80 (cells_of (replicate 1920 97)) ++ CARET :: replicate 79 0
                ++ drop 1920 (crt idle)
    /\ row 22 (crt s2) = cells_of (drop 1840 (replicate 1920 97))
    /\ row 23 (crt s2) = CARET :: replicate 79 0.
Proof.
  apply (one_scroll_after_24_rows (replicate 1920 97) idle).
  - reflexivity.
  - reflexivity.
  - vm_compute. reflexivity.
  - vm_compute. reflexivity.
  - apply Forall_replicate. vm_compute. discriminate.
Defined.

Lemma consputc_uart c color s :
  panicked s = 0 -> on_screen s -> c <> BACKSPACE ->
  exists s',
    consputc c color s = Ret tt s'
    /\ panicked s' = 0
    /\ on_screen s'
    /\ uart_out (trace s') = uart_out (trace s) ++ [c].
Proof.
  intros Hp Hon Hc.
  destruct (consputc_ok c color s Hp Hon) as (s' & E & (Hp' & _) & Hon' & Hu).
  exists s'. split; [exact E|]. split; [now rewrite Hp'|]. split; [exact Hon'|].
  rewrite Hu. destruct (Z.eqb_spec c BACKSPACE); [contradiction|reflexivity].
Qed.

Lemma puts_uart p color :
  forall s,
    panicked s = 0 -> on_screen s -> Forall text_char p ->
    exists s',
      puts p color s = Ret tt s'
      /\ panicked s' = 0
      /\ on_screen s'
      /\ uart_out (trace s') = uart_out (trace s) ++ p.
Proof.
  induction p as [|ch p IH]; intros s Hp Hon Hall; simpl.
  { exists s. rewrite app_nil_r. split; [reflexivity|]. split; [exact Hp|].
    split; [exact Hon|reflexivity]. }
  apply Forall_cons in Hall as ((Hnz & Hbs) & Hall).
  destruct (Z.eqb_spec ch 0) as [|_]; [contradiction|].
  destruct (consputc_uart ch color s Hp Hon Hbs) as (s1 & E1 & Hp1 & Hon1 & Hu1).
  unfold bind. rewrite E1.
  destruct (IH s1 Hp1 Hon1 Hall) as (s' & E' & Hp' & Hon' & Hu').
  exists s'. split; [exact E'|]. split; [exact Hp'|]. split; [exact Hon'|].
  rewrite Hu', Hu1, <- app_assoc. reflexivity.
Qed.

Lemma cprintf_loop_show_null sz fmt :
  forall ap color,
    cprintf_loop sz fmt ap color = cprintf_loop sz fmt (show_null <$> ap) color.
Proof.
  induction fmt as [fmt IH] using (induction_ltof1 _ (@length Z)).
  unfold ltof in IH. intros ap color.
  destruct fmt as [|ch fmt1]; [reflexivity|].
  simpl. destruct (Z.land ch 255 =? 0); [reflexivity|].
  destruct (negb (Z.land ch 255 =? PERCENT)).
  { rewrite (IH fmt1) by (simpl; lia). reflexivity. }
  destruct fmt1 as [|ch2 fmt2]; [reflexivity|].
  assert (Hrec : forall ap', cprintf_loop sz fmt2 ap' color
                             = cprintf_loop sz fmt2 (show_null <$> ap') color).
  { intros ap'. apply IH. simpl. lia. }
  destruct (Z.land ch2 255 =? 0); [reflexivity|].
  destruct (Z.land ch2 255 =? 100).
  { destruct ap as [|[x|x|[p|]] ap']; simpl; try reflexivity. now rewrite Hrec. }
  destruct (Z.land ch2 255 =? 120).
  { destruct ap as [|[x|x|[p|]] ap']; simpl; try reflexivity. now rewrite Hrec. }
  destruct (Z.land ch2 255 =? 112).
  { destruct ap as [|[x|x|[p|]] ap']; simpl; try reflexivity. now rewrite Hrec. }
  destruct (Z.land ch2 255 =? 115).
  { destruct ap as [|[x|x|[p|]] ap']; simpl; try reflexivity; now rewrite Hrec. }
  destruct (Z.land ch2 255 =? PERCENT); now rewrite Hrec.
Qed.

(** C9: a null pointer handed to [%s] is printed as the string "(null)".
    For every format and argument list, [cprintf] behaves as it does on the
    argument list with each null string replaced by "(null)": the directive
    puts out that text and goes on with what follows it. In particular
    [cprintf("%s", 0)] on a machine that has not panicked and has its
    cursor on the page returns, having sent "(null)" to the serial port,
    and is not undefined. *)
Theorem null_string_prints_placeholder (sz : Z) (s : State) :
  (forall fmt ap, cprintf sz fmt ap s = cprintf sz fmt (show_null <$> ap) s)
  /\ (forall post ap color,
         cprintf_loop sz (str "%s" ++ post) (AStr None :: ap) color s
         = (puts (str "(null)") color >> cprintf_loop sz post ap color) s)
  /\ (panicked s = 0 -> on_screen s ->
      exists s',
        cprintf sz (Some (str "%s")) [AStr None] s = Ret tt s'
        /\ uart_out (trace s') = uart_out (trace s) ++ str "(null)").
Proof.
  split; [|split].
  - intros [f|] ap; [|reflexivity].
    unfold cprintf, cprintf_fmt. now rewrite cprintf_loop_show_null.
  - intros post ap color. reflexivity.
  - intros Hp Hon. unfold cprintf, cprintf_fmt.
    change (cprintf_loop sz (str "%s") [AStr None] DEFAULT_CONSOLE_COLOR)
      with (puts (str "(null)") DEFAULT_CONSOLE_COLOR >> ret tt).
    assert (Htext : Forall text_char (str "(null)")).
    { repeat (constructor; [split; discriminate|]). constructor. }
    destruct (negb (cons_locking s =? 0)); unfold when, bind, lift, ret.
    + destruct (puts_uart (str "(null)") DEFAULT_CONSOLE_COLOR
                  (emit (EAcquire ConsLock) s) Hp Hon Htext)
        as (s1 & E1 & Hp1 & _ & Hu1).
      rewrite E1. eexists. split; [reflexivity|].
      change (trace (emit (ERelease ConsLock) s1))
        with (trace s1 ++ [ERelease ConsLock]).
      rewrite uart_out_app, Hu1.
      change (trace (emit (EAcquire ConsLock) s))
        with (trace s ++ [EAcquire ConsLock]).
      rewrite uart_out_app. simpl. now rewrite !app_nil_r.
    + destruct (puts_uart (str "(null)") DEFAULT_CONSOLE_COLOR s Hp Hon Htext)
        as (s1 & E1 & Hp1 & _ & Hu1).
      rewrite E1. eexists. split; [reflexivity|]. exact Hu1.
Qed.

Lemma null_string_prints_placeholder_witness :
  (forall fmt ap, cprintf 8 fmt ap idle = cprintf 8 fmt (show_null <$> ap) idle)
  /\ (forall post ap color,
         cprintf_loop 8 (str "%s" ++ post) (AStr None :: ap) color idle
         = (puts (str "(null)") color >> cprintf_loop 8 post ap color) idle)
  /\ (exists s',
        cprintf 8 (Some (str "%s")) [AStr None] idle = Ret tt s'
        /\ uart_out (trace s') = uart_out (trace idle) ++ str "(null)").
Proof.
  destruct (null_string_prints_placeholder 8 idle) as (Hsame & Hstep & Hret).
  split; [exact Hsame|]. split; [exact Hstep|].
  apply Hret; [reflexivity|]. vm_compute. split; [discriminate|reflexivity].
Defined.

(** ** The bounds on the loops are enough *)

(** Kill-line stops by itself within [to_uint (e - w)] rounds: a round
    more changes nothing. *)
Lemma kill_line_fuel_enough fuel :
  forall s,
    wf_input (input s) ->
    (Z.to_nat (to_uint (input_e (input s) - input_w (input s))) <= fuel)%nat ->
    kill_line (S fuel) s = kill_line fuel s.
Proof.
  induction fuel as [|fuel IH]; intros s (Hl & Hr & Hw & He) Hf.
  - simpl. destruct (Z.eqb_spec (input_e (input s)) (input_w (input s))) as [|Hne];
      [reflexivity|]. exfalso. uint_arith.
  - change (kill_line (S (S fuel)) s)
      with (if negb (input_e (input s) =? input_w (input s))
               && negb (buf_get (to_uint (input_e (input s) - 1)) s =? NEWLINE)
            then (lift (set_e (to_uint (input_e (input s) - 1)))
                  >> consputc BACKSPACE DEFAULT_CONSOLE_COLOR
                  >> kill_line (S fuel)) s
            else Ret tt s).
    change (kill_line (S fuel) s)
      with (if negb (input_e (input s) =? input_w (input s))
               && negb (buf_get (to_uint (input_e (input s) - 1)) s =? NEWLINE)
            then (lift (set_e (to_uint (input_e (input s) - 1)))
                  >> consputc BACKSPACE DEFAULT_CONSOLE_COLOR
                  >> kill_line fuel) s
            else Ret tt s).
    destruct (Z.eqb_spec (input_e (input s)) (input_w (input s))) as [|Hne];
      [reflexivity|].
    destruct (negb (buf_get _ s =? NEWLINE)); [|reflexivity].
    simpl andb. cbv iota. unfold bind, lift.
    set (s1 := set_e (to_uint (input_e (input s) - 1)) s).
    destruct (consputc BACKSPACE DEFAULT_CONSOLE_COLOR s1) as [[] s2|s2|] eqn:E2;
      try reflexivity.
    assert (Hi2 : input s2 = input s1).
    { apply (consputc_final BACKSPACE DEFAULT_CONSOLE_COLOR). now rewrite E2. }
    apply IH.
    + rewrite Hi2. split; [exact Hl|]. split; [exact Hr|]. split; [exact Hw|].
      apply to_uint_range.
    + rewrite Hi2. simpl. uint_arith.
Qed.

(** A read goes round its loop at most [n] times: more fuel changes
    nothing. *)
Lemma consoleread_fuel_enough fuel :
  forall target n dst s,
    (Z.to_nat n <= fuel)%nat ->
    consoleread_loop (S fuel) target n dst s = consoleread_loop fuel target n dst s.
Proof.
  induction fuel as [|fuel IH]; intros target n dst s Hf.
  - simpl. replace (n >? 0) with false by lia. reflexivity.
  - change (consoleread_loop (S (S fuel)) target n dst s)
      with (if n >? 0 then
              if input_r (input s) =? input_w (input s) then
                if proc_killed s =? 0
                then RBlocked target n dst (emit ESleep s)
                else RDone (-1) dst (emit EIlock (emit (ERelease InputLock) s))
              else
                let c := buf_get (input_r (input s)) s in
                let s := set_r (to_uint (input_r (input s) + 1)) s in
                if c =? CTRL_D then
                  consoleread_exit target n dst
                    (if to_uint n <? target
                     then set_r (to_uint (input_r (input s) - 1)) s
                     else s)
                else
                  let dst := dst ++ [to_char c] in
                  let n := n - 1 in
                  if c =? NEWLINE then consoleread_exit target n dst s
                  else consoleread_loop (S fuel) target n dst s
            else consoleread_exit target n dst s).
    cbv zeta. rewrite IH by lia. reflexivity.
Qed.

(** The sixteen characters of [buf] in [printint] are enough for a 32-bit
    number in base 10 or 16. *)
Lemma printint_digits_enough (base : Z) (fuel : nat) :
  2 <= base ->
  forall x buf,
    (0 < fuel)%nat -> 0 <= x < base ^ Z.of_nat fuel ->
    exists r, printint_digits fuel x base buf = Some r.
Proof.
  intros Hb. induction fuel as [|fuel IH]; intros x buf Hf Hx; [lia|].
  simpl. destruct (Z.eqb_spec (x / base) 0) as [|Hne]; [eauto|].
  rewrite Nat2Z.inj_succ, Z.pow_succ_r in Hx by lia.
  assert (Hq : 0 <= x / base < base ^ Z.of_nat fuel).
  { split; [apply Z.div_pos; lia|apply Z.div_lt_upper_bound; lia]. }
  destruct fuel as [|fuel'].
  - simpl in Hq. lia.
  - apply IH; [lia|exact Hq].
Qed.

Lemma printint_digits_decimal x buf :
  uint_range x -> exists r, printint_digits 16 x (to_uint 10) buf = Some r.
Proof.
  intros Hx. apply printint_digits_enough; [vm_compute; discriminate|lia|].
  change (to_uint 10 ^ Z.of_nat 16) with 10000000000000000.
  unfold uint_range in Hx. change (2 ^ 32) with 4294967296 in Hx. lia.
Qed.

Lemma printint_digits_hex x buf :
  uint_range x -> exists r, printint_digits 16 x (to_uint 16) buf = Some r.
Proof.
  intros Hx. apply printint_digits_enough; [vm_compute; discriminate|lia|].
  change (to_uint 16 ^ Z.of_nat 16) with 18446744073709551616.
  unfold uint_range in Hx. change (2 ^ 32) with 4294967296 in Hx. lia.
Qed.

Lemma to_int_count (N n : Z) :
  0 <= n <= N -> N < 2 ^ 31 -> to_int (to_uint N - to_uint n) = N - n.
Proof.
  intros Hn HN. unfold to_int, to_uint.
  change (2 ^ 31) with 2147483648 in *. change (2 ^ 32) with 4294967296.
  rewrite (Z.mod_small N), (Z.mod_small n), (Z.mod_small (N - n)) by lia.
  destruct (Z.ltb_spec (N - n) 2147483648); lia.
Qed.

Lemma newline_only_last_snoc (l : list Z) (c : Z) :
  Forall (fun x => x <> NEWLINE) l -> newline_only_last (l ++ [c]).
Proof.
  intros Hl i Hi. rewrite length_app. simpl.
  destruct (Nat.lt_ge_cases i (length l)) as [Hlt|Hge].
  - rewrite lookup_app_l in Hi by exact Hlt.
    rewrite Forall_forall in Hl. exfalso.
    apply (Hl NEWLINE); [|reflexivity]. eapply list_elem_of_lookup_2, Hi.
  - apply lookup_lt_Some in Hi. rewrite length_app in Hi. simpl in Hi. lia.
Qed.

Lemma newline_only_last_none (l : list Z) :
  Forall (fun x => x <> NEWLINE) l -> newline_only_last l.
Proof.
  intros Hl i Hi. rewrite Forall_forall in Hl. exfalso.
  apply (Hl NEWLINE); [|reflexivity]. eapply list_elem_of_lookup_2, Hi.
Qed.

(** The loop of [consoleread], entered with [N - n] characters already in
    [dst], none of them a newline. *)
Lemma consoleread_loop_result fuel :
  forall N n dst s,
    0 <= n <= N -> N < 2 ^ 31 ->
    Z.of_nat (length dst) = N - n ->
    Forall (fun x => x <> NEWLINE) dst ->
    Forall is_char (input_buf (input s)) ->
    match consoleread_loop fuel (to_uint N) n dst s with
    | RDone ret dst' s' =>
        (ret = -1 /\ proc_killed s <> 0)
        \/ (ret = Z.of_nat (length dst') /\ ret <= N /\ newline_only_last dst')
    | RBlocked _ n' dst' s' =>
        proc_killed s = 0
        /\ 0 < n' /\ Z.of_nat (length dst') = N - n'
        /\ Forall (fun x => x <> NEWLINE) dst'
        /\ input_r (input s') = input_w (input s')
    end.
Proof.
  assert (Hexit : forall N n dst s,
            0 <= n <= N -> N < 2 ^ 31 -> Z.of_nat (length dst) = N - n ->
            newline_only_last dst ->
            match consoleread_exit (to_uint N) n dst s with
            | RDone ret dst' s' =>
                (ret = -1 /\ proc_killed s <> 0)
                \/ (ret = Z.of_nat (length dst') /\ ret <= N /\ newline_only_last dst')
            | RBlocked _ _ _ _ => False
            end).
  { intros N n dst s Hn HN Hlen Hnl. unfold consoleread_exit. right.
    rewrite to_int_count by assumption. repeat split; try assumption; lia. }
  induction fuel as [|fuel IH]; intros N n dst s Hn HN Hlen Hdst Hbuf.
  { apply Hexit; try assumption. now apply newline_only_last_none. }
  simpl. destruct (Z.gtb_spec n 0) as [Hpos|Hzero].
  2:{ apply Hexit; try assumption. now apply newline_only_last_none. }
  destruct (Z.eqb_spec (input_r (input s)) (input_w (input s))) as [Heq|Hne].
  { destruct (Z.eqb_spec (proc_killed s) 0) as [Hk|Hk].
    - repeat split; try assumption; lia.
    - left. split; [reflexivity|exact Hk]. }
  set (c := buf_get (input_r (input s)) s).
  assert (Hc : is_char c).
  { unfold c, buf_get. destruct (input_buf (input s) !! _) as [x|] eqn:Hx; simpl.
    - rewrite Forall_forall in Hbuf. apply Hbuf. eapply list_elem_of_lookup_2, Hx.
    - unfold is_char. lia. }
  destruct (Z.eqb_spec c CTRL_D) as [Heof|Hneof].
  { match goal with
    | |- match consoleread_exit _ _ _ ?st with _ => _ end =>
        pose proof (Hexit N n dst st Hn HN Hlen (newline_only_last_none _ Hdst)) as H
    end.
    destruct (to_uint n <? to_uint N); exact H. }
  rewrite (to_char_id c Hc).
  destruct (Z.eqb_spec c NEWLINE) as [Hnl|Hnnl].
  { match goal with
    | |- match consoleread_exit _ _ _ ?st with _ => _ end =>
        apply (Hexit N (n - 1) (dst ++ [c]) st)
    end; try lia.
    - rewrite length_app. simpl. lia.
    - now apply newline_only_last_snoc. }
  match goal with
  | |- match consoleread_loop _ _ _ _ ?st with _ => _ end =>
      pose proof (IH N (n - 1) (dst ++ [c]) st) as H
  end.
  change (proc_killed (set_r (to_uint (input_r (input s) + 1)) s))
    with (proc_killed s) in H.
  apply H; try lia.
  - rewrite length_app. simpl. lia.
  - apply Forall_app. split; [exact Hdst|]. now constructor.
  - exact Hbuf.
Qed.

(** What [consoleread] returns: in a killed process -1; otherwise the
    number of characters it has put in [dst], which is at most [n], and a
    newline can only be the last of them. A reader that sleeps has found
    [r == w], still wants [n' > 0] characters and holds the [n - n'] it has
    read so far. *)
Theorem consoleread_delivers (n : Z) (s : State) :
  0 <= n < 2 ^ 31 ->
  Forall is_char (input_buf (input s)) ->
  match consoleread n s with
  | RDone ret dst s' =>
      (ret = -1 /\ proc_killed s <> 0)
      \/ (ret = Z.of_nat (length dst) /\ 0 <= ret <= n /\ newline_only_last dst)
  | RBlocked _ n' dst s' =>
      proc_killed s = 0
      /\ 0 < n' /\ Z.of_nat (length dst) = n - n'
      /\ input_r (input s') = input_w (input s')
  end.
Proof.
  intros Hn Hbuf. unfold consoleread.
  pose proof (consoleread_loop_result (Z.to_nat n) n n []
                (emit (EAcquire InputLock) (emit EIunlock s))
                ltac:(lia) ltac:(lia) ltac:(simpl; lia) ltac:(constructor) Hbuf)
    as H.
  destruct (consoleread_loop _ _ _ _ _) as [ret dst s'|t n' dst s'].
  - destruct H as [H|(H1 & H2 & H3)].
    + now left.
    + right. split; [exact H1|]. split; [lia|exact H3].
  - destruct H as (H1 & H2 & H3 & _ & H5).
    split; [exact H1|]. split; [exact H2|]. split; [lia|exact H5].
Qed.

Lemma consoleread_delivers_witness :
  match consoleread 10 hello_typed with
  | RDone ret dst s' =>
      (ret = -1 /\ proc_killed hello_typed <> 0)
      \/ (ret = Z.of_nat (length dst) /\ 0 <= ret <= 10 /\ newline_only_last dst)
  | RBlocked _ n' dst s' =>
      proc_killed hello_typed = 0
      /\ 0 < n' /\ Z.of_nat (length dst) = 10 - n'
      /\ input_r (input s') = input_w (input s')
  end.
Proof.
  apply (consoleread_delivers 10 hello_typed).
  - lia.
  - change (Forall (fun c => -128 <= c <= 127) (input_buf (input hello_typed))).
    refine (bool_decide_unpack _ _). vm_compute. exact I.
Defined.

(** A request for nothing ([n <= 0]) returns 0 at once: nothing is read,
    and only the lock calls are recorded. *)
Theorem consoleread_nothing_asked (n : Z) (s : State) :
  n <= 0 ->
  consoleread n s
  = RDone 0 []
      (with_trace (trace s ++ [EIunlock; EAcquire InputLock;
                               ERelease InputLock; EIlock]) s).
Proof.
  intros Hn. unfold consoleread.
  replace (Z.to_nat n) with 0%nat by lia. simpl.
  unfold consoleread_exit. rewrite Z.sub_diag.
  unfold emit, with_trace. simpl. rewrite <- !app_assoc. reflexivity.
Qed.

Lemma consoleread_nothing_asked_witness :
  consoleread (-3) hello_typed
  = RDone 0 []
      (with_trace (trace hello_typed ++ [EIunlock; EAcquire InputLock;
                                         ERelease InputLock; EIlock])
                  hello_typed).
Proof. apply (consoleread_nothing_asked (-3) hello_typed). lia. Defined.

Lemma consoleread_loop_trace fuel :
  forall target n dst s,
    match consoleread_loop fuel target n dst s with
    | RDone _ _ s' =>
        s' = with_trace (trace s ++ [ERelease InputLock; EIlock])
                        (set_r (input_r (input s')) s)
    | RBlocked _ _ _ s' =>
        s' = with_trace (trace s ++ [ESleep]) (set_r (input_r (input s')) s)
    end.
Proof.
  assert (Hexit : forall target n dst s0 x,
            match consoleread_exit target n dst (set_r x s0) with
            | RDone _ _ s' =>
                s' = with_trace (trace s0 ++ [ERelease InputLock; EIlock])
                                (set_r (input_r (input s')) s0)
            | RBlocked _ _ _ _ => False
            end).
  { intros. unfold consoleread_exit, emit, with_trace. simpl.
    rewrite <- app_assoc. reflexivity. }
  assert (Hexit0 : forall target n dst s0,
            match consoleread_exit target n dst s0 with
            | RDone _ _ s' =>
                s' = with_trace (trace s0 ++ [ERelease InputLock; EIlock])
                                (set_r (input_r (input s')) s0)
            | RBlocked _ _ _ _ => False
            end).
  { intros. pose proof (Hexit target n dst s0 (input_r (input s0))) as H.
    now rewrite set_r_same in H. }
  induction fuel as [|fuel IH]; intros target n dst s;
    [exact (Hexit0 target n dst s)|].
  simpl. destruct (n >? 0); [|exact (Hexit0 target n dst s)].
  destruct (input_r (input s) =? input_w (input s)).
  { destruct (proc_killed s =? 0).
    - destruct s as [? ? [] ? ? ? ? ? ?]. reflexivity.
    - exact (Hexit0 target n dst s). }
  destruct (_ =? CTRL_D).
  { destruct (to_uint n <? target).
    - exact (Hexit target n dst s
               (to_uint (to_uint (input_r (input s) + 1) - 1))).
    - exact (Hexit target n dst s (to_uint (input_r (input s) + 1))). }
  destruct (_ =? NEWLINE);
    [exact (Hexit target n dst s (to_uint (input_r (input s) + 1)))|].
  match goal with
  | |- match consoleread_loop _ ?t ?m ?d ?st with _ => _ end =>
      pose proof (IH t m d st) as H;
      destruct (consoleread_loop fuel t m d st); exact H
  end.
Qed.

(** [consoleread] changes the read index and nothing else: the buffer,
    [w], [e] and the screen are as it found them. When it returns it has
    given up the inode lock, taken and released the input lock and taken the
    inode lock again, in that order; when it sleeps it has given up the
    inode lock and sleeps on the input lock. *)
Theorem consoleread_hands_locks_over (n : Z) (s : State) :
  match consoleread n s with
  | RDone _ _ s' =>
      s' = with_trace (trace s ++ [EIunlock; EAcquire InputLock;
                                   ERelease InputLock; EIlock])
                      (set_r (input_r (input s')) s)
  | RBlocked _ _ _ s' =>
      s' = with_trace (trace s ++ [EIunlock; EAcquire InputLock; ESleep])
                      (set_r (input_r (input s')) s)
  end.
Proof.
  unfold consoleread.
  pose proof (consoleread_loop_trace (Z.to_nat n) (to_uint n) n []
                (emit (EAcquire InputLock) (emit EIunlock s))) as H.
  destruct (consoleread_loop _ _ _ _ _) as [ret dst s'|t n' dst s'];
    rewrite H at 1; unfold emit, with_trace; simpl;
    rewrite <- !app_assoc; reflexivity.
Qed.

Lemma consoleintr_char_ordinary c :
  ordinary c -> consoleintr_char c = consoleintr_default c.
Proof.
  intros (Hr & H1 & H2 & H3 & H4 & _). unfold consoleintr_char.
  destruct (Z.eqb_spec c CTRL_Z); [contradiction|].
  destruct (Z.eqb_spec c CTRL_P); [contradiction|].
  destruct (Z.eqb_spec c CTRL_U); [contradiction|].
  destruct (Z.eqb_spec c CTRL_H); [contradiction|].
  destruct (Z.eqb_spec c 127); [lia|]. reflexivity.
Qed.

Lemma consoleintr_loop_app (k1 k2 : list Z) :
  Forall (fun c => 0 <= c) k1 ->
  forall s,
    consoleintr_loop (k1 ++ k2) s
    = bind (consoleintr_loop k1) (fun _ => consoleintr_loop k2) s.
Proof.
  induction 1 as [|c k1 Hc _ IH]; intros s; [reflexivity|].
  simpl. replace (c >=? 0) with true by lia.
  unfold bind.
  destruct (consoleintr_char c s) as [[] s1|s1|]; try reflexivity.
  rewrite IH. reflexivity.
Qed.

(** The slot of index [x] after a store at index [e]. *)
Lemma buf_get_insert (x e c : Z) (i : Input) :
  length (input_buf i) = Z.to_nat INPUT_BUF ->
  default 0 (<[Z.to_nat (e mod INPUT_BUF) := c]> (input_buf i)
             !! Z.to_nat (x mod INPUT_BUF))
  = if (x mod INPUT_BUF =? e mod INPUT_BUF) then c
    else default 0 (input_buf i !! Z.to_nat (x mod INPUT_BUF)).
Proof.
  intros Hlen.
  destruct (Z.eqb_spec (x mod INPUT_BUF) (e mod INPUT_BUF)) as [Heq|Hne].
  - rewrite Heq, list_lookup_insert_eq by (apply slot_lt; exact Hlen). reflexivity.
  - rewrite list_lookup_insert_ne; [reflexivity|].
    unfold INPUT_BUF in *. intros Heq. apply Hne.
    apply Z2Nat.inj in Heq; [symmetry; exact Heq| |]; apply Z.mod_pos_bound; lia.
Qed.

(** One ordinary key, with room for it: stored at [e] and echoed; it is
    committed when it is the one that fills the buffer. *)
Lemma type_one_ordinary c s :
  panicked s = 0 -> on_screen s -> ring_inv (input s) -> ordinary c ->
  pending (input s) < INPUT_BUF ->
  exists s',
    consoleintr_char c s = Ret tt s'
    /\ panicked s' = 0
    /\ on_screen s'
    /\ proc_killed s' = proc_killed s
    /\ input s' = mkInput (<[Z.to_nat (input_e (input s) mod INPUT_BUF) := c]>
                             (input_buf (input s)))
                          (input_r (input s))
                          (if pending (input s) + 1 =? INPUT_BUF
                           then to_uint (input_e (input s) + 1)
                           else input_w (input s))
                          (to_uint (input_e (input s) + 1))
    /\ uart_out (trace s') = uart_out (trace s) ++ [c].
Proof.
  intros Hp Hon Hinv Hord Hroom.
  rewrite (consoleintr_char_ordinary c Hord).
  destruct Hord as (Hr & _ & _ & _ & _ & Hnl & Hcr & Heof).
  unfold consoleintr_default.
  destruct (Z.eqb_spec c 0) as [|_]; [lia|].
  fold (pending (input s)).
  destruct (Z.ltb_spec (pending (input s)) INPUT_BUF) as [_|]; [|lia].
  simpl negb. simpl andb. cbv iota.
  destruct (Z.eqb_spec c CARRIAGE_RETURN) as [|_]; [contradiction|].
  set (s1 := set_e _ _).
  destruct (consputc_uart c DEFAULT_CONSOLE_COLOR s1) as (s2 & E2 & Hp2 & Hon2 & Hu2);
    [exact Hp|exact Hon|unfold BACKSPACE; lia|].
  assert (Hcore : same_core s1 s2).
  { pose proof (core_consputc c DEFAULT_CONSOLE_COLOR s1) as H.
    unfold relates in H. now rewrite E2 in H. }
  destruct Hcore as (_ & _ & Hi2 & Hk2 & _).
  unfold bind. rewrite E2. cbv beta. rewrite Hi2.
  destruct (Z.eqb_spec c NEWLINE) as [|_]; [contradiction|].
  destruct (Z.eqb_spec c CTRL_D) as [|_]; [contradiction|].
  simpl orb.
  assert (Hnf : (to_uint (input_e (input s) + 1)
                 =? to_uint (input_r (input s) + INPUT_BUF))
                = (pending (input s) + 1 =? INPUT_BUF)).
  { destruct Hinv as ((_ & Hrr & Hw & He) & Hb).
    destruct (Z.eqb_spec (pending (input s) + 1) INPUT_BUF) as [Hf|Hf];
      [apply Z.eqb_eq|apply Z.eqb_neq]; unfold pending in *; uint_arith. }
  rewrite Hnf.
  assert (Hu2' : uart_out (trace s2) = uart_out (trace s) ++ [c]) by exact Hu2.
  destruct (pending (input s) + 1 =? INPUT_BUF);
    eexists; (split; [reflexivity|]); (split; [exact Hp2|]);
    (split; [exact Hon2|]); (split; [exact Hk2|]); split.
  - simpl. rewrite Hi2. subst s1. simpl.
    rewrite to_char_id by (unfold is_char; lia). reflexivity.
  - match goal with
    | |- uart_out (trace ?x) = _ => change (trace x) with (trace s2 ++ [EWakeup])
    end.
    rewrite uart_out_app, Hu2'. simpl. now rewrite app_nil_r.
  - rewrite Hi2. subst s1. simpl.
    rewrite to_char_id by (unfold is_char; lia). reflexivity.
  - exact Hu2'.
Qed.

Lemma ordinary_plain c : ordinary c -> plain_char c.
Proof. intros (_ & _ & _ & _ & _ & Hnl & _ & Heof). now split. Qed.

Lemma ordinary_is_char c : ordinary c -> is_char c.
Proof. intros (Hr & _). unfold is_char. lia. Qed.

(** A run of ordinary keys that fits the buffer: they are stored from [e]
    on, in order, and echoed in order; nothing is committed unless the last
    of them fills the buffer, which commits them all. *)
Lemma type_ordinary_keys (keys : list Z) :
  forall s,
    panicked s = 0 -> on_screen s -> ring_inv (input s) -> Forall ordinary keys ->
    pending (input s) + Z.of_nat (length keys) <= INPUT_BUF ->
    exists s',
      consoleintr_loop keys s = Ret tt s'
      /\ panicked s' = 0
      /\ on_screen s'
      /\ proc_killed s' = proc_killed s
      /\ ring_inv (input s')
      /\ input_r (input s') = input_r (input s)
      /\ (pending (input s) + Z.of_nat (length keys) < INPUT_BUF ->
          input_w (input s') = input_w (input s))
      /\ (keys <> [] -> pending (input s) + Z.of_nat (length keys) = INPUT_BUF ->
          input_w (input s') = input_e (input s'))
      /\ input_e (input s') = to_uint (input_e (input s) + Z.of_nat (length keys))
      /\ pending (input s') = pending (input s) + Z.of_nat (length keys)
      /\ holds_at s' (input_e (input s)) keys
      /\ uart_out (trace s') = uart_out (trace s) ++ keys.
Proof.
  induction keys as [|c keys IH] using rev_ind; intros s Hp Hon Hinv Hord Hroom.
  { exists s. simpl. rewrite Z.add_0_r, app_nil_r.
    split; [reflexivity|]. split; [exact Hp|]. split; [exact Hon|].
    split; [reflexivity|].
    split; [exact Hinv|]. split; [reflexivity|]. split; [reflexivity|].
    split; [intros Hne; now contradiction Hne|].
    split; [destruct Hinv as ((_ & _ & _ & He) & _); uint_arith|].
    split; [lia|]. split; [|reflexivity].
    intros i x Hi. discriminate. }
  apply Forall_app in Hord as (Hord & Hc). apply Forall_cons in Hc as (Hc & _).
  rewrite length_app in *. simpl length in *.
  destruct (IH s Hp Hon Hinv Hord) as
    (s1 & E1 & Hp1 & Hon1 & Hk1 & Hinv1 & Hr1 & Hw1 & _ & He1 & Hpe1 & Hat1 & Hu1);
    [lia|].
  specialize (Hw1 ltac:(lia)).
  destruct (type_one_ordinary c s1 Hp1 Hon1 Hinv1 Hc)
    as (s2 & E2 & Hp2 & Hon2 & Hk2 & Hi2 & Hu2); [lia|].
  assert (E : consoleintr_loop (keys ++ [c]) s = Ret tt s2).
  { rewrite consoleintr_loop_app.
    - unfold bind. rewrite E1. simpl.
      replace (c >=? 0) with true by (destruct Hc as (Hc & _); lia).
      unfold bind. rewrite E2. reflexivity.
    - eapply Forall_impl; [exact Hord|]. intros x (Hx & _). lia. }
  assert (Hinv2 : ring_inv (input s2)).
  { apply (consoleintr_loop_final (keys ++ [c]) s s2); [now rewrite E|exact Hinv]. }
  pose proof Hinv as ((Hlen & Hrr & Hww & Hee) & Hb).
  pose proof Hinv1 as ((Hlen1 & _) & _).
  exists s2. split; [exact E|]. split; [exact Hp2|]. split; [exact Hon2|].
  split; [congruence|]. split; [exact Hinv2|].
  rewrite Hi2. simpl.
  split; [exact Hr1|].
  split.
  { intros Hlt. replace (pending (input s1) + 1 =? INPUT_BUF) with false by lia.
    exact Hw1. }
  split.
  { intros _ Hfull. replace (pending (input s1) + 1 =? INPUT_BUF) with true by lia.
    reflexivity. }
  split; [rewrite He1; uint_arith|].
  split.
  { unfold pending in *. simpl. rewrite He1, Hr1 in *. uint_arith. }
  split.
  - intros i x Hi. unfold buf_get. rewrite Hi2. simpl.
    rewrite buf_get_insert by exact Hlen1.
    destruct (Nat.lt_ge_cases i (length keys)) as [Hlt|Hge].
    + rewrite lookup_app_l in Hi by exact Hlt.
      destruct (Z.eqb_spec ((input_e (input s) + Z.of_nat i) mod INPUT_BUF)
                           (input_e (input s1) mod INPUT_BUF)) as [Heq|_].
      * exfalso. rewrite He1 in Heq. unfold pending in *. uint_arith.
      * apply (Hat1 i x Hi).
    + assert (i = length keys).
      { apply lookup_lt_Some in Hi. rewrite length_app in Hi. simpl in Hi. lia. }
      subst i. rewrite lookup_app_r, Nat.sub_diag in Hi by lia.
      injection Hi as <-.
      replace ((input_e (input s) + Z.of_nat (length keys)) mod INPUT_BUF
               =? input_e (input s1) mod INPUT_BUF) with true; [reflexivity|].
      symmetry. apply Z.eqb_eq. rewrite He1. uint_arith.
  - rewrite Hu2, Hu1, <- app_assoc. reflexivity.
Qed.

(** Ordinary keys are stored and echoed in the order they are typed, on a
    machine that has not panicked and has its cursor on the page: after
    the batch they sit in the ring from the old [e] on, [e] has moved past
    them, and the serial port has received exactly them. *)
Theorem typed_keys_are_stored_and_echoed (keys : list Z) (s : State) :
  panicked s = 0 -> on_screen s -> ring_inv (input s) -> Forall ordinary keys ->
  pending (input s) + Z.of_nat (length keys) < INPUT_BUF ->
  exists s',
    consoleintr keys s = Ret tt s'
    /\ holds_at s' (input_e (input s)) keys
    /\ input_e (input s') = to_uint (input_e (input s) + Z.of_nat (length keys))
    /\ uart_out (trace s') = uart_out (trace s) ++ keys.
Proof.
  intros Hp Hon Hinv Hord Hroom.
  destruct (type_ordinary_keys keys (emit (EAcquire InputLock) s) Hp Hon Hinv Hord)
    as (s1 & E1 & _ & _ & _ & _ & _ & _ & _ & He1 & _ & Hat1 & Hu1);
    [change (input (emit (EAcquire InputLock) s)) with (input s); lia|].
  exists (emit (ERelease InputLock) s1).
  split; [unfold consoleintr, bind, lift; rewrite E1; reflexivity|].
  split; [exact Hat1|]. split; [exact He1|].
  change (trace (emit (ERelease InputLock) s1)) with (trace s1 ++ [ERelease InputLock]).
  rewrite uart_out_app, Hu1.
  change (trace (emit (EAcquire InputLock) s)) with (trace s ++ [EAcquire InputLock]).
  rewrite uart_out_app. simpl. now rewrite !app_nil_r.
Qed.

Lemma typed_keys_are_stored_and_echoed_witness :
  exists s',
    consoleintr hello idle = Ret tt s'
    /\ holds_at s' (input_e (input idle)) hello
    /\ input_e (input s') = to_uint (input_e (input idle) + Z.of_nat (length hello))
    /\ uart_out (trace s') = uart_out (trace idle) ++ hello.
Proof.
  apply (typed_keys_are_stored_and_echoed hello idle).
  - reflexivity.
  - vm_compute. split; [discriminate|reflexivity].
  - vm_compute. repeat split; discriminate.
  - repeat (constructor; [vm_compute; repeat split; discriminate|]). constructor.
  - vm_compute. reflexivity.
Defined.

(** A line terminator, newline or carriage return, with room for it: a
    newline is stored at [e] and the line is committed. *)
Lemma type_terminator t s :
  t = NEWLINE \/ t = CARRIAGE_RETURN ->
  panicked s = 0 -> on_screen s -> pending (input s) < INPUT_BUF ->
  exists s',
    consoleintr_char t s = Ret tt s'
    /\ same_env s s'
    /\ on_screen s'
    /\ input s' = mkInput (<[Z.to_nat (input_e (input s) mod INPUT_BUF) := NEWLINE]>
                             (input_buf (input s)))
                          (input_r (input s))
                          (to_uint (input_e (input s) + 1))
                          (to_uint (input_e (input s) + 1)).
Proof.
  intros Ht Hp Hon Hroom.
  assert (Hd : consoleintr_char t = consoleintr_default t)
    by (destruct Ht as [-> | ->]; reflexivity).
  rewrite Hd.
  destruct (consoleintr_default_accepts t s Hp Hon) as (s' & E & Henv & Hon' & Hin);
    [destruct Ht as [-> | ->]; discriminate|exact Hroom|].
  exists s'. split; [exact E|]. split; [exact Henv|]. split; [exact Hon'|].
  rewrite Hin. destruct Ht as [-> | ->]; reflexivity.
Qed.

(** The ring after a line of ordinary characters is typed into an empty
    buffer and ended. *)
Lemma typed_line_state (body : list Z) (t : Z) (s : State) :
  panicked s = 0 -> on_screen s ->
  ring_inv (input s) ->
  input_w (input s) = input_r (input s) ->
  input_e (input s) = input_r (input s) ->
  Forall ordinary body ->
  t = NEWLINE \/ t = CARRIAGE_RETURN ->
  Z.of_nat (length body) < INPUT_BUF ->
  exists s2,
    consoleintr (body ++ [t]) s = Ret tt s2
    /\ ring_inv (input s2)
    /\ holds_at s2 (input_r (input s2)) (body ++ [NEWLINE])
    /\ available (input s2) = Z.of_nat (length body) + 1
    /\ input_r (input s2) = input_r (input s)
    /\ input_w (input s2) = to_uint (input_r (input s) + Z.of_nat (length body) + 1)
    /\ input_e (input s2) = input_w (input s2)
    /\ proc_killed s2 = proc_killed s.
Proof.
  intros Hp Hon Hinv Hwr Her Hord Ht Hlen.
  pose proof Hinv as ((Hbl & Hr & Hw & He) & Hb).
  assert (Hpe0 : pending (input s) = 0).
  { unfold pending. rewrite Her, Z.sub_diag. reflexivity. }
  set (sa := emit (EAcquire InputLock) s).
  destruct (type_ordinary_keys body sa Hp Hon Hinv Hord) as
    (s1 & E1 & Hp1 & Hon1 & Hk1 & Hinv1 & Hr1 & Hw1 & _ & He1 & Hpe1 & Hat1 & _).
  { change (input sa) with (input s). lia. }
  change (input sa) with (input s) in *.
  specialize (Hw1 ltac:(lia)).
  destruct (type_terminator t s1 Ht Hp1 Hon1) as (sb & Eb & Henvb & _ & Hinb); [lia|].
  set (s2 := emit (ERelease InputLock) sb).
  assert (E : consoleintr (body ++ [t]) s = Ret tt s2).
  { unfold consoleintr, bind, lift. fold sa.
    rewrite consoleintr_loop_app.
    - unfold bind. rewrite E1. simpl.
      replace (t >=? 0) with true by (destruct Ht as [-> | ->]; reflexivity).
      unfold bind. rewrite Eb. reflexivity.
    - eapply Forall_impl; [exact Hord|]. intros x (Hx & _). lia. }
  assert (Hinv2 : ring_inv (input s2)).
  { apply (consoleintr_final (body ++ [t]) s s2); [now rewrite E|exact Hinv]. }
  pose proof Hinv1 as ((Hbl1 & _) & _).
  assert (Hin2 : input s2 = input sb) by reflexivity.
  assert (Hat2 : holds_at s2 (input_r (input s2)) (body ++ [NEWLINE])).
  { intros i x Hi. unfold buf_get. rewrite Hin2, Hinb. simpl.
    rewrite buf_get_insert by exact Hbl1. rewrite Hr1, He1, Her.
    destruct (Nat.lt_ge_cases i (length body)) as [Hlt|Hge].
    - rewrite lookup_app_l in Hi by exact Hlt.
      destruct (Z.eqb_spec ((input_r (input s) + Z.of_nat i) mod INPUT_BUF)
                  (to_uint (input_r (input s) + Z.of_nat (length body)) mod INPUT_BUF))
        as [Heq|_].
      + exfalso. uint_arith.
      + rewrite <- Her. apply (Hat1 i x Hi).
    - assert (i = length body).
      { apply lookup_lt_Some in Hi. rewrite length_app in Hi. simpl in Hi. lia. }
      subst i. rewrite lookup_app_r, Nat.sub_diag in Hi by lia.
      injection Hi as <-.
      replace ((input_r (input s) + Z.of_nat (length body)) mod INPUT_BUF
               =? to_uint (input_r (input s) + Z.of_nat (length body)) mod INPUT_BUF)
        with true; [reflexivity|].
      symmetry. apply Z.eqb_eq. uint_arith. }
  assert (Hav2 : available (input s2) = Z.of_nat (length body) + 1).
  { unfold available. rewrite Hin2, Hinb. simpl. rewrite He1, Hr1, Her. uint_arith. }
  exists s2. split; [exact E|]. split; [exact Hinv2|]. split; [exact Hat2|].
  split; [exact Hav2|]. rewrite Hin2, Hinb. simpl.
  split; [exact Hr1|]. split; [rewrite He1, Her; uint_arith|]. split; [reflexivity|].
  destruct Henvb as (_ & _ & Hkb & _).
  change (proc_killed s2) with (proc_killed sb). rewrite Hkb. exact Hk1.
Qed.

(** Round trip: a line of ordinary characters typed into an empty buffer
    and ended by newline or carriage return comes back from the next read
    that asks for at least its length, character for character, with a
    newline at the end; the buffer is empty again afterwards. The machine
    has not panicked and has its cursor on the page, so that the echo
    returns. *)
Theorem typed_line_is_read (body : list Z) (t n : Z) (s : State) :
  panicked s = 0 -> on_screen s ->
  ring_inv (input s) ->
  input_w (input s) = input_r (input s) ->
  input_e (input s) = input_r (input s) ->
  Forall ordinary body ->
  t = NEWLINE \/ t = CARRIAGE_RETURN ->
  Z.of_nat (length body) < INPUT_BUF ->
  Z.of_nat (length body) < n < 2 ^ 31 ->
  exists s1 s2,
    consoleintr (body ++ [t]) s = Ret tt s1
    /\ consoleread n s1
       = RDone (Z.of_nat (length body) + 1) (body ++ [NEWLINE]) s2
    /\ input_r (input s2) = input_w (input s2)
    /\ input_w (input s2) = input_e (input s2).
Proof.
  intros Hp Hon Hinv Hwr Her Hord Ht Hlen Hn.
  destruct (typed_line_state body t s Hp Hon Hinv Hwr Her Hord Ht Hlen)
    as (s2 & E & Hinv2 & Hat2 & Hav2 & Hr2 & Hw2 & He2 & _).
  exists s2. eexists. split; [exact E|].
  split.
  { unfold consoleread.
    rewrite (read_line_rest body (Z.to_nat n) (to_uint n) n []
               (emit (EAcquire InputLock) (emit EIunlock s2))).
    - unfold consoleread_exit. simpl app.
      rewrite map_to_char_id
        by (eapply Forall_impl; [exact Hord|apply ordinary_is_char]).
      replace (n - Z.of_nat (length body) - 1) with (n - (Z.of_nat (length body) + 1))
        by lia.
      rewrite to_int_count by lia.
      replace (n - (n - (Z.of_nat (length body) + 1)))
        with (Z.of_nat (length body) + 1) by lia.
      reflexivity.
    - eapply Forall_impl; [exact Hord|apply ordinary_plain].
    - exact Hat2.
    - lia.
    - lia.
    - change (input (emit (EAcquire InputLock) (emit EIunlock s2))) with (input s2).
      lia.
    - exact Hinv2. }
  simpl. rewrite Hw2, Hr2. split; [reflexivity|]. rewrite <- Hw2. now rewrite He2.
Qed.

Lemma typed_line_is_read_witness :
  exists s1 s2,
    consoleintr (hello ++ [CARRIAGE_RETURN]) idle = Ret tt s1
    /\ consoleread 100 s1
       = RDone (Z.of_nat (length hello) + 1) (hello ++ [NEWLINE]) s2
    /\ input_r (input s2) = input_w (input s2)
    /\ input_w (input s2) = input_e (input s2).
Proof.
  apply (typed_line_is_read hello CARRIAGE_RETURN 100 idle).
  - reflexivity.
  - vm_compute. split; [discriminate|reflexivity].
  - vm_compute. repeat split; discriminate.
  - reflexivity.
  - reflexivity.
  - repeat (constructor; [vm_compute; repeat split; discriminate|]). constructor.
  - now right.
  - vm_compute. reflexivity.
  - vm_compute. split; reflexivity.
Defined.

(** ** A full buffer *)

(** An ordinary key that finds the buffer full is dropped: nothing is
    stored, nothing echoed, no index moves. *)
Lemma dropped_when_full (keys : list Z) :
  forall s,
    Forall ordinary keys -> pending (input s) = INPUT_BUF ->
    consoleintr_loop keys s = Ret tt s.
Proof.
  induction keys as [|c keys IH]; intros s Hord Hfull; [reflexivity|].
  apply Forall_cons in Hord as (Hc & Hord). simpl.
  replace (c >=? 0) with true by (destruct Hc as (Hc & _); lia).
  rewrite (consoleintr_char_ordinary c Hc).
  unfold bind, consoleintr_default. fold (pending (input s)). rewrite Hfull.
  rewrite andb_false_r. now apply IH.
Qed.

(** Typing more than the buffer holds: of ordinary keys typed into an
    empty buffer the first [INPUT_BUF] are stored, echoed and, the buffer
    being full, committed without any newline; the rest are dropped without
    an echo; a read of [INPUT_BUF] characters returns exactly the first
    [INPUT_BUF] keys. The machine has not panicked and has its cursor on
    the page, so that the echo returns. *)
Theorem full_buffer_commits_and_drops (body more : list Z) (s : State) :
  panicked s = 0 -> on_screen s ->
  ring_inv (input s) ->
  input_w (input s) = input_r (input s) ->
  input_e (input s) = input_r (input s) ->
  Forall ordinary body -> Forall ordinary more ->
  Z.of_nat (length body) = INPUT_BUF ->
  exists s1 s2,
    consoleintr (body ++ more) s = Ret tt s1
    /\ uart_out (trace s1) = uart_out (trace s) ++ body
    /\ available (input s1) = INPUT_BUF
    /\ consoleread INPUT_BUF s1 = RDone INPUT_BUF body s2
    /\ input_r (input s2) = input_w (input s2).
Proof.
  intros Hp Hon Hinv Hwr Her Hord Hmore Hlen.
  pose proof Hinv as ((Hbl & Hr & Hw & He) & Hb).
  assert (Hpe0 : pending (input s) = 0).
  { unfold pending. rewrite Her, Z.sub_diag. reflexivity. }
  set (sa := emit (EAcquire InputLock) s).
  destruct (type_ordinary_keys body sa Hp Hon Hinv Hord) as
    (s1 & E1 & Hp1 & _ & Hk1 & Hinv1 & Hr1 & _ & Hw1 & He1 & Hpe1 & Hat1 & Hu1).
  { change (input sa) with (input s). lia. }
  change (input sa) with (input s) in *.
  assert (Hne : body <> []) by (intros ->; simpl in Hlen; discriminate).
  specialize (Hw1 Hne ltac:(lia)).
  set (s2 := emit (ERelease InputLock) s1).
  assert (E : consoleintr (body ++ more) s = Ret tt s2).
  { unfold consoleintr, bind, lift. fold sa.
    rewrite consoleintr_loop_app.
    - unfold bind. rewrite E1. rewrite dropped_when_full; [reflexivity|exact Hmore|lia].
    - eapply Forall_impl; [exact Hord|]. intros x (Hx & _). lia. }
  assert (Hav : available (input s2) = INPUT_BUF).
  { change (input s2) with (input s1). unfold available, pending in *.
    rewrite Hw1. lia. }
  exists s2. eexists. split; [exact E|]. split.
  { change (trace s2) with (trace s1 ++ [ERelease InputLock]).
    rewrite uart_out_app, Hu1.
    change (trace sa) with (trace s ++ [EAcquire InputLock]).
    rewrite uart_out_app. simpl. now rewrite !app_nil_r. }
  split; [exact Hav|]. split.
  { unfold consoleread.
    replace (Z.to_nat INPUT_BUF) with (length body) by lia.
    rewrite <- Hlen at 2.
    rewrite (read_line_prefix body (to_uint INPUT_BUF) []
               (emit (EAcquire InputLock) (emit EIunlock s2))).
    - unfold consoleread_exit. simpl app.
      rewrite map_to_char_id
        by (eapply Forall_impl; [exact Hord|apply ordinary_is_char]).
      reflexivity.
    - eapply Forall_impl; [exact Hord|apply ordinary_plain].
    - change (input_r (input (emit (EAcquire InputLock) (emit EIunlock s2))))
        with (input_r (input s1)).
      rewrite Hr1, <- Her. exact Hat1.
    - change (input (emit (EAcquire InputLock) (emit EIunlock s2))) with (input s2).
      lia.
    - exact Hinv1. }
  simpl. rewrite Hw1, He1, Hr1, Her, Hlen. uint_arith.
Qed.

Lemma full_buffer_commits_and_drops_witness :
  exists s1 s2,
    consoleintr (replicate 128 97 ++ [98; 99]) idle = Ret tt s1
    /\ uart_out (trace s1) = uart_out (trace idle) ++ replicate 128 97
    /\ available (input s1) = INPUT_BUF
    /\ consoleread INPUT_BUF s1 = RDone INPUT_BUF (replicate 128 97) s2
    /\ input_r (input s2) = input_w (input s2).
Proof.
  apply (full_buffer_commits_and_drops (replicate 128 97) [98; 99] idle).
  - reflexivity.
  - vm_compute. split; [discriminate|reflexivity].
  - vm_compute. repeat split; discriminate.
  - reflexivity.
  - reflexivity.
  - apply Forall_replicate. vm_compute. repeat split; discriminate.
  - repeat (constructor; [vm_compute; repeat split; discriminate|]). constructor.
  - vm_compute. reflexivity.
Defined.

(** ** End of input after some text *)

(** A read that meets the EOF marker after it has handed on some
    characters stops there and leaves the marker for the next read. *)
Lemma read_until_eof (body : list Z) fuel target n dst s :
  Forall plain_char body ->
  holds_at s (input_r (input s)) (body ++ [CTRL_D]) ->
  (length body < fuel)%nat ->
  Z.of_nat (length body) < n ->
  Z.of_nat (length body) + 1 <= available (input s) ->
  ring_inv (input s) ->
  to_uint (n - Z.of_nat (length body)) < target ->
  consoleread_loop fuel target n dst s
  = consoleread_exit target (n - Z.of_nat (length body))
      (dst ++ map to_char body)
      (set_r (to_uint (input_r (input s) + Z.of_nat (length body))) s).
Proof.
  intros Hpl Hat Hf Hn Hav Hinv Hpush.
  rewrite (read_chars body); try assumption; try lia;
    [|now apply holds_at_prefix in Hat].
  destruct (fuel - length body)%nat as [|f] eqn:Hfuel; [lia|].
  set (r1 := to_uint (input_r (input s) + Z.of_nat (length body))).
  set (s1 := set_r r1 s).
  simpl consoleread_loop.
  replace (n - Z.of_nat (length body) >? 0) with true by lia.
  change (input_r (input s1)) with r1. change (input_w (input s1)) with (input_w (input s)).
  destruct Hinv as ((Hl & Hr & Hw & He) & Hb).
  destruct (Z.eqb_spec r1 (input_w (input s))) as [Heq|_].
  { exfalso. subst r1. unfold available in *. uint_arith. }
  assert (Hc : buf_get r1 s1 = CTRL_D).
  { subst s1 r1. rewrite buf_get_set_r, buf_get_to_uint.
    apply holds_at_suffix in Hat. specialize (Hat 0%nat CTRL_D eq_refl).
    now rewrite Z.add_0_r in Hat. }
  rewrite Hc. change (CTRL_D =? CTRL_D) with true. cbv iota.
  replace (to_uint (n - Z.of_nat (length body)) <? target) with true by lia.
  change (input_r (input (set_r (to_uint (r1 + 1)) s1))) with (to_uint (r1 + 1)).
  rewrite to_uint_pred_succ by (subst r1; apply to_uint_range).
  reflexivity.
Qed.

(** The end-of-input protocol with text before the marker: the text typed,
    then the EOF key. The first read returns the text and not the marker;
    the second returns 0, once; the third finds nothing and sleeps. The
    machine has not panicked and has its cursor on the page, so that the
    echo returns. *)
Theorem eof_after_text (body : list Z) (n1 n2 n3 : Z) (s : State) :
  panicked s = 0 -> on_screen s -> proc_killed s = 0 ->
  ring_inv (input s) ->
  input_w (input s) = input_r (input s) ->
  input_e (input s) = input_r (input s) ->
  Forall ordinary body -> body <> [] ->
  Z.of_nat (length body) < INPUT_BUF ->
  Z.of_nat (length body) < n1 < 2 ^ 31 -> 0 < n2 -> 0 < n3 ->
  exists s1 s2 s3 s4,
    consoleintr (body ++ [CTRL_D]) s = Ret tt s1
    /\ consoleread n1 s1 = RDone (Z.of_nat (length body)) body s2
    /\ consoleread n2 s2 = RDone 0 [] s3
    /\ consoleread n3 s3 = RBlocked (to_uint n3) n3 [] s4.
Proof.
  intros Hp Hon Hk Hinv Hwr Her Hord Hne Hlen Hn1 Hn2 Hn3.
  pose proof Hinv as ((Hbl & Hr & Hw & He) & Hb).
  assert (Hpe0 : pending (input s) = 0).
  { unfold pending. rewrite Her, Z.sub_diag. reflexivity. }
  assert (Hlen1 : 0 < Z.of_nat (length body)).
  { destruct body; [contradiction|simpl; lia]. }
  set (sa := emit (EAcquire InputLock) s).
  destruct (type_ordinary_keys body sa Hp Hon Hinv Hord) as
    (s1 & E1 & Hp1 & Hon1 & Hk1 & Hinv1 & Hr1 & Hw1 & _ & He1 & Hpe1 & Hat1 & _).
  { change (input sa) with (input s). lia. }
  change (input sa) with (input s) in *.
  change (proc_killed sa) with (proc_killed s) in Hk1.
  specialize (Hw1 ltac:(lia)).
  destruct (consoleintr_default_accepts CTRL_D s1 Hp1 Hon1)
    as (sb & Eb & Henvb & _ & Hinb); [discriminate|lia|].
  simpl in Hinb.
  set (s2 := emit (ERelease InputLock) sb).
  assert (E : consoleintr (body ++ [CTRL_D]) s = Ret tt s2).
  { unfold consoleintr, bind, lift. fold sa.
    rewrite consoleintr_loop_app.
    - unfold bind. rewrite E1. simpl.
      change (consoleintr_char CTRL_D) with (consoleintr_default CTRL_D).
      unfold bind. rewrite Eb. reflexivity.
    - eapply Forall_impl; [exact Hord|]. intros x (Hx & _). lia. }
  assert (Hinv2 : ring_inv (input s2)).
  { apply (consoleintr_final (body ++ [CTRL_D]) s s2); [now rewrite E|exact Hinv]. }
  pose proof Hinv1 as ((Hbl1 & _) & _).
  assert (Hin2 : input s2 = input sb) by reflexivity.
  assert (Hk2 : proc_killed s2 = 0).
  { change (proc_killed s2) with (proc_killed sb).
    destruct Henvb as (_ & _ & Hkb & _). congruence. }
  assert (Hat2 : holds_at s2 (input_r (input s2)) (body ++ [CTRL_D])).
  { intros i x Hi. unfold buf_get. rewrite Hin2, Hinb. simpl.
    rewrite buf_get_insert by exact Hbl1. rewrite Hr1, He1, Her.
    destruct (Nat.lt_ge_cases i (length body)) as [Hlt|Hge].
    - rewrite lookup_app_l in Hi by exact Hlt.
      destruct (Z.eqb_spec ((input_r (input s) + Z.of_nat i) mod INPUT_BUF)
                  (to_uint (input_r (input s) + Z.of_nat (length body)) mod INPUT_BUF))
        as [Heq|_].
      + exfalso. uint_arith.
      + rewrite <- Her. apply (Hat1 i x Hi).
    - assert (i = length body).
      { apply lookup_lt_Some in Hi. rewrite length_app in Hi. simpl in Hi. lia. }
      subst i. rewrite lookup_app_r, Nat.sub_diag in Hi by lia.
      injection Hi as <-.
      replace ((input_r (input s) + Z.of_nat (length body)) mod INPUT_BUF
               =? to_uint (input_r (input s) + Z.of_nat (length body)) mod INPUT_BUF)
        with true; [reflexivity|].
      symmetry. apply Z.eqb_eq. uint_arith. }
  assert (Hav2 : available (input s2) = Z.of_nat (length body) + 1).
  { unfold available. rewrite Hin2, Hinb. simpl. rewrite He1, Hr1, Her. uint_arith. }
  (* the first read *)
  set (s20 := emit (EAcquire InputLock) (emit EIunlock s2)).
  set (r3 := to_uint (input_r (input s) + Z.of_nat (length body))).
  set (s3 := emit EIlock (emit (ERelease InputLock) (set_r r3 s20))).
  assert (Er1 : consoleread n1 s2 = RDone (Z.of_nat (length body)) body s3).
  { unfold consoleread. fold s20.
    rewrite (read_until_eof body (Z.to_nat n1) (to_uint n1) n1 [] s20).
    - unfold consoleread_exit. simpl app.
      rewrite map_to_char_id
        by (eapply Forall_impl; [exact Hord|apply ordinary_is_char]).
      rewrite to_int_count by lia.
      replace (n1 - (n1 - Z.of_nat (length body))) with (Z.of_nat (length body)) by lia.
      change (input_r (input s20)) with (input_r (input sb)).
      rewrite Hinb. simpl. rewrite Hr1. reflexivity.
    - eapply Forall_impl; [exact Hord|apply ordinary_plain].
    - exact Hat2.
    - lia.
    - lia.
    - change (input s20) with (input s2). lia.
    - exact Hinv2.
    - unfold to_uint. change (2 ^ 31) with 2147483648 in *.
      change (2 ^ 32) with 4294967296.
      rewrite !Z.mod_small by lia. lia. }
  assert (Hin3 : input s3 = mkInput (input_buf (input sb)) r3
                              (input_w (input sb)) (input_e (input sb)))
    by reflexivity.
  (* the second read *)
  assert (Hne3 : input_r (input s3) <> input_w (input s3)).
  { rewrite Hin3, Hinb. simpl. rewrite He1, Her. subst r3. uint_arith. }
  assert (Hc3 : buf_get (input_r (input s3)) s3 = CTRL_D).
  { unfold buf_get. rewrite Hin3, Hinb. simpl.
    rewrite buf_get_insert by exact Hbl1. rewrite He1, Her. fold r3.
    now rewrite Z.eqb_refl. }
  exists s2. exists s3. eexists. eexists.
  split; [exact E|]. split; [exact Er1|]. split.
  { apply consoleread_eof_first; [exact Hn2|exact Hne3|exact Hc3]. }
  apply consoleread_blocks; [exact Hn3| |exact Hk2].
  simpl. rewrite Hinb. simpl. rewrite He1, Her. reflexivity.
Qed.

Lemma eof_after_text_witness :
  exists s1 s2 s3 s4,
    consoleintr (hello ++ [CTRL_D]) idle = Ret tt s1
    /\ consoleread 100 s1 = RDone (Z.of_nat (length hello)) hello s2
    /\ consoleread 100 s2 = RDone 0 [] s3
    /\ consoleread 100 s3 = RBlocked (to_uint 100) 100 [] s4.
Proof.
  apply (eof_after_text hello 100 100 100 idle).
  - reflexivity.
  - vm_compute. split; [discriminate|reflexivity].
  - reflexivity.
  - vm_compute. repeat split; discriminate.
  - reflexivity.
  - reflexivity.
  - repeat (constructor; [vm_compute; repeat split; discriminate|]). constructor.
  - discriminate.
  - vm_compute. reflexivity.
  - vm_compute. split; reflexivity.
  - lia.
  - lia.
Defined.

Lemma consputc_backspace_uart color s :
  panicked s = 0 -> on_screen s ->
  exists s',
    consputc BACKSPACE color s = Ret tt s'
    /\ same_core s s'
    /\ on_screen s'
    /\ uart_out (trace s') = uart_out (trace s) ++ ERASE.
Proof.
  intros Hp Hon.
  destruct (consputc_ok BACKSPACE color s Hp Hon) as (s' & E & Hcore & Hon' & Hu).
  exists s'. split; [exact E|]. split; [exact Hcore|]. split; [exact Hon'|].
  exact Hu.
Qed.

Lemma buf_get_congr x y s :
  x mod INPUT_BUF = y mod INPUT_BUF -> buf_get x s = buf_get y s.
Proof. unfold buf_get. now intros ->. Qed.

(** Backspace and delete: with nothing typed since the last commit the key
    does nothing at all, whatever the state of the machine; otherwise, on
    a machine that has not panicked and has its cursor on the page, it
    takes [e] back by one and sends the erase sequence, backspace, space,
    backspace, to the serial port. The buffer, [r] and [w] stay as they
    are. *)
Theorem backspace_erases_one (c : Z) (s : State) :
  c = CTRL_H \/ c = 127 ->
  (input_e (input s) = input_w (input s) -> consoleintr_char c s = Ret tt s)
  /\ (input_e (input s) <> input_w (input s) ->
      panicked s = 0 -> on_screen s ->
      exists s',
        consoleintr_char c s = Ret tt s'
        /\ input s' = mkInput (input_buf (input s)) (input_r (input s))
                              (input_w (input s)) (to_uint (input_e (input s) - 1))
        /\ uart_out (trace s') = uart_out (trace s) ++ ERASE).
Proof.
  intros Hc.
  assert (Hd : consoleintr_char c s
               = if negb (input_e (input s) =? input_w (input s))
                 then (lift (set_e (to_uint (input_e (input s) - 1)))
                       >> consputc BACKSPACE DEFAULT_CONSOLE_COLOR) s
                 else Ret tt s)
    by (destruct Hc as [-> | ->]; reflexivity).
  rewrite Hd.
  destruct (Z.eqb_spec (input_e (input s)) (input_w (input s))) as [Heq|Hne];
    change (negb true) with false; change (negb false) with true; cbv iota.
  { split; [reflexivity|]. intros H. contradiction. }
  split; [intros H; contradiction|]. intros _ Hp Hon.
  unfold bind, lift.
  set (s1 := set_e (to_uint (input_e (input s) - 1)) s).
  destruct (consputc_backspace_uart DEFAULT_CONSOLE_COLOR s1 Hp Hon)
    as (s2 & E2 & (_ & _ & Hi2 & _) & _ & Hu2).
  rewrite E2. exists s2. split; [reflexivity|].
  split; [rewrite Hi2; reflexivity|exact Hu2].
Qed.

Lemma backspace_erases_one_witness :
  exists s',
    consoleintr_char CTRL_H hello_pending = Ret tt s'
    /\ input s' = mkInput (input_buf (input hello_pending))
                          (input_r (input hello_pending))
                          (input_w (input hello_pending))
                          (to_uint (input_e (input hello_pending) - 1))
    /\ uart_out (trace s') = uart_out (trace hello_pending) ++ ERASE.
Proof.
  destruct (backspace_erases_one CTRL_H hello_pending) as (_ & Herase);
    [now left|].
  apply Herase.
  - vm_compute. discriminate.
  - reflexivity.
  - vm_compute. split; [discriminate|reflexivity].
Defined.

(** The rounds of kill-line, when no newline sits in the uncommitted part
    of the ring. *)
Lemma kill_line_rounds (k : nat) :
  forall s,
    panicked s = 0 -> on_screen s -> ring_inv (input s) ->
    uncommitted (input s) = Z.of_nat k ->
    (forall j, 0 <= j < Z.of_nat k -> buf_get (input_w (input s) + j) s <> NEWLINE) ->
    exists s',
      kill_line k s = Ret tt s'
      /\ panicked s' = 0
      /\ input s' = mkInput (input_buf (input s)) (input_r (input s))
                            (input_w (input s)) (input_w (input s))
      /\ uart_out (trace s') = uart_out (trace s) ++ mjoin (replicate k ERASE).
Proof.
  induction k as [|k IH]; intros s Hp Hon Hinv Hk Hnl.
  { exists s. simpl. rewrite app_nil_r.
    split; [reflexivity|]. split; [exact Hp|]. split; [|reflexivity].
    destruct Hinv as ((_ & _ & Hw & He) & _). unfold uncommitted in Hk.
    assert (Heq : input_e (input s) = input_w (input s)) by uint_arith.
    destruct (input s) as [b r w e]. simpl in *. now subst. }
  pose proof Hinv as ((Hl & Hr & Hw & He) & Hb).
  simpl kill_line.
  assert (Hne : input_e (input s) <> input_w (input s)).
  { intros Heq. unfold uncommitted in Hk. rewrite Heq, Z.sub_diag in Hk.
    change (to_uint 0) with 0 in Hk. lia. }
  destruct (Z.eqb_spec (input_e (input s)) (input_w (input s))) as [|_];
    [contradiction|].
  assert (Hlast : buf_get (to_uint (input_e (input s) - 1)) s <> NEWLINE).
  { rewrite (buf_get_congr _ (input_w (input s) + Z.of_nat k)).
    - apply Hnl. lia.
    - unfold uncommitted in Hk. rewrite Nat2Z.inj_succ in Hk. uint_arith. }
  destruct (Z.eqb_spec (buf_get (to_uint (input_e (input s) - 1)) s) NEWLINE) as [|_];
    [contradiction|].
  simpl negb. simpl andb. cbv iota. unfold bind, lift.
  set (s1 := set_e (to_uint (input_e (input s) - 1)) s).
  destruct (consputc_backspace_uart DEFAULT_CONSOLE_COLOR s1 Hp Hon)
    as (s2 & E2 & (Hp2 & _ & Hi2 & _) & Hon2 & Hu2).
  rewrite E2.
  destruct (erase_keeps_inv (input s) Hinv Hne) as (Hinv1 & _ & _).
  change (mkInput _ _ _ _) with (input s1) in Hinv1.
  destruct (IH s2) as (s' & E' & Hp' & Hi' & Hu').
  - rewrite Hp2. exact Hp.
  - exact Hon2.
  - rewrite Hi2. exact Hinv1.
  - rewrite Hi2. unfold uncommitted in *. simpl.
    rewrite Nat2Z.inj_succ in Hk. uint_arith.
  - intros j Hj. rewrite Hi2.
    change (buf_get (input_w (input s1) + j) s2)
      with (default 0 (input_buf (input s2)
                       !! Z.to_nat ((input_w (input s1) + j) mod INPUT_BUF))).
    rewrite Hi2. apply (Hnl j). lia.
  - exists s'. split; [exact E'|]. split; [exact Hp'|].
    split; [rewrite Hi', Hi2; reflexivity|].
    rewrite Hu', Hu2. simpl. rewrite <- !app_assoc. reflexivity.
Qed.

(** Kill-line, with no newline among the characters typed since the last
    commit, on a machine that has not panicked and has its cursor on the
    page: it takes [e] back to [w], sends one erase sequence per character
    erased, and leaves the buffer, [r] and [w] as they are. *)
Theorem kill_line_erases_uncommitted (s : State) :
  panicked s = 0 -> on_screen s -> ring_inv (input s) ->
  (forall j, 0 <= j < uncommitted (input s) ->
             buf_get (input_w (input s) + j) s <> NEWLINE) ->
  exists s',
    consoleintr_char CTRL_U s = Ret tt s'
    /\ input s' = mkInput (input_buf (input s)) (input_r (input s))
                          (input_w (input s)) (input_w (input s))
    /\ uart_out (trace s')
       = uart_out (trace s)
         ++ mjoin (replicate (Z.to_nat (uncommitted (input s))) ERASE).
Proof.
  intros Hp Hon Hinv Hnl.
  change (consoleintr_char CTRL_U s)
    with (kill_line (Z.to_nat (uncommitted (input s))) s).
  assert (Hk : 0 <= uncommitted (input s)).
  { unfold uncommitted, to_uint. apply Z.mod_pos_bound. reflexivity. }
  destruct (kill_line_rounds (Z.to_nat (uncommitted (input s))) s Hp Hon Hinv)
    as (s' & E & _ & Hi & Hu).
  - lia.
  - intros j Hj. apply Hnl. lia.
  - exists s'. repeat split; assumption.
Qed.

Lemma kill_line_erases_uncommitted_witness :
  exists s',
    consoleintr_char CTRL_U hello_pending = Ret tt s'
    /\ input s' = mkInput (input_buf (input hello_pending))
                          (input_r (input hello_pending))
                          (input_w (input hello_pending))
                          (input_w (input hello_pending))
    /\ uart_out (trace s')
       = uart_out (trace hello_pending)
         ++ mjoin (replicate (Z.to_nat (uncommitted (input hello_pending))) ERASE).
Proof.
  apply (kill_line_erases_uncommitted hello_pending).
  - reflexivity.
  - vm_compute. split; [discriminate|reflexivity].
  - vm_compute. repeat split; discriminate.
  - change (uncommitted (input hello_pending)) with 5.
    change (input_w (input hello_pending)) with 0.
    intros j Hj.
    assert (Hc : j = 0 \/ j = 1 \/ j = 2 \/ j = 3 \/ j = 4) by lia.
    destruct Hc as [-> | [-> | [-> | [-> | ->]]]]; vm_compute; discriminate.
Defined.

(** Where [cgaputc] leaves the cursor, and what it leaves of the page. *)
Lemma cgaputc_page c color s :
  on_page s ->
  exists s',
    cgaputc c color s = Some s'
    /\ cursor_pos s'
       = (if c =? NEWLINE then
            (if cursor_pos s / COLUMNS <? 23
             then COLUMNS * (cursor_pos s / COLUMNS + 1) else 23 * COLUMNS)
          else if c =? BACKSPACE then Z.max 0 (cursor_pos s - 1)
          else if cursor_pos s + 1 <? 24 * COLUMNS
               then cursor_pos s + 1 else 23 * COLUMNS)
    /\ 0 <= cursor_pos s' < 24 * COLUMNS
    /\ length (crt s') = length (crt s)
    /\ crt s' !! Z.to_nat (cursor_pos s') = Some CARET.
Proof.
  intros ((Hlo & Hhi) & Hlen).
  rewrite cgaputc_eq.
  set (s0 := outb CRTPORT 15 (outb CRTPORT 14 s)).
  assert (Hcrt0 : crt s0 = crt s) by (unfold s0; now rewrite !outb_crt).
  set (target := if c =? NEWLINE then
       (if cursor_pos s / COLUMNS <? 23
        then COLUMNS * (cursor_pos s / COLUMNS + 1) else 23 * COLUMNS)
     else if c =? BACKSPACE then Z.max 0 (cursor_pos s - 1)
     else if cursor_pos s + 1 <? 24 * COLUMNS
          then cursor_pos s + 1 else 23 * COLUMNS).
  destruct (cga_advance c color (cursor_pos s) s0) as [pos1 s1] eqn:E1.
  assert (H1 : 0 <= pos1 <= 24 * COLUMNS
               /\ (if pos1 <? 24 * COLUMNS then pos1 else pos1 - COLUMNS) = target
               /\ length (crt s1) = length (crt s)).
  { unfold cga_advance in E1. unfold target.
    destruct (c =? NEWLINE).
    { injection E1 as <- <-. rewrite Hcrt0.
      rewrite Z.rem_mod_nonneg by (unfold COLUMNS; lia).
      unfold COLUMNS in *.
      destruct (Z.ltb_spec (cursor_pos s / 80) 23);
        destruct (Z.ltb_spec (cursor_pos s + (80 - cursor_pos s mod 80)) (24 * 80));
        repeat split; try reflexivity;
        Z.to_euclidean_division_equations; lia. }
    destruct (c =? BACKSPACE).
    { injection E1 as <- <-. rewrite Hcrt0. unfold COLUMNS in *.
      destruct (Z.gtb_spec (cursor_pos s) 0);
        match goal with
        | |- context [?a <? ?b] => destruct (Z.ltb_spec a b)
        end; repeat split; lia. }
    injection E1 as <- <-. unfold COLUMNS in *.
    destruct (Z.ltb_spec (cursor_pos s + 1) (24 * 80));
      (split; [lia|]); (split; [lia|]);
      change (crt (crt_store ?p ?v s0)) with (<[Z.to_nat p := v]> (crt s0));
      now rewrite length_insert, Hcrt0. }
  destruct H1 as (Hr1 & Ht1 & Hl1).
  destruct (cga_scroll_defined pos1 s1) as (s2 & E2 & Hl2 & _);
    [unfold COLUMNS in *; lia|].
  rewrite E2, Ht1.
  assert (Hr2 : 0 <= target < 24 * COLUMNS).
  { rewrite <- Ht1. unfold COLUMNS in *.
    destruct (Z.ltb_spec pos1 (24 * 80)); lia. }
  eexists. split; [reflexivity|].
  destruct (cga_finish_spec target s2) as (Hcrt & _ & _ & Hcur).
  rewrite Hcur by (unfold COLUMNS in *; lia).
  rewrite Hcrt, length_insert, Hl2, Hl1.
  split; [reflexivity|]. split; [exact Hr2|]. split; [reflexivity|].
  apply list_lookup_insert_eq. rewrite Hl2, Hl1. unfold COLUMNS in *. lia.
Qed.

(** [cgaputc] with the cursor on the 24 rows that scroll: it has a result;
    a newline takes the cursor to the start of the next row, a [BACKSPACE]
    one cell back unless it is at the top left, any other character one
    cell on; what would leave row 23 scrolls instead and ends at the start
    of row 23. The cursor is on those rows again, the page has kept its
    length, and the caret is under the cursor. *)
Theorem cgaputc_moves_cursor (c color : Z) (s : State) :
  0 <= cursor_pos s < 24 * COLUMNS ->
  24 * COLUMNS <= Z.of_nat (length (crt s)) ->
  exists s',
    cgaputc c color s = Some s'
    /\ (c = NEWLINE ->
        cursor_pos s' = COLUMNS * Z.min 23 (cursor_pos s / COLUMNS + 1))
    /\ (c = BACKSPACE -> cursor_pos s' = Z.max 0 (cursor_pos s - 1))
    /\ (c <> NEWLINE -> c <> BACKSPACE ->
        cursor_pos s' = if cursor_pos s + 1 <? 24 * COLUMNS
                        then cursor_pos s + 1 else 23 * COLUMNS)
    /\ 0 <= cursor_pos s' < 24 * COLUMNS
    /\ length (crt s') = length (crt s)
    /\ crt s' !! Z.to_nat (cursor_pos s') = Some CARET.
Proof.
  intros Hc Hl.
  destruct (cgaputc_page c color s (conj Hc Hl)) as (s' & E & Hpos & Hr & Hlen & Hcar).
  exists s'. split; [exact E|].
  split; [|split; [|split; [|split; [exact Hr|split; [exact Hlen|exact Hcar]]]]].
  - intros ->. rewrite Hpos. change (NEWLINE =? NEWLINE) with true. cbv iota.
    unfold COLUMNS.
    destruct (Z.ltb_spec (cursor_pos s / 80) 23); lia.
  - intros ->. rewrite Hpos. reflexivity.
  - intros Hn Hb. rewrite Hpos.
    destruct (Z.eqb_spec c NEWLINE); [contradiction|].
    destruct (Z.eqb_spec c BACKSPACE); [contradiction|]. reflexivity.
Qed.

Lemma cgaputc_moves_cursor_witness :
  exists s',
    cgaputc NEWLINE DEFAULT_CONSOLE_COLOR idle = Some s'
    /\ (NEWLINE = NEWLINE ->
        cursor_pos s' = COLUMNS * Z.min 23 (cursor_pos idle / COLUMNS + 1))
    /\ (NEWLINE = BACKSPACE -> cursor_pos s' = Z.max 0 (cursor_pos idle - 1))
    /\ (NEWLINE <> NEWLINE -> NEWLINE <> BACKSPACE ->
        cursor_pos s' = if cursor_pos idle + 1 <? 24 * COLUMNS
                        then cursor_pos idle + 1 else 23 * COLUMNS)
    /\ 0 <= cursor_pos s' < 24 * COLUMNS
    /\ length (crt s') = length (crt idle)
    /\ crt s' !! Z.to_nat (cursor_pos s') = Some CARET.
Proof.
  apply (cgaputc_moves_cursor NEWLINE DEFAULT_CONSOLE_COLOR idle).
  - vm_compute. split; [discriminate|reflexivity].
  - vm_compute. discriminate.
Defined.

(** ** The cursor stays on the page *)

Lemma keeps_page_refl s : keeps_page s s.
Proof. intros H. split; [exact H|reflexivity]. Qed.

Lemma keeps_page_trans s1 s2 s3 :
  keeps_page s1 s2 -> keeps_page s2 s3 -> keeps_page s1 s3.
Proof.
  intros H12 H23 H1. destruct (H12 H1) as (H2 & L2).
  destruct (H23 H2) as (H3 & L3). split; [exact H3|congruence].
Qed.

(** A step that touches neither the page nor the CRT registers. *)
Lemma keeps_page_frame s s' :
  crt s' = crt s -> crtc s' = crtc s -> keeps_page s s'.
Proof.
  intros Hc Hr H. unfold on_page, cursor_pos, reg_get in *.
  rewrite Hc, Hr. split; [exact H|reflexivity].
Qed.

Lemma page_lift f :
  (forall s, crt (f s) = crt s) -> (forall s, crtc (f s) = crtc s) ->
  relates keeps_page (lift f).
Proof. intros Hc Hr s. apply keeps_page_frame; [apply Hc|apply Hr]. Qed.

Lemma page_emit ev : relates keeps_page (lift (emit ev)).
Proof. apply page_lift; reflexivity. Qed.

Lemma page_ret {A} (a : A) : relates keeps_page (ret a).
Proof. apply relates_ret, keeps_page_refl. Qed.

Lemma page_bind {A B} (m : M A) (k : A -> M B) :
  relates keeps_page m -> (forall a, relates keeps_page (k a)) ->
  relates keeps_page (bind m k).
Proof. apply relates_bind, keeps_page_trans. Qed.

Lemma page_consputc c color : relates keeps_page (consputc c color).
Proof.
  intros s. unfold consputc.
  destruct (panicked s =? 0); [|apply keeps_page_frame; reflexivity].
  set (s1 := if c =? BACKSPACE then _ else _).
  assert (H1 : keeps_page s s1).
  { unfold s1. destruct (c =? BACKSPACE); apply keeps_page_frame; reflexivity. }
  destruct (cgaputc c color s1) as [s'|] eqn:E; [|exact I].
  eapply keeps_page_trans; [exact H1|].
  intros Hp. destruct (cgaputc_page c color s1 Hp) as (s2 & E2 & _ & Hr & Hl & _).
  rewrite E in E2. injection E2 as <-.
  split; [|exact Hl]. split; [exact Hr|]. rewrite Hl. apply Hp.
Qed.

#[local] Hint Resolve page_ret page_bind page_emit page_consputc : page_db.

#[local] Hint Extern 1 (relates keeps_page (@undefined _)) =>
  apply relates_undefined : page_db.

Lemma page_kill_line fuel : relates keeps_page (kill_line fuel).
Proof.
  induction fuel as [|fuel IH]; intros s; simpl; [apply keeps_page_refl|].
  destruct (_ && _); [|apply keeps_page_refl].
  apply page_bind; [apply page_lift; reflexivity|intros _].
  apply page_bind; [apply page_consputc|intros _; exact IH].
Qed.

Lemma page_consoleintr_default c : relates keeps_page (consoleintr_default c).
Proof.
  intros s. unfold consoleintr_default.
  destruct (_ && _); [|apply keeps_page_refl].
  set (c' := if c =? CARRIAGE_RETURN then NEWLINE else c).
  set (s1 := set_e _ _).
  assert (H1 : keeps_page s s1) by (apply keeps_page_frame; reflexivity).
  unfold bind. pose proof (page_consputc c' DEFAULT_CONSOLE_COLOR s1) as H2.
  destruct (consputc c' DEFAULT_CONSOLE_COLOR s1) as [[] s2|s2|]; [| |exact I].
  - pose proof (keeps_page_trans _ _ _ H1 H2) as H3.
    destruct (_ || _); [|assumption].
    eapply keeps_page_trans; [exact H3|]. apply keeps_page_frame; reflexivity.
  - exact (keeps_page_trans _ _ _ H1 H2).
Qed.

Lemma page_consoleintr_char c : relates keeps_page (consoleintr_char c).
Proof.
  unfold consoleintr_char.
  destruct (c =? CTRL_Z); [apply page_emit|].
  destruct (c =? CTRL_P); [apply page_emit|].
  destruct (c =? CTRL_U).
  { intros s. apply page_kill_line. }
  destruct (_ || _); [|apply page_consoleintr_default].
  intros s. destruct (negb _); [|apply keeps_page_refl].
  apply page_bind; [apply page_lift; reflexivity|intros _; apply page_consputc].
Qed.

Lemma page_consoleintr keys : relates keeps_page (consoleintr keys).
Proof.
  unfold consoleintr.
  apply page_bind; [apply page_emit|intros _].
  apply page_bind; [|intros _; apply page_emit].
  induction keys as [|c keys IH]; simpl; [apply page_ret|].
  destruct (c >=? 0); [|apply page_ret].
  apply page_bind; [apply page_consoleintr_char|auto].
Qed.

Lemma page_consolewrite buf n : relates keeps_page (consolewrite buf n).
Proof.
  unfold consolewrite.
  assert (Hloop : forall k i, relates keeps_page (consolewrite_loop buf i k)).
  { induction k as [|k IH]; intros i; simpl; [apply page_ret|].
    destruct (buf !! i); [|apply relates_undefined].
    apply page_bind; [apply page_consputc|auto]. }
  repeat (apply page_bind; [first [apply page_emit|apply Hloop]|intros _]).
  apply page_ret.
Qed.

Lemma page_puts p color : relates keeps_page (puts p color).
Proof.
  induction p as [|ch p IH]; simpl; [auto with page_db|].
  destruct (ch =? 0); auto with page_db.
Qed.

Lemma page_putrev p color : relates keeps_page (putrev p color).
Proof. induction p as [|ch p IH]; simpl; auto with page_db. Qed.

Lemma page_printint xx base sign color :
  relates keeps_page (printint xx base sign color).
Proof.
  unfold printint. destruct (printint_digits _ _ _ _); [|auto with page_db].
  destruct (_ <? _); auto using page_putrev with page_db.
Qed.

Lemma page_printptr sz x color : relates keeps_page (printptr sz x color).
Proof.
  unfold printptr. generalize (Z.to_nat (sz * 2)) as n. intros n. revert x.
  induction n as [|n IH]; intros x; simpl; auto with page_db.
Qed.

#[local] Hint Resolve page_puts page_putrev page_printint page_printptr : page_db.

Lemma page_cprintf_loop sz fmt :
  forall ap color, relates keeps_page (cprintf_loop sz fmt ap color).
Proof.
  induction fmt as [fmt IH] using (induction_ltof1 _ (@length Z)).
  unfold ltof in IH. intros ap color.
  destruct fmt as [|ch fmt1]; simpl; [auto with page_db|].
  destruct (Z.land ch 255 =? 0); [auto with page_db|].
  destruct (negb (Z.land ch 255 =? PERCENT)).
  { apply page_bind; [auto with page_db|]. intros _. apply IH. simpl. lia. }
  destruct fmt1 as [|ch2 fmt2]; [auto with page_db|].
  assert (Hrec : forall ap', relates keeps_page (cprintf_loop sz fmt2 ap' color)).
  { intros ap'. apply IH. simpl. lia. }
  destruct (Z.land ch2 255 =? 0); [auto with page_db|].
  repeat match goal with
         | |- relates _ (if ?b then _ else _) => destruct b
         | |- relates _ (match ?a with _ => _ end) => destruct a
         end; auto 6 with page_db.
Qed.

Lemma page_when b (m : M unit) :
  relates keeps_page m -> relates keeps_page (when b m).
Proof. destruct b; simpl; auto with page_db. Qed.

Lemma page_cprintf_fmt sz fmt ap : relates keeps_page (cprintf_fmt sz fmt ap).
Proof.
  unfold cprintf_fmt.
  apply (relates_fun keeps_page
           (fun s0 => when (negb (cons_locking s0 =? 0)) (lift (emit (EAcquire ConsLock)))
                      >> cprintf_loop sz fmt ap DEFAULT_CONSOLE_COLOR
                      >> when (negb (cons_locking s0 =? 0)) (lift (emit (ERelease ConsLock))))).
  intros s0. auto 6 using page_when, page_cprintf_loop with page_db.
Qed.

Lemma page_panic_pcs sz pcs : forall i, relates keeps_page (panic_pcs sz i pcs).
Proof.
  induction pcs as [|pc pcs IH]; intros i; simpl; [apply page_ret|].
  destruct (pc =? 0); [apply page_ret|].
  apply page_bind; [apply page_cprintf_fmt|intros _; apply IH].
Qed.

Lemma page_panic_with sz message :
  relates keeps_page message -> relates keeps_page (panic_with sz message).
Proof.
  intros Hm. unfold panic_with.
  repeat (apply page_bind; [|intros _]);
    try exact Hm; try apply page_cprintf_fmt;
    try (apply page_lift; reflexivity).
  - apply (relates_fun keeps_page (fun s0 => cprintf_fmt sz _ [AInt (cpu_id s0)])).
    intros s0. apply page_cprintf_fmt.
  - apply (relates_fun keeps_page (fun s0 => panic_pcs sz 0 (take 10 (callerpcs s0)))).
    intros s0. apply page_panic_pcs.
Qed.

Lemma page_cprintf sz fmt ap : relates keeps_page (cprintf sz fmt ap).
Proof.
  destruct fmt as [f|]; simpl; [apply page_cprintf_fmt|].
  apply (relates_fun keeps_page
           (fun s0 => when (negb (cons_locking s0 =? 0)) (lift (emit (EAcquire ConsLock)))
                      >> panic_with sz (cprintf_fmt sz (str "null fmt") []))).
  intros s0. apply page_bind; [|intros _].
  - apply page_when, page_emit.
  - apply page_panic_with, page_cprintf_fmt.
Qed.

Lemma page_read s s' : read_step s s' -> keeps_page s s'.
Proof.
  unfold read_step. intros H. apply keeps_page_frame.
  - exact (f_equal crt H).
  - exact (f_equal crtc H).
Qed.

Lemma page_run sz o s s' : run sz o s = Some s' -> keeps_page s s'.
Proof.
  intros E. destruct o; simpl in E.
  - eapply relates_final; [apply page_consoleintr|exact E].
  - apply page_read. injection E as <-. apply consoleread_step.
  - apply page_read. injection E as <-. apply consoleread_loop_step, read_step_refl.
  - eapply relates_final; [apply page_consolewrite|exact E].
  - eapply relates_final; [apply page_cprintf|exact E].
  - eapply relates_final; [apply page_panic_with, page_cprintf|exact E].
  - eapply relates_final; [apply page_consputc|exact E].
Qed.

(** Once the cursor is on the 24 rows that scroll, every sequence of
    operations of the driver leaves it there, and leaves the page as long
    as it was: no call stores a cell or the caret past row 23, and the
    [memset] of a scroll never gets a negative count. *)
Theorem cursor_stays_on_page (sz : Z) (os : list operation) (s s' : State) :
  0 <= cursor_pos s < 24 * COLUMNS ->
  24 * COLUMNS <= Z.of_nat (length (crt s)) ->
  run_all sz os s = Some s' ->
  0 <= cursor_pos s' < 24 * COLUMNS /\ length (crt s') = length (crt s).
Proof.
  intros Hc Hl. pose proof (conj Hc Hl : on_page s) as Hp. clear Hc Hl.
  revert s Hp. induction os as [|o os IH]; intros s Hp E; simpl in E.
  { injection E as <-. split; [apply Hp|reflexivity]. }
  destruct (run sz o s) as [s1|] eqn:E1; [|discriminate].
  destruct (page_run sz o s s1 E1 Hp) as (Hp1 & L1).
  destruct (IH s1 Hp1 E) as (Hc' & L'). split; [exact Hc'|congruence].
Qed.

Lemma cursor_stays_on_page_witness :
  0 <= cursor_pos hello_typed < 24 * COLUMNS
  /\ length (crt hello_typed) = length (crt idle).
Proof.
  apply (cursor_stays_on_page 4 [OpIntr (hello ++ [NEWLINE])] idle hello_typed).
  - vm_compute. split; [discriminate|reflexivity].
  - vm_compute. discriminate.
  - vm_compute. reflexivity.
Defined.

Lemma consolewrite_loop_uart buf :
  forall n i s,
    panicked s = 0 -> on_screen s -> (i + n <= length buf)%nat ->
    exists s',
      consolewrite_loop buf i n s = Ret tt s'
      /\ panicked s' = 0
      /\ on_screen s'
      /\ uart_out (trace s') = uart_out (trace s) ++ (byte_of <$> take n (drop i buf)).
Proof.
  induction n as [|n IH]; intros i s Hp Hon Hlen; simpl.
  { exists s. rewrite app_nil_r. split; [reflexivity|]. split; [exact Hp|].
    split; [exact Hon|reflexivity]. }
  destruct (lookup_lt_is_Some_2 buf i) as (b & Hb); [lia|].
  rewrite Hb. rewrite (drop_S _ _ _ Hb). simpl.
  destruct (consputc_uart (Z.land b 255) DEFAULT_CONSOLE_COLOR s Hp Hon
              (land_byte_not_backspace b)) as (s1 & E1 & Hp1 & Hon1 & Hu1).
  unfold bind. rewrite E1.
  destruct (IH (S i) s1 Hp1 Hon1) as (s' & E' & Hp' & Hon' & Hu'); [lia|].
  exists s'. split; [exact E'|]. split; [exact Hp'|]. split; [exact Hon'|].
  rewrite Hu', Hu1, <- app_assoc. reflexivity.
Qed.

(** [consolewrite] of the first [n] bytes of a buffer that has them, on a
    console that has not panicked and has its cursor on the page: it
    returns [n], the serial port receives those bytes, each cut to eight
    bits, in order, and the input ring is not touched. A negative [n]
    writes nothing and is returned as it is. *)
Theorem consolewrite_sends_every_byte (buf : list Z) (n : Z) (s : State) :
  panicked s = 0 -> on_screen s -> n <= Z.of_nat (length buf) ->
  exists s',
    consolewrite buf n s = Ret n s'
    /\ uart_out (trace s')
       = uart_out (trace s) ++ (byte_of <$> take (Z.to_nat n) buf)
    /\ input s' = input s
    /\ panicked s' = 0.
Proof.
  intros Hp Hon Hn.
  pose proof (core_consolewrite buf n s) as Hcore.
  unfold consolewrite in *. unfold bind, lift in *.
  set (s1 := emit (EAcquire ConsLock) (emit EIunlock s)) in *.
  destruct (consolewrite_loop_uart buf (Z.to_nat n) 0 s1 Hp Hon)
    as (s2 & E2 & Hp2 & _ & Hu2); [lia|].
  rewrite E2 in *. unfold ret in *.
  eexists. split; [reflexivity|].
  destruct Hcore as (_ & _ & Hi & _).
  split; [|split; [exact Hi|exact Hp2]].
  match goal with
  | |- uart_out (trace ?x) = _ =>
      change (trace x) with ((trace s2 ++ [ERelease ConsLock]) ++ [EIlock])
  end.
  rewrite !uart_out_app, Hu2. simpl. rewrite !app_nil_r.
  change (trace s1) with ((trace s ++ [EIunlock]) ++ [EAcquire ConsLock]).
  rewrite !uart_out_app. simpl. rewrite !app_nil_r. reflexivity.
Qed.

Lemma consolewrite_sends_every_byte_witness :
  exists s',
    consolewrite (hello ++ [1000]) 6 idle = Ret 6 s'
    /\ uart_out (trace s')
       = uart_out (trace idle) ++ (byte_of <$> take (Z.to_nat 6) (hello ++ [1000]))
    /\ input s' = input idle
    /\ panicked s' = 0.
Proof.
  apply (consolewrite_sends_every_byte (hello ++ [1000]) 6 idle).
  - reflexivity.
  - vm_compute. split; [discriminate|reflexivity].
  - vm_compute. discriminate.
Defined.

Lemma number_snoc base ds d : number base (ds ++ [d]) = number base ds * base + d.
Proof. unfold number. now rewrite fold_left_app. Qed.

Lemma number_nonneg base ds :
  0 <= base -> Forall (fun d => 0 <= d < base) ds -> 0 <= number base ds.
Proof.
  intros Hb. induction ds as [|d ds IH] using rev_ind; intros H; [reflexivity|].
  apply Forall_app in H as (H1 & H2). apply Forall_cons in H2 as (Hd & _).
  rewrite number_snoc. specialize (IH H1). nia.
Qed.

(** The [do ... while] of [printint]: the digits of [x], least significant
    first, after what [buf] held. *)
Lemma printint_digits_number (base : Z) :
  2 <= base ->
  forall (k fuel : nat) x buf,
    (0 < k <= fuel)%nat -> 0 <= x < base ^ Z.of_nat k ->
    exists ds,
      printint_digits fuel x base buf = Some (buf ++ (digit <$> rev ds))
      /\ (length ds <= k)%nat
      /\ Forall (fun d => 0 <= d < base) ds
      /\ number base ds = x
      /\ no_leading_zero ds.
Proof.
  intros Hb. induction k as [|k IH]; intros fuel x buf Hk Hx; [lia|].
  destruct fuel as [|fuel]; [lia|].
  simpl printint_digits.
  assert (Hm : 0 <= x mod base < base) by (apply Z.mod_pos_bound; lia).
  destruct (Z.eqb_spec (x / base) 0) as [Hq|Hq].
  { exists [x mod base]. split; [reflexivity|]. split; [simpl; lia|].
    split; [repeat constructor; lia|]. split; [|exact I].
    unfold number. simpl. rewrite (Z.div_mod x base) at 2 by lia. lia. }
  rewrite Nat2Z.inj_succ, Z.pow_succ_r in Hx by lia.
  assert (Hr : 0 <= x / base < base ^ Z.of_nat k).
  { split; [apply Z.div_pos; lia|apply Z.div_lt_upper_bound; lia]. }
  assert (Hk' : (0 < k <= fuel)%nat).
  { destruct k; [simpl in Hr; lia|lia]. }
  destruct (IH fuel (x / base) (buf ++ [digit (x mod base)]) Hk' Hr)
    as (ds & E & Hl & Hall & Hnum & Hlead).
  exists (ds ++ [x mod base]). rewrite E.
  split; [rewrite rev_app_distr, <- app_assoc; reflexivity|].
  split; [rewrite length_app; simpl; lia|].
  split; [apply Forall_app; split; [exact Hall|repeat constructor; lia]|].
  split.
  - rewrite number_snoc, Hnum. rewrite (Z.div_mod x base) at 3 by lia. lia.
  - destruct ds as [|d [|d' ds]]; [contradiction| |exact Hlead].
    simpl. unfold number in Hnum. simpl in Hnum. lia.
Qed.

Lemma digit_not_backspace i : digit i <> BACKSPACE.
Proof.
  unfold digit. destruct (digits !! Z.to_nat i) as [ch|] eqn:E; [|discriminate].
  simpl. apply list_elem_of_lookup_2 in E.
  assert (H : Forall (fun c => c <> BACKSPACE) digits).
  { vm_compute. repeat constructor; discriminate. }
  rewrite Forall_forall in H. now apply H.
Qed.

Lemma rev_fmap {A B} (f : A -> B) (l : list A) : rev (f <$> l) = f <$> rev l.
Proof.
  induction l as [|a l IH]; [reflexivity|].
  change (rev (f <$> l) ++ [f a] = f <$> (rev l ++ [a])).
  rewrite IH, fmap_app. reflexivity.
Qed.

(** [while (--i >= 0) consputc(buf[i], color)]: the buffer goes out last
    character first. *)
Lemma putrev_uart color buf :
  forall s,
    panicked s = 0 -> on_screen s -> Forall (fun c => c <> BACKSPACE) buf ->
    exists s',
      putrev buf color s = Ret tt s'
      /\ panicked s' = 0
      /\ on_screen s'
      /\ uart_out (trace s') = uart_out (trace s) ++ rev buf.
Proof.
  induction buf as [|ch buf IH]; intros s Hp Hon Hall; simpl.
  { exists s. rewrite app_nil_r. split; [reflexivity|]. split; [exact Hp|].
    split; [exact Hon|reflexivity]. }
  apply Forall_cons in Hall as (Hch & Hall).
  destruct (IH s Hp Hon Hall) as (s1 & E1 & Hp1 & Hon1 & Hu1).
  unfold bind. rewrite E1.
  destruct (consputc_uart ch color s1 Hp1 Hon1 Hch) as (s' & E' & Hp' & Hon' & Hu').
  exists s'. split; [exact E'|]. split; [exact Hp'|]. split; [exact Hon'|].
  rewrite Hu', Hu1, <- app_assoc. reflexivity.
Qed.

(** [printint] in base 10 or 16, for an [int] other than the least one, on
    a machine that has not panicked and has its cursor on the page: what
    goes out is a minus sign, when the number is printed signed and is
    negative, and then the digits of the magnitude, most significant
    first, with no leading zero. Printed unsigned, a negative number shows
    as its two's complement. *)
Theorem printint_prints_the_number (xx base sign color : Z) (s : State) :
  panicked s = 0 -> on_screen s ->
  base = 10 \/ base = 16 ->
  - 2 ^ 31 < xx < 2 ^ 31 ->
  exists s' ds,
    printint xx base sign color s = Ret tt s'
    /\ panicked s' = 0
    /\ uart_out (trace s')
       = uart_out (trace s)
         ++ (if negb (sign =? 0) && (xx <? 0) then [45] else [])
         ++ (digit <$> ds)
    /\ Forall (fun d => 0 <= d < base) ds
    /\ no_leading_zero ds
    /\ number base ds = (if negb (sign =? 0) then Z.abs xx else to_uint xx).
Proof.
  intros Hp Hon Hbase Hxx. change (2 ^ 31) with 2147483648 in Hxx.
  unfold printint.
  set (sign' := if negb (sign =? 0) then if xx <? 0 then 1 else 0 else sign).
  set (x := if negb (sign' =? 0) then to_uint (- xx) else to_uint xx).
  assert (Hneg : negb (sign' =? 0) = negb (sign =? 0) && (xx <? 0)).
  { unfold sign'. destruct (sign =? 0) eqn:Es; simpl; [now rewrite Es|].
    destruct (xx <? 0); reflexivity. }
  assert (Hx : x = if negb (sign =? 0) then Z.abs xx else to_uint xx).
  { unfold x. rewrite Hneg. unfold to_uint. change (2 ^ 32) with 4294967296.
    destruct (sign =? 0); simpl; [reflexivity|].
    destruct (Z.ltb_spec xx 0); rewrite Z.mod_small by lia; lia. }
  assert (Hrange : 0 <= x < 4294967296).
  { rewrite Hx. destruct (negb (sign =? 0)); [lia|].
    unfold to_uint. change (2 ^ 32) with 4294967296. apply Z.mod_pos_bound. lia. }
  assert (Hb : to_uint base = base) by (destruct Hbase as [-> | ->]; reflexivity).
  rewrite Hb.
  destruct (printint_digits_number base ltac:(lia) 10 16 x [] ltac:(lia))
    as (ds & E & Hl & Hall & Hnum & Hlead).
  { split; [lia|]. apply Z.lt_le_trans with (1 := proj2 Hrange).
    destruct Hbase as [-> | ->]; vm_compute; discriminate. }
  rewrite E. rewrite app_nil_l.
  set (buf := if negb (sign' =? 0) then (digit <$> rev ds) ++ [45] else digit <$> rev ds).
  assert (Hbl : (length buf <= 11)%nat).
  { unfold buf. destruct (negb (sign' =? 0));
      rewrite ?length_app, length_fmap, length_rev; simpl; lia. }
  destruct (Z.ltb_spec 16 (Z.of_nat (length buf))) as [|_]; [lia|].
  assert (Hbs : Forall (fun c => c <> BACKSPACE) buf).
  { unfold buf. destruct (negb (sign' =? 0)); rewrite ?Forall_app, Forall_fmap;
      [split; [|repeat constructor; discriminate]|];
      apply Forall_forall; intros d _; apply digit_not_backspace. }
  destruct (putrev_uart color buf s Hp Hon Hbs) as (s' & E' & Hp' & _ & Hu').
  exists s', ds. split; [exact E'|]. split; [exact Hp'|].
  split; [|split; [exact Hall|split; [exact Hlead|now rewrite Hnum]]].
  rewrite Hu'. f_equal. unfold buf. rewrite <- Hneg.
  destruct (negb (sign' =? 0)).
  - rewrite rev_app_distr, rev_fmap, rev_involutive. reflexivity.
  - rewrite rev_fmap, rev_involutive. reflexivity.
Qed.

Lemma printint_prints_the_number_witness :
  exists s' ds,
    printint (-42) 10 1 DEFAULT_CONSOLE_COLOR idle = Ret tt s'
    /\ panicked s' = 0
    /\ uart_out (trace s')
       = uart_out (trace idle)
         ++ (if negb (1 =? 0) && (-42 <? 0) then [45] else [])
         ++ (digit <$> ds)
    /\ Forall (fun d => 0 <= d < 10) ds
    /\ no_leading_zero ds
    /\ number 10 ds = (if negb (1 =? 0) then Z.abs (-42) else to_uint (-42)).
Proof.
  apply (printint_prints_the_number (-42) 10 1 DEFAULT_CONSOLE_COLOR idle).
  - reflexivity.
  - vm_compute. split; [discriminate|reflexivity].
  - now left.
  - vm_compute. split; reflexivity.
Defined.

(** ** What [printptr] prints *)

Lemma number_cons base d ds :
  number base (d :: ds) = d * base ^ Z.of_nat (length ds) + number base ds.
Proof.
  induction ds as [|e ds IH] using rev_ind.
  { unfold number. simpl. lia. }
  change (d :: ds ++ [e]) with ((d :: ds) ++ [e]).
  rewrite !number_snoc, IH, length_app, Nat2Z.inj_add.
  change (Z.of_nat (length [e])) with 1.
  rewrite Z.pow_add_r by lia. lia.
Qed.

(** The loop of [printptr] with [n] digits to go: [y] is what is left of
    the pointer, moved up to the top of the word. *)
Lemma printptr_loop_number sz color :
  0 < sz ->
  forall (n : nat) y s,
    Z.of_nat n <= 2 * sz -> 0 <= y < 16 ^ Z.of_nat n ->
    panicked s = 0 -> on_screen s ->
    exists s' ds,
      printptr_loop sz n (y * 16 ^ (2 * sz - Z.of_nat n)) color s = Ret tt s'
      /\ panicked s' = 0
      /\ uart_out (trace s') = uart_out (trace s) ++ (digit <$> ds)
      /\ length ds = n
      /\ Forall (fun d => 0 <= d < 16) ds
      /\ number 16 ds = y.
Proof.
  intros Hsz. induction n as [|n IH]; intros y s Hn Hy Hp Hon.
  { exists s, []. simpl. rewrite app_nil_r. simpl in Hy.
    repeat split; try assumption; try constructor. unfold number. simpl. lia. }
  rewrite Nat2Z.inj_succ in Hn, Hy. rewrite Z.pow_succ_r in Hy by lia.
  simpl printptr_loop.
  set (P := 16 ^ (2 * sz - Z.of_nat (S n))).
  set (Q := 16 ^ Z.of_nat n) in *.
  assert (HP : 0 < P) by (apply Z.pow_pos_nonneg; lia).
  assert (HQ : 0 < Q) by (apply Z.pow_pos_nonneg; lia).
  assert (Htop : 2 ^ (sz * 8 - 4) = Q * P).
  { unfold P, Q. rewrite <- Z.pow_add_r by lia.
    replace (sz * 8 - 4) with (4 * (Z.of_nat n + (2 * sz - Z.of_nat (S n)))) by lia.
    rewrite Z.pow_mul_r by lia. reflexivity. }
  assert (Hword : 2 ^ (sz * 8) = 16 * Q * P).
  { replace (sz * 8) with (sz * 8 - 4 + 4) by lia.
    rewrite Z.pow_add_r, Htop by lia. change (2 ^ 4) with 16. lia. }
  assert (Hd : Z.shiftr (y * P) (sz * 8 - 4) = y / Q).
  { rewrite Z.shiftr_div_pow2, Htop by lia.
    apply Z.div_mul_cancel_r; lia. }
  assert (Hnext : Z.shiftl (y * P) 4 mod 2 ^ (sz * 8)
                  = (y mod Q) * 16 ^ (2 * sz - Z.of_nat n)).
  { rewrite Z.shiftl_mul_pow2, Hword by lia. change (2 ^ 4) with 16.
    replace (y * P * 16) with ((16 * y) * P) by lia.
    rewrite Z.mul_mod_distr_r by lia.
    rewrite Z.mul_mod_distr_l by lia.
    replace (2 * sz - Z.of_nat n) with (1 + (2 * sz - Z.of_nat (S n))) by lia.
    rewrite Z.pow_add_r by lia. fold P. change (16 ^ 1) with 16. lia. }
  rewrite Hd, Hnext.
  assert (Hdr : 0 <= y / Q < 16).
  { split; [apply Z.div_pos; lia|apply Z.div_lt_upper_bound; lia]. }
  destruct (consputc_uart (digit (y / Q)) color s Hp Hon (digit_not_backspace _))
    as (s1 & E1 & Hp1 & Hon1 & Hu1).
  unfold bind. rewrite E1.
  destruct (IH (y mod Q) s1) as (s' & ds & E' & Hp' & Hu' & Hl & Hall & Hnum);
    [lia|apply Z.mod_pos_bound; lia|exact Hp1|exact Hon1|].
  exists s', (y / Q :: ds). split; [exact E'|]. split; [exact Hp'|].
  split; [rewrite Hu', Hu1, <- app_assoc; reflexivity|].
  split; [simpl; now rewrite Hl|].
  split; [constructor; assumption|].
  rewrite number_cons, Hl, Hnum. fold Q.
  rewrite (Z.div_mod y Q) at 3 by lia. lia.
Qed.

(** [printptr] of a pointer of [sz] bytes, on a machine that has not
    panicked and has its cursor on the page: what goes out is its [2 * sz]
    hexadecimal digits, most significant first, leading zeros and all. *)
Theorem printptr_prints_every_digit (sz x color : Z) (s : State) :
  0 < sz -> 0 <= x < 2 ^ (8 * sz) ->
  panicked s = 0 -> on_screen s ->
  exists s' ds,
    printptr sz x color s = Ret tt s'
    /\ uart_out (trace s') = uart_out (trace s) ++ (digit <$> ds)
    /\ Z.of_nat (length ds) = 2 * sz
    /\ Forall (fun d => 0 <= d < 16) ds
    /\ number 16 ds = x.
Proof.
  intros Hsz Hx Hp Hon. unfold printptr.
  assert (Hpow : 2 ^ (8 * sz) = 16 ^ Z.of_nat (Z.to_nat (sz * 2))).
  { rewrite Z2Nat.id by lia. replace (8 * sz) with (4 * (sz * 2)) by lia.
    rewrite Z.pow_mul_r by lia. reflexivity. }
  destruct (printptr_loop_number sz color Hsz (Z.to_nat (sz * 2)) x s)
    as (s' & ds & E & _ & Hu & Hl & Hall & Hnum); [lia|lia|exact Hp|exact Hon|].
  replace (2 * sz - Z.of_nat (Z.to_nat (sz * 2))) with 0 in E by lia.
  rewrite Z.pow_0_r, Z.mul_1_r in E.
  exists s', ds. split; [exact E|]. split; [exact Hu|].
  split; [rewrite Hl; lia|]. split; assumption.
Qed.

Lemma printptr_prints_every_digit_witness :
  exists s' ds,
    printptr 4 0x80100abc DEFAULT_CONSOLE_COLOR idle = Ret tt s'
    /\ uart_out (trace s') = uart_out (trace idle) ++ (digit <$> ds)
    /\ Z.of_nat (length ds) = 2 * 4
    /\ Forall (fun d => 0 <= d < 16) ds
    /\ number 16 ds = 0x80100abc.
Proof.
  apply (printptr_prints_every_digit 4 0x80100abc DEFAULT_CONSOLE_COLOR idle).
  - reflexivity.
  - vm_compute. split; [discriminate|reflexivity].
  - reflexivity.
  - vm_compute. split; [discriminate|reflexivity].
Defined.

Lemma flagged_ret {A} (a : A) : flagged (ret a).
Proof. intros s. exact I. Qed.

Lemma flagged_lift f : flagged (lift f).
Proof. intros s. exact I. Qed.

Lemma flagged_undefined {A} : flagged (@undefined A).
Proof. intros s. exact I. Qed.

Lemma flagged_bind {A B} (m : M A) (k : A -> M B) :
  flagged m -> (forall a, flagged (k a)) -> flagged (bind m k).
Proof.
  intros Hm Hk s. unfold bind. specialize (Hm s).
  destruct (m s) as [a s1|s1|]; [apply Hk|exact Hm|exact I].
Qed.

Lemma flagged_consputc c color : flagged (consputc c color).
Proof.
  intros s. unfold consputc.
  destruct (Z.eqb_spec (panicked s) 0) as [|Hne]; [|exact Hne].
  destruct (cgaputc _ _ _); exact I.
Qed.

#[local] Hint Resolve flagged_ret flagged_lift flagged_undefined flagged_bind
  flagged_consputc : flag_db.

Lemma flagged_puts p color : flagged (puts p color).
Proof.
  induction p as [|ch p IH]; simpl; [auto with flag_db|].
  destruct (ch =? 0); auto with flag_db.
Qed.

Lemma flagged_putrev p color : flagged (putrev p color).
Proof. induction p as [|ch p IH]; simpl; auto with flag_db. Qed.

Lemma flagged_printint xx base sign color : flagged (printint xx base sign color).
Proof.
  unfold printint. destruct (printint_digits _ _ _ _); [|auto with flag_db].
  destruct (_ <? _); auto using flagged_putrev with flag_db.
Qed.

Lemma flagged_printptr sz x color : flagged (printptr sz x color).
Proof.
  unfold printptr. generalize (Z.to_nat (sz * 2)) as n. intros n. revert x.
  induction n as [|n IH]; intros x; simpl; auto with flag_db.
Qed.

#[local] Hint Resolve flagged_puts flagged_putrev flagged_printint
  flagged_printptr : flag_db.

Lemma flagged_cprintf_loop sz fmt :
  forall ap color, flagged (cprintf_loop sz fmt ap color).
Proof.
  induction fmt as [fmt IH] using (induction_ltof1 _ (@length Z)).
  unfold ltof in IH. intros ap color.
  destruct fmt as [|ch fmt1]; simpl; [auto with flag_db|].
  destruct (Z.land ch 255 =? 0); [auto with flag_db|].
  destruct (negb (Z.land ch 255 =? PERCENT)).
  { apply flagged_bind; [auto with flag_db|]. intros _. apply IH. simpl. lia. }
  destruct fmt1 as [|ch2 fmt2]; [auto with flag_db|].
  assert (Hrec : forall ap', flagged (cprintf_loop sz fmt2 ap' color)).
  { intros ap'. apply IH. simpl. lia. }
  destruct (Z.land ch2 255 =? 0); [auto with flag_db|].
  repeat match goal with
         | |- flagged (if ?b then _ else _) => destruct b
         | |- flagged (match ?a with _ => _ end) => destruct a
         end; auto 6 with flag_db.
Qed.

Lemma flagged_when b (m : M unit) : flagged m -> flagged (when b m).
Proof. destruct b; simpl; auto with flag_db. Qed.

Lemma flagged_cprintf_fmt sz fmt ap : flagged (cprintf_fmt sz fmt ap).
Proof.
  intros s. unfold cprintf_fmt.
  apply (flagged_bind (when _ _)); [apply flagged_when, flagged_lift|intros _].
  apply flagged_bind; [apply flagged_cprintf_loop|intros _].
  apply flagged_when, flagged_lift.
Qed.

Lemma flagged_panic_pcs sz pcs : forall i, flagged (panic_pcs sz i pcs).
Proof.
  induction pcs as [|pc pcs IH]; intros i; simpl; [apply flagged_ret|].
  destruct (pc =? 0); [apply flagged_ret|].
  apply flagged_bind; [apply flagged_cprintf_fmt|intros _; apply IH].
Qed.

(** The end of [panic]: the flag is set before the spin. *)
Lemma flagged_halt :
  flagged (lift (with_panicked 1) >> lift (emit EAcpiHalt) >> spin).
Proof. intros s. simpl. discriminate. Qed.

Lemma flagged_panic_with sz message :
  flagged message -> flagged (panic_with sz message).
Proof.
  intros Hm. unfold panic_with.
  apply flagged_bind; [apply flagged_lift|intros _].
  apply flagged_bind; [apply flagged_lift|intros _].
  apply flagged_bind; [intros s; apply flagged_cprintf_fmt|intros _].
  apply flagged_bind; [exact Hm|intros _].
  apply flagged_bind; [apply flagged_cprintf_fmt|intros _].
  apply flagged_bind; [intros s; apply flagged_panic_pcs|intros _].
  apply flagged_bind; [apply flagged_cprintf_fmt|intros _].
  apply flagged_halt.
Qed.

Lemma flagged_cprintf sz fmt ap : flagged (cprintf sz fmt ap).
Proof.
  destruct fmt as [f|]; simpl; [apply flagged_cprintf_fmt|].
  intros s. apply (flagged_bind (when _ _)); [apply flagged_when, flagged_lift|intros _].
  apply flagged_panic_with, flagged_cprintf_fmt.
Qed.

Lemma defined_ret {A} (a : A) : defined (ret a).
Proof. intros s Hon. exact Hon. Qed.

Lemma defined_lift f :
  (forall s, cursor_pos (f s) = cursor_pos s) -> defined (lift f).
Proof. intros H s Hon. unfold lift, on_screen. rewrite H. exact Hon. Qed.

Lemma defined_bind {A B} (m : M A) (k : A -> M B) :
  defined m -> (forall a, defined (k a)) -> defined (bind m k).
Proof.
  intros Hm Hk s Hon. unfold bind. specialize (Hm s Hon).
  destruct (m s) as [a s1|s1|]; [now apply Hk|exact I|contradiction].
Qed.

Lemma defined_consputc c color : defined (consputc c color).
Proof.
  intros s Hon. destruct (Z.eq_dec (panicked s) 0) as [Hp|Hp].
  - destruct (consputc_ok c color s Hp Hon) as (s' & -> & _ & Hon' & _).
    exact Hon'.
  - now rewrite (consputc_hangs c color s Hp).
Qed.

Lemma defined_when b (m : M unit) : defined m -> defined (when b m).
Proof. destruct b; simpl; [auto|intros _; apply defined_ret]. Qed.

Lemma defined_putrev p color : defined (putrev p color).
Proof.
  induction p as [|ch p IH]; simpl; [apply defined_ret|].
  apply defined_bind; [exact IH|intros _; apply defined_consputc].
Qed.

(** [printint] in base 10 or 16 stays within its 16-character buffer,
    whatever the number. *)
Lemma defined_printint xx base sign color :
  base = 10 \/ base = 16 -> defined (printint xx base sign color).
Proof.
  intros Hbase. unfold printint.
  set (sign' := if negb (sign =? 0) then if xx <? 0 then 1 else 0 else sign).
  set (x := if negb (sign' =? 0) then to_uint (- xx) else to_uint xx).
  assert (Hrange : 0 <= x < 4294967296).
  { unfold x, to_uint. change (2 ^ 32) with 4294967296.
    destruct (negb (sign' =? 0)); apply Z.mod_pos_bound; lia. }
  assert (Hb : to_uint base = base) by (destruct Hbase as [-> | ->]; reflexivity).
  rewrite Hb.
  destruct (printint_digits_number base ltac:(lia) 10 16 x [] ltac:(lia))
    as (ds & E & Hl & _).
  { split; [lia|]. apply Z.lt_le_trans with (1 := proj2 Hrange).
    destruct Hbase as [-> | ->]; vm_compute; discriminate. }
  rewrite E, app_nil_l.
  set (buf := if negb (sign' =? 0) then _ else _).
  assert (Hbl : (length buf <= 11)%nat).
  { unfold buf. destruct (negb (sign' =? 0));
      rewrite ?length_app, length_fmap, length_rev; simpl; lia. }
  destruct (Z.ltb_spec 16 (Z.of_nat (length buf))) as [|_]; [lia|].
  apply defined_putrev.
Qed.

Lemma defined_printptr sz x color : defined (printptr sz x color).
Proof.
  unfold printptr. generalize (Z.to_nat (sz * 2)) as n. intros n. revert x.
  induction n as [|n IH]; intros x; simpl; [apply defined_ret|].
  apply defined_bind; [apply defined_consputc|intros _; apply IH].
Qed.

(** Text with no directive in it takes no argument. *)
Lemma defined_text sz pre rest ap color :
  Forall plain_byte pre ->
  defined (cprintf_loop sz rest ap color) ->
  defined (cprintf_loop sz (pre ++ rest) ap color).
Proof.
  intros Hpre Hrest. induction Hpre as [|ch pre Hch _ IH]; [exact Hrest|].
  simpl. destruct (Z.land ch 255 =? 0); [apply defined_ret|].
  destruct (Z.eqb_spec (Z.land ch 255) PERCENT) as [|_]; [contradiction|].
  simpl. apply defined_bind; [apply defined_consputc|intros _; exact IH].
Qed.

Lemma defined_percent_d sz rest x ap color :
  defined (cprintf_loop sz rest ap color) ->
  defined (cprintf_loop sz (PERCENT :: 100 :: rest) (AInt x :: ap) color).
Proof.
  intros H.
  change (defined (printint x 10 1 color >> cprintf_loop sz rest ap color)).
  apply defined_bind; [apply defined_printint; now left|intros _; exact H].
Qed.

Lemma defined_percent_p sz rest x ap color :
  defined (cprintf_loop sz rest ap color) ->
  defined (cprintf_loop sz (PERCENT :: 112 :: rest) (APtr x :: ap) color).
Proof.
  intros H.
  change (defined (printptr sz x color >> cprintf_loop sz rest ap color)).
  apply defined_bind; [apply defined_printptr|intros _; exact H].
Qed.

Lemma defined_cprintf_fmt sz fmt ap :
  defined (cprintf_loop sz fmt ap DEFAULT_CONSOLE_COLOR) ->
  defined (cprintf_fmt sz fmt ap).
Proof.
  intros H s. unfold cprintf_fmt.
  apply (defined_bind (when _ _)); [apply defined_when; now apply defined_lift|intros _].
  apply defined_bind; [exact H|intros _].
  apply defined_when. now apply defined_lift.
Qed.

Lemma plain_text_defined sz text ap :
  Forall plain_byte text -> defined (cprintf_fmt sz text ap).
Proof.
  intros H. apply defined_cprintf_fmt.
  rewrite <- (app_nil_r text). apply defined_text; [exact H|].
  simpl. apply defined_ret.
Qed.

Lemma defined_panic_pcs sz pcs : forall i, defined (panic_pcs sz i pcs).
Proof.
  induction pcs as [|pc pcs IH]; intros i; simpl; [apply defined_ret|].
  destruct (pc =? 0); [apply defined_ret|].
  apply defined_bind; [|intros _; apply IH].
  apply defined_cprintf_fmt.
  change (defined (cprintf_loop sz
            (str " [" ++ PERCENT :: 100 :: str "] " ++ PERCENT :: 112 :: [NEWLINE] ++ [])
            [AInt i; APtr pc] DEFAULT_CONSOLE_COLOR)).
  apply defined_text; [plain_text|]. apply defined_percent_d.
  apply defined_text; [plain_text|]. apply defined_percent_p.
  apply defined_text; [plain_text|]. simpl. apply defined_ret.
Qed.

Lemma defined_panic_with sz message :
  defined message -> defined (panic_with sz message).
Proof.
  intros Hm. unfold panic_with.
  apply defined_bind; [now apply defined_lift|intros _].
  apply defined_bind; [now apply defined_lift|intros _].
  apply defined_bind; [|intros _].
  { intros s. apply defined_cprintf_fmt.
    change (defined (cprintf_loop sz
              (([NEWLINE; NEWLINE] ++ str "PANIC on cpu ")
                 ++ PERCENT :: 100 :: [NEWLINE; 32] ++ [])
              [AInt (cpu_id s)] DEFAULT_CONSOLE_COLOR)).
    apply defined_text; [plain_text|]. apply defined_percent_d.
    apply defined_text; [plain_text|]. simpl. apply defined_ret. }
  apply defined_bind; [exact Hm|intros _].
  apply defined_bind; [apply plain_text_defined; plain_text|intros _].
  apply defined_bind; [intros s; apply defined_panic_pcs|intros _].
  apply defined_bind; [apply plain_text_defined; plain_text|intros _].
  intros s _. exact I.
Qed.

(** [panic] does not return. With the cursor on the page and a message
    that is the null pointer or text with no [%] in it, it prints, sets the
    flag and spins; when the console had panicked before, it spins at its
    first character with the flag as it was. Either way it ends in a spin
    with the flag set. *)
Theorem panic_ends_with_flag_set (sz : Z) (msg : option (list Z)) (s : State) :
  on_screen s ->
  match msg with Some m => Forall plain_byte m | None => True end ->
  exists s', panic sz msg s = Hang s' /\ panicked s' <> 0.
Proof.
  intros Hon Hmsg.
  assert (Hdef : defined (cprintf sz msg [])).
  { destruct msg as [m|]; simpl.
    - now apply plain_text_defined.
    - intros s0. apply (defined_bind (when _ _));
        [apply defined_when; now apply defined_lift|intros _].
      apply defined_panic_with, plain_text_defined. plain_text. }
  pose proof (defined_panic_with sz _ Hdef s Hon) as Hd.
  pose proof (flagged_panic_with sz _ (flagged_cprintf sz msg []) s) as Hf.
  pose proof (panic_with_no_return sz (cprintf sz msg []) s) as Hn.
  unfold panic.
  destruct (panic_with sz (cprintf sz msg []) s) as [a s'|s'|].
  - exfalso. now apply (Hn a s').
  - exists s'. split; [reflexivity|exact Hf].
  - contradiction.
Qed.

Lemma panic_ends_with_flag_set_witness :
  exists s', panic 4 (Some (str "sched locks")) idle = Hang s' /\ panicked s' <> 0.
Proof.
  apply (panic_ends_with_flag_set 4 (Some (str "sched locks")) idle).
  - vm_compute. split; [discriminate|reflexivity].
  - plain_text.
Defined.

(** Whatever the format and the arguments, [cprintf] and [panic] spin only
    with the flag set, and [panic] and [cprintf] of a null format never
    return. *)
Theorem printing_spins_only_when_panicked
        (sz : Z) (fmt msg : option (list Z)) (ap : list arg) (s : State) :
  match cprintf sz fmt ap s with
  | Hang s' => panicked s' <> 0
  | _ => True
  end
  /\ match panic sz msg s with
     | Hang s' => panicked s' <> 0
     | Ret _ _ => False
     | Undef => True
     end
  /\ match cprintf sz None ap s with
     | Hang s' => panicked s' <> 0
     | Ret _ _ => False
     | Undef => True
     end.
Proof.
  split; [apply flagged_cprintf|]. split.
  - pose proof (flagged_panic_with sz _ (flagged_cprintf sz msg []) s) as H.
    pose proof (panic_with_no_return sz (cprintf sz msg []) s) as Hn.
    unfold panic. destruct (panic_with sz (cprintf sz msg []) s) as [a s'|s'|];
      [now apply (Hn a s')|exact H|exact I].
  - pose proof (flagged_cprintf sz None ap s) as H.
    destruct (cprintf sz None ap s) as [a s'|s'|] eqn:E; [|exact H|exact I].
    simpl in E. unfold bind in E.
    destruct (when _ _ s) as [[] s1|s1|]; [|discriminate|discriminate].
    now apply panic_with_no_return in E.
Qed.

Lemma lor_byte_shift lo a :
  0 <= lo < 256 -> 0 <= a -> Z.lor lo (Z.shiftl a 8) = lo + a * 256.
Proof.
  intros Hlo Ha. rewrite Z.lor_comm.
  rewrite <- Z.lxor_lor by (now apply land_shiftl_low).
  rewrite <- Z.add_nocarry_lxor by (now apply land_shiftl_low).
  rewrite Z.shiftl_mul_pow2 by lia. change (2 ^ 8) with 256. lia.
Qed.

(** A cell built from a character and a colour made of a foreground and a
    background of four bits each holds the low byte of the character,
    the foreground in bits 8 to 11 and the background in bits 12 to 15.
    [CGA_GET_FONT_BACKGROUND_COLOR] of such a colour is 0 whatever the
    background: the mask 0xFF00 keeps none of its eight bits. *)
Theorem cell_holds_char_and_colours (c fg bg : Z) :
  0 <= fg < 16 -> 0 <= bg < 16 ->
  Z.land (cell c (CGA_FONT_COLOR fg bg)) 0xff = Z.land c 0xff
  /\ Z.land (Z.shiftr (cell c (CGA_FONT_COLOR fg bg)) 8) 0xf = fg
  /\ Z.shiftr (cell c (CGA_FONT_COLOR fg bg)) 12 = bg
  /\ CGA_GET_FONT_BACKGROUND_COLOR (CGA_FONT_COLOR fg bg) = 0.
Proof.
  intros Hfg Hbg.
  assert (Ha : CGA_FONT_COLOR fg bg = bg * 16 + fg).
  { unfold CGA_FONT_COLOR. rewrite Z.shiftl_mul_pow2 by lia. reflexivity. }
  rewrite Ha. set (a := bg * 16 + fg). assert (Hr : 0 <= a < 256) by (unfold a; lia).
  assert (Hlo : 0 <= Z.land c 255 < 256).
  { change 255 with (Z.ones 8). rewrite Z.land_ones by lia.
    apply Z.mod_pos_bound. reflexivity. }
  assert (Hv : cell c a = Z.land c 255 + a * 256).
  { unfold cell, to_uint16, to_uint.
    assert (Hs : Z.shiftl a 8 = a * 256)
      by (rewrite Z.shiftl_mul_pow2 by lia; reflexivity).
    rewrite (Z.mod_small (Z.shiftl a 8)) by (rewrite Hs; change (2 ^ 32) with 4294967296; lia).
    rewrite lor_byte_shift by lia.
    apply Z.mod_small. change (2 ^ 16) with 65536. lia. }
  rewrite Hv. set (lo := Z.land c 255) in *.
  split; [|split; [|split]].
  - change 255 with (Z.ones 8). rewrite Z.land_ones by lia.
    change (2 ^ 8) with 256. unfold a. Z.div_mod_to_equations. lia.
  - change 15 with (Z.ones 4). rewrite Z.land_ones, Z.shiftr_div_pow2 by lia.
    change (2 ^ 8) with 256. change (2 ^ 4) with 16. unfold a.
    Z.div_mod_to_equations. lia.
  - rewrite Z.shiftr_div_pow2 by lia. change (2 ^ 12) with 4096. unfold a.
    Z.div_mod_to_equations. lia.
  - unfold CGA_GET_FONT_BACKGROUND_COLOR.
    change 65280 with (Z.shiftl 255 8). rewrite Z.land_comm.
    rewrite land_shiftl_low by exact Hr. reflexivity.
Qed.

Lemma cell_holds_char_and_colours_witness :
  Z.land (cell 67 (CGA_FONT_COLOR 4 1)) 0xff = Z.land 67 0xff
  /\ Z.land (Z.shiftr (cell 67 (CGA_FONT_COLOR 4 1)) 8) 0xf = 4
  /\ Z.shiftr (cell 67 (CGA_FONT_COLOR 4 1)) 12 = 1
  /\ CGA_GET_FONT_BACKGROUND_COLOR (CGA_FONT_COLOR 4 1) = 0.
Proof.
  apply (cell_holds_char_and_colours 67 4 1); vm_compute; split; discriminate || reflexivity.
Defined.

Lemma cprintf_loop_text sz ap color text rest :
  forall s,
    panicked s = 0 -> on_screen s -> Forall text_byte text ->
    exists s1,
      cprintf_loop sz (text ++ rest) ap color s = cprintf_loop sz rest ap color s1
      /\ same_core s s1
      /\ uart_out (trace s1) = uart_out (trace s) ++ (byte_of <$> text).
Proof.
  induction text as [|ch text IH]; intros s Hp Hon Hall.
  { exists s. rewrite app_nil_r. split; [reflexivity|].
    split; [apply same_core_refl|reflexivity]. }
  apply Forall_cons in Hall as ((Hnz & Hnp) & Hall). unfold byte_of in Hnz, Hnp.
  simpl cprintf_loop.
  destruct (Z.eqb_spec (Z.land ch 255) 0) as [|_]; [contradiction|].
  destruct (Z.eqb_spec (Z.land ch 255) PERCENT) as [|_]; [contradiction|].
  change (negb false) with true. cbv iota.
  destruct (consputc_returns (Z.land ch 255) color s Hp Hon) as (s1 & E1 & Hc1 & _).
  destruct (consputc_uart (Z.land ch 255) color s Hp Hon (land_byte_not_backspace ch))
    as (s1' & E1' & Hp1 & Hon1 & Hu1).
  rewrite E1 in E1'. injection E1' as <-.
  unfold bind at 1. rewrite E1.
  destruct (IH s1 Hp1 Hon1 Hall) as (s2 & E2 & Hc2 & Hu2).
  exists s2. split; [exact E2|]. split; [exact (same_core_trans _ _ _ Hc1 Hc2)|].
  rewrite Hu2, Hu1, <- app_assoc. reflexivity.
Qed.

Lemma cprintf_loop_ends sz ap color rest s :
  ends_format rest -> cprintf_loop sz rest ap color s = Ret tt s.
Proof.
  destruct rest as [|ch tl]; [reflexivity|].
  unfold ends_format, byte_of. intros [H0 | (Hpc & Htl)]; simpl.
  { rewrite H0. reflexivity. }
  rewrite Hpc. change (PERCENT =? 0) with false. change (PERCENT =? PERCENT) with true.
  simpl. destruct tl as [|ch2 tl2]; [reflexivity|]. rewrite Htl. reflexivity.
Qed.

(** [cprintf] of a format that is text up to its end, up to a NUL, or up to
    a [%] that nothing follows, on a machine that has not panicked and has
    its cursor on the page: the text goes to the serial port byte by
    byte, what comes after it is not printed, no argument is looked at,
    and nothing but the screen and the trace changes. *)
Theorem cprintf_copies_text
        (sz : Z) (text rest : list Z) (ap : list arg) (s : State) :
  panicked s = 0 -> on_screen s ->
  Forall text_byte text -> ends_format rest ->
  exists s',
    cprintf sz (Some (text ++ rest)) ap s = Ret tt s'
    /\ uart_out (trace s') = uart_out (trace s) ++ (byte_of <$> text)
    /\ same_core s s'.
Proof.
  intros Hp Hon Htext Hrest. simpl. unfold cprintf_fmt, bind.
  set (s0 := s) at 2.
  assert (H0 : exists s1,
             when (negb (cons_locking s =? 0)) (lift (emit (EAcquire ConsLock))) s0
             = Ret tt s1
             /\ same_core s s1 /\ on_screen s1
             /\ uart_out (trace s1) = uart_out (trace s)).
  { unfold s0. destruct (negb _); simpl; eexists; (split; [reflexivity|]).
    - split; [repeat split|]. split; [exact Hon|].
      change (trace (emit (EAcquire ConsLock) s)) with (trace s ++ [EAcquire ConsLock]).
      rewrite uart_out_app. apply app_nil_r.
    - split; [apply same_core_refl|]. split; [exact Hon|reflexivity]. }
  destruct H0 as (s1 & E1 & Hc1 & Hon1 & Hu1). rewrite E1.
  assert (Hp1 : panicked s1 = 0) by (destruct Hc1 as (-> & _); exact Hp).
  destruct (cprintf_loop_text sz ap DEFAULT_CONSOLE_COLOR text rest s1 Hp1 Hon1 Htext)
    as (s2 & E2 & Hc2 & Hu2).
  rewrite E2, (cprintf_loop_ends sz ap DEFAULT_CONSOLE_COLOR rest s2 Hrest).
  destruct (negb _); simpl; eexists; (split; [reflexivity|]).
  - split.
    + match goal with
      | |- uart_out (trace ?x) = _ => change (trace x) with (trace s2 ++ [ERelease ConsLock])
      end.
      rewrite uart_out_app, Hu2, Hu1. apply app_nil_r.
    + eapply same_core_trans; [exact Hc1|].
      eapply same_core_trans; [exact Hc2|]. repeat split.
  - split; [now rewrite Hu2, Hu1|].
    eapply same_core_trans; [exact Hc1|exact Hc2].
Qed.

Lemma cprintf_copies_text_witness :
  exists s',
    cprintf 4 (Some (str "cpu0: starting" ++ [PERCENT])) [] idle = Ret tt s'
    /\ uart_out (trace s')
       = uart_out (trace idle) ++ (byte_of <$> str "cpu0: starting")
    /\ same_core idle s'.
Proof.
  apply (cprintf_copies_text 4 (str "cpu0: starting") [PERCENT] [] idle).
  - reflexivity.
  - vm_compute. split; [discriminate|reflexivity].
  - refine (bool_decide_unpack _ _). vm_compute. exact I.
  - vm_compute. right. split; [reflexivity|exact I].
Defined.

Lemma keeps_r_refl s : keeps_r s s.
Proof. reflexivity. Qed.

Lemma keeps_r_trans s1 s2 s3 : keeps_r s1 s2 -> keeps_r s2 s3 -> keeps_r s1 s3.
Proof. unfold keeps_r. congruence. Qed.

Lemma r_consputc c color : relates keeps_r (consputc c color).
Proof.
  eapply relates_weaken; [|apply core_consputc].
  intros s s' (_ & _ & Hi & _). unfold keeps_r. now rewrite Hi.
Qed.

Lemma r_kill_line fuel : relates keeps_r (kill_line fuel).
Proof.
  induction fuel as [|fuel IH]; intros s; simpl; [apply keeps_r_refl|].
  destruct (_ && _); [|apply keeps_r_refl].
  apply (relates_bind keeps_r keeps_r_trans); [|intros _].
  - apply relates_lift. intros s1. reflexivity.
  - apply (relates_bind keeps_r keeps_r_trans); [apply r_consputc|intros _; exact IH].
Qed.

Lemma r_consoleintr_default c : relates keeps_r (consoleintr_default c).
Proof.
  intros s. unfold consoleintr_default.
  destruct (_ && _); [|apply keeps_r_refl].
  set (c' := if c =? CARRIAGE_RETURN then NEWLINE else c).
  set (s1 := set_e _ _).
  assert (H1 : keeps_r s s1) by reflexivity.
  unfold bind. pose proof (r_consputc c' DEFAULT_CONSOLE_COLOR s1) as H2.
  destruct (consputc c' DEFAULT_CONSOLE_COLOR s1) as [[] s2|s2|]; [| |exact I].
  - pose proof (keeps_r_trans _ _ _ H1 H2) as H3.
    destruct (_ || _); [|assumption].
    eapply keeps_r_trans; [exact H3|]. reflexivity.
  - exact (keeps_r_trans _ _ _ H1 H2).
Qed.

Lemma r_consoleintr_char c : relates keeps_r (consoleintr_char c).
Proof.
  unfold consoleintr_char.
  destruct (c =? CTRL_Z); [apply relates_lift; intros s; reflexivity|].
  destruct (c =? CTRL_P); [apply relates_lift; intros s; reflexivity|].
  destruct (c =? CTRL_U).
  { intros s. apply r_kill_line. }
  destruct (_ || _); [|apply r_consoleintr_default].
  intros s. destruct (negb _); [|apply keeps_r_refl].
  apply (relates_bind keeps_r keeps_r_trans); [|intros _; apply r_consputc].
  apply relates_lift. intros s1. reflexivity.
Qed.

Lemma r_consoleintr keys : relates keeps_r (consoleintr keys).
Proof.
  unfold consoleintr.
  apply (relates_bind keeps_r keeps_r_trans); [|intros _].
  { apply relates_lift. intros s. reflexivity. }
  apply (relates_bind keeps_r keeps_r_trans);
    [|intros _; apply relates_lift; intros s; reflexivity].
  induction keys as [|c keys IH]; simpl; [apply relates_ret, keeps_r_refl|].
  destruct (c >=? 0); [|apply relates_ret, keeps_r_refl].
  apply (relates_bind keeps_r keeps_r_trans); [apply r_consoleintr_char|auto].
Qed.

(** What each operation leaves alone. None changes the killed mark, the
    cpu or the return addresses. The interrupt handler never moves [r]
    and leaves the flag and the locking mode alone; a read changes nothing
    of the ring but [r], and nothing of the screen; [consolewrite] and
    [consputc] leave the whole ring, the flag and the locking mode alone;
    [cprintf] and [panic] leave the whole ring alone. *)
Theorem operations_keep_to_their_own (sz : Z) (o : operation) (s s' : State) :
  run sz o s = Some s' ->
  proc_killed s' = proc_killed s
  /\ cpu_id s' = cpu_id s
  /\ callerpcs s' = callerpcs s
  /\ match o with
     | OpIntr _ =>
         input_r (input s') = input_r (input s)
         /\ panicked s' = panicked s /\ cons_locking s' = cons_locking s
     | OpRead _ | OpWake _ _ _ =>
         input_buf (input s') = input_buf (input s)
         /\ input_w (input s') = input_w (input s)
         /\ input_e (input s') = input_e (input s)
         /\ panicked s' = panicked s /\ cons_locking s' = cons_locking s
         /\ crt s' = crt s /\ crtc s' = crtc s
     | OpWrite _ _ | OpPutc _ _ =>
         input s' = input s
         /\ panicked s' = panicked s /\ cons_locking s' = cons_locking s
     | OpPrintf _ _ | OpPanic _ => input s' = input s
     end.
Proof.
  intros E.
  assert (Hread : read_step s s' ->
            proc_killed s' = proc_killed s
            /\ cpu_id s' = cpu_id s
            /\ callerpcs s' = callerpcs s
            /\ input_buf (input s') = input_buf (input s)
            /\ input_w (input s') = input_w (input s)
            /\ input_e (input s') = input_e (input s)
            /\ panicked s' = panicked s /\ cons_locking s' = cons_locking s
            /\ crt s' = crt s /\ crtc s' = crtc s).
  { unfold read_step. intros H.
    split; [exact (f_equal proc_killed H)|].
    split; [exact (f_equal cpu_id H)|].
    split; [exact (f_equal callerpcs H)|].
    split; [exact (f_equal (fun x => input_buf (input x)) H)|].
    split; [exact (f_equal (fun x => input_w (input x)) H)|].
    split; [exact (f_equal (fun x => input_e (input x)) H)|].
    split; [exact (f_equal panicked H)|].
    split; [exact (f_equal cons_locking H)|].
    split; [exact (f_equal crt H)|exact (f_equal crtc H)]. }
  destruct o; simpl in E.
  - pose proof (relates_final _ _ _ _ (env_consoleintr keys) E) as (Hp & Hl & Hk & Hc & Hpc).
    pose proof (relates_final _ _ _ _ (r_consoleintr keys) E) as Hr.
    repeat split; assumption.
  - apply Hread. injection E as <-. apply consoleread_step.
  - apply Hread. injection E as <-. apply consoleread_loop_step, read_step_refl.
  - pose proof (relates_final _ _ _ _ (core_consolewrite buf n) E)
      as (Hp & Hl & Hi & Hk & Hc & Hpc).
    repeat split; assumption.
  - pose proof (relates_final _ _ _ _ (ps_cprintf sz fmt ap) E)
      as (Hi & Hk & Hc & Hpc & _).
    repeat split; assumption.
  - pose proof (relates_final _ _ _ _ (ps_panic sz msg) E)
      as (Hi & Hk & Hc & Hpc & _).
    repeat split; assumption.
  - pose proof (relates_final _ _ _ _ (core_consputc c color) E)
      as (Hp & Hl & Hi & Hk & Hc & Hpc).
    repeat split; assumption.
Qed.

Lemma operations_keep_to_their_own_witness :
  proc_killed hello_typed = proc_killed idle
  /\ cpu_id hello_typed = cpu_id idle
  /\ callerpcs hello_typed = callerpcs idle
  /\ input_r (input hello_typed) = input_r (input idle)
  /\ panicked hello_typed = panicked idle
  /\ cons_locking hello_typed = cons_locking idle.
Proof.
  apply (operations_keep_to_their_own 4 (OpIntr (hello ++ [NEWLINE])) idle hello_typed).
  vm_compute. reflexivity.
Defined.

(** A reader that found the buffer empty and went to sleep, woken after a
    line of ordinary characters was typed and ended: it returns the line,
    as a reader arriving after the line would, and leaves the buffer
    empty. The machine has not panicked and has its cursor on the page, so
    that the echo returns. *)
Theorem sleeping_reader_gets_the_line (body : list Z) (t n : Z) (s : State) :
  panicked s = 0 -> on_screen s -> proc_killed s = 0 ->
  ring_inv (input s) ->
  input_w (input s) = input_r (input s) ->
  input_e (input s) = input_r (input s) ->
  Forall ordinary body ->
  t = NEWLINE \/ t = CARRIAGE_RETURN ->
  Z.of_nat (length body) < INPUT_BUF ->
  Z.of_nat (length body) < n < 2 ^ 31 ->
  exists s1 s2 s3,
    consoleread n s = RBlocked (to_uint n) n [] s1
    /\ consoleintr (body ++ [t]) s1 = Ret tt s2
    /\ consoleread_wake (to_uint n) n [] s2
       = RDone (Z.of_nat (length body) + 1) (body ++ [NEWLINE]) s3
    /\ input_r (input s3) = input_w (input s3)
    /\ input_w (input s3) = input_e (input s3).
Proof.
  intros Hp Hon Hk Hinv Hwr Her Hord Ht Hlen Hn.
  rewrite (consoleread_blocks n s) by (try lia; now rewrite Hwr).
  set (s1 := emit ESleep (emit (EAcquire InputLock) (emit EIunlock s))).
  destruct (typed_line_state body t s1 Hp Hon Hinv Hwr Her Hord Ht Hlen)
    as (s2 & E & Hinv2 & Hat2 & Hav2 & Hr2 & Hw2 & He2 & _).
  exists s1, s2. eexists. split; [reflexivity|]. split; [exact E|].
  split.
  { unfold consoleread_wake.
    rewrite (read_line_rest body (Z.to_nat n) (to_uint n) n [] s2).
    - unfold consoleread_exit. simpl app.
      rewrite map_to_char_id
        by (eapply Forall_impl; [exact Hord|apply ordinary_is_char]).
      replace (n - Z.of_nat (length body) - 1) with (n - (Z.of_nat (length body) + 1))
        by lia.
      rewrite to_int_count by lia.
      replace (n - (n - (Z.of_nat (length body) + 1)))
        with (Z.of_nat (length body) + 1) by lia.
      reflexivity.
    - eapply Forall_impl; [exact Hord|apply ordinary_plain].
    - exact Hat2.
    - lia.
    - lia.
    - lia.
    - exact Hinv2. }
  simpl. rewrite Hw2, Hr2. split; [reflexivity|]. rewrite <- Hw2. now rewrite He2.
Qed.

Lemma sleeping_reader_gets_the_line_witness :
  exists s1 s2 s3,
    consoleread 100 idle = RBlocked (to_uint 100) 100 [] s1
    /\ consoleintr (hello ++ [NEWLINE]) s1 = Ret tt s2
    /\ consoleread_wake (to_uint 100) 100 [] s2
       = RDone (Z.of_nat (length hello) + 1) (hello ++ [NEWLINE]) s3
    /\ input_r (input s3) = input_w (input s3)
    /\ input_w (input s3) = input_e (input s3).
Proof.
  apply (sleeping_reader_gets_the_line hello NEWLINE 100 idle).
  - reflexivity.
  - vm_compute. split; [discriminate|reflexivity].
  - reflexivity.
  - vm_compute. repeat split; discriminate.
  - reflexivity.
  - reflexivity.
  - refine (bool_decide_unpack _ _). vm_compute. exact I.
  - now left.
  - vm_compute. reflexivity.
  - vm_compute. split; reflexivity.
Defined.

(** ** A read in a killed process *)

(** The loop of [consoleread] in its own words: a process that is killed
    does not go to sleep; the result -1 is the cancellation and comes from
    nowhere else; and [r] has moved by as many characters as the call has
    put into [dst]. *)
Lemma consoleread_loop_cancel fuel :
  forall N n dst s,
    0 <= n <= N -> N < 2 ^ 31 ->
    uint_range (input_r (input s)) ->
    match consoleread_loop fuel (to_uint N) n dst s with
    | RDone ret dst' s' =>
        ret = -1 ->
        proc_killed s <> 0
        /\ input_r (input s') = input_w (input s')
        /\ (length dst <= length dst')%nat
        /\ input_r (input s')
           = to_uint (input_r (input s)
                      + (Z.of_nat (length dst') - Z.of_nat (length dst)))
    | RBlocked _ _ _ _ => proc_killed s = 0
    end.
Proof.
  assert (Hexit : forall N n dst s,
            0 <= n <= N -> N < 2 ^ 31 ->
            match consoleread_exit (to_uint N) n dst s with
            | RDone ret dst' s' =>
                ret = -1 ->
                proc_killed s <> 0
                /\ input_r (input s') = input_w (input s')
                /\ (length dst <= length dst')%nat
                /\ input_r (input s')
                   = to_uint (input_r (input s)
                              + (Z.of_nat (length dst') - Z.of_nat (length dst)))
            | RBlocked _ _ _ _ => proc_killed s = 0
            end).
  { intros N n dst s Hn HN. unfold consoleread_exit.
    rewrite to_int_count by assumption. intros Hret. lia. }
  induction fuel as [|fuel IH]; intros N n dst s Hn HN Hr.
  { now apply Hexit. }
  simpl consoleread_loop.
  destruct (Z.gtb_spec n 0) as [Hpos|Hle]; [|now apply Hexit].
  destruct (Z.eqb_spec (input_r (input s)) (input_w (input s))) as [Hrw|Hne].
  { destruct (Z.eqb_spec (proc_killed s) 0) as [Hk|Hk]; [exact Hk|].
    intros _. split; [exact Hk|]. split; [exact Hrw|]. split; [lia|].
    simpl. rewrite Z.sub_diag, Z.add_0_r. symmetry. apply Z.mod_small.
    exact Hr. }
  set (c := buf_get (input_r (input s)) s).
  set (s1 := set_r (to_uint (input_r (input s) + 1)) s).
  change (buf_get (input_r (input s)) s) with c.
  destruct (c =? CTRL_D).
  { pose proof (Hexit N n dst
                  (if to_uint n <? to_uint N
                   then set_r (to_uint (input_r (input s1) - 1)) s1 else s1)
                  Hn HN) as H.
    unfold consoleread_exit in *. rewrite to_int_count in * by assumption.
    intros Hret. lia. }
  destruct (c =? NEWLINE).
  { pose proof (Hexit N (n - 1) (dst ++ [to_char c]) s1 ltac:(lia) HN) as H.
    unfold consoleread_exit in *. rewrite to_int_count in * by lia.
    intros Hret. lia. }
  pose proof (IH N (n - 1) (dst ++ [to_char c]) s1 ltac:(lia) HN
                (to_uint_range _)) as H.
  destruct (consoleread_loop fuel (to_uint N) (n - 1) (dst ++ [to_char c]) s1)
    as [ret dst' s'|t n' dst' s']; [|exact H].
  intros Hret. destruct (H Hret) as (Hk & Hrw' & Hlen & Hadv).
  rewrite length_app in Hlen, Hadv. simpl in Hlen, Hadv.
  split; [exact Hk|]. split; [exact Hrw'|]. split; [lia|].
  rewrite Hadv. change (input_r (input s1)) with (to_uint (input_r (input s) + 1)).
  uint_arith.
Qed.

(** C7 as stated fails: the read finds [r == w] with the process killed
    after it has taken the 128 characters a full buffer had committed; it
    returns -1 with [r] moved from 0 to 128 and the 128 characters in the
    caller's buffer. *)
Lemma killed_read_after_consuming :
  proc_killed killed_full <> 0
  /\ input_r (input killed_full) = 0
  /\ consoleread 200 killed_full = RDone (-1) (replicate 128 97) killed_full_read
  /\ input_r (input killed_full_read) = 128
  /\ input_r (input killed_full_read) = input_w (input killed_full_read).
Proof.
  split; [vm_compute; discriminate|]. split; [vm_compute; reflexivity|].
  split; [vm_compute; reflexivity|]. split; vm_compute; reflexivity.
Qed.

(** C7, amended: in a killed process a read of [n] characters never sleeps.
    When it finds the buffer empty at its start it returns -1, [dst] has
    received nothing and the state differs from the one it found in the
    trace of lock calls only; the same holds for a sleeper that wakes up
    to it, whose [dst] keeps what it had. Whenever the read returns -1 it
    has found [r == w], possibly after taking characters: the buffer, [w]
    and [e] are as they were, and [r] has moved by exactly the number of
    characters now in [dst], which are consumed although the caller is
    told -1. *)
Theorem killed_read_cancels (s : State) (n : Z) :
  0 < n < 2 ^ 31 ->
  uint_range (input_r (input s)) ->
  proc_killed s <> 0 ->
  (input_r (input s) = input_w (input s) ->
   consoleread n s
   = RDone (-1) []
       (with_trace (trace s ++ [EIunlock; EAcquire InputLock;
                                ERelease InputLock; EIlock]) s)
   /\ forall target dst,
       consoleread_wake target n dst s
       = RDone (-1) dst
           (with_trace (trace s ++ [ERelease InputLock; EIlock]) s))
  /\ match consoleread n s with
     | RDone ret dst s' =>
         ret = -1 ->
         input_r (input s') = input_w (input s')
         /\ input_r (input s')
            = to_uint (input_r (input s) + Z.of_nat (length dst))
         /\ input_buf (input s') = input_buf (input s)
         /\ input_w (input s') = input_w (input s)
         /\ input_e (input s') = input_e (input s)
     | RBlocked _ _ _ _ => False
     end.
Proof.
  intros Hn Hr Hk. split.
  - intros Hrw.
    assert (Hf : exists f, Z.to_nat n = S f).
    { exists (Nat.pred (Z.to_nat n)). lia. }
    destruct Hf as [f Hf].
    assert (Hgt : (n >? 0) = true) by lia.
    assert (Hkb : (proc_killed s =? 0) = false) by lia.
    split.
    + unfold consoleread. rewrite Hf. simpl. rewrite Hgt, Hrw, Z.eqb_refl, Hkb.
      unfold emit, with_trace; simpl.
      repeat rewrite <- app_assoc. reflexivity.
    + intros target dst. unfold consoleread_wake. rewrite Hf. simpl.
      rewrite Hgt, Hrw, Z.eqb_refl, Hkb.
      unfold emit, with_trace; simpl.
      repeat rewrite <- app_assoc. reflexivity.
  - pose proof (consoleread_step n s) as Hstep.
    unfold consoleread in *.
    set (s0 := emit (EAcquire InputLock) (emit EIunlock s)) in *.
    pose proof (consoleread_loop_cancel (Z.to_nat n) n n [] s0 ltac:(lia)
                  ltac:(lia) Hr) as H.
    destruct (consoleread_loop (Z.to_nat n) (to_uint n) n [] s0)
      as [ret dst s'|t n' dst s'].
    + intros Hret. destruct (H Hret) as (_ & Hrw & _ & Hadv).
      simpl in Hadv. rewrite Z.sub_0_r in Hadv.
      unfold read_step in Hstep. simpl in Hstep.
      split; [exact Hrw|]. split; [exact Hadv|].
      split; [exact (f_equal (fun x => input_buf (input x)) Hstep)|].
      split; [exact (f_equal (fun x => input_w (input x)) Hstep)|].
      exact (f_equal (fun x => input_e (input x)) Hstep).
    + apply Hk. exact H.
Qed.

Lemma killed_read_cancels_witness :
  (consoleread 5 killed_example
   = RDone (-1) []
       (with_trace (trace killed_example ++ [EIunlock; EAcquire InputLock;
                                             ERelease InputLock; EIlock])
                   killed_example)
   /\ forall target dst,
       consoleread_wake target 5 dst killed_example
       = RDone (-1) dst
           (with_trace (trace killed_example ++ [ERelease InputLock; EIlock])
                       killed_example))
  /\ match consoleread 5 killed_example with
     | RDone ret dst s' =>
         ret = -1 ->
         input_r (input s') = input_w (input s')
         /\ input_r (input s')
            = to_uint (input_r (input killed_example) + Z.of_nat (length dst))
         /\ input_buf (input s') = input_buf (input killed_example)
         /\ input_w (input s') = input_w (input killed_example)
         /\ input_e (input s') = input_e (input killed_example)
     | RBlocked _ _ _ _ => False
     end.
Proof.
  destruct (killed_read_cancels killed_example 5) as (Hempty & Hany).
  - lia.
  - vm_compute. split; [discriminate|reflexivity].
  - vm_compute. discriminate.
  - split; [apply Hempty; reflexivity|exact Hany].
Defined.

(** ** The ring invariant, from any state *)

(** C3, amended: the invariant in the wrap-around arithmetic of the source
    ([w - r <= e - r <= C] as [uint] differences) holds in the boot state,
    and every operation run in a state in which it holds, whatever the
    killed mark of the process, the flag and the cursor, leaves it holding
    in the state it returns, sleeps or spins in; so it holds before and
    after every operation in every state the driver reaches from one where
    it holds. On the plain values, [r <= w <= e]
    and [e - r <= C] hold as long as [r] is more than [C] below 2^32. *)
Theorem ring_invariant_holds (sz : Z) (os : list operation) (o : operation)
        (page : list Z) (regs : Crtc) (cpu : Z) (pcs : list Z) (s0 s s' : State) :
  ring_inv (input s0) ->
  run_all sz os s0 = Some s ->
  run sz o s = Some s' ->
  ring_inv (input (boot_state page regs cpu pcs))
  /\ (ring_inv (input s) /\ ring_inv (input s'))
  /\ (input_r (input s) + INPUT_BUF < 2 ^ 32 -> plain_inv (input s))
  /\ (input_r (input s') + INPUT_BUF < 2 ^ 32 -> plain_inv (input s')).
Proof.
  intros H0 E E'.
  assert (Hinv : ring_inv (input s)).
  { eapply run_all_inv; [exact H0|exact E]. }
  assert (Hinv' : ring_inv (input s')).
  { now apply (run_indices sz o s s'). }
  split; [apply boot_ring_inv|].
  split; [split; assumption|].
  split; intros Hn; now apply ring_inv_plain.
Qed.

Lemma ring_invariant_holds_witness :
  ring_inv (input (boot_state blank_page (mkCrtc 0 ∅) 0 []))
  /\ (ring_inv (input killed_drained) /\ ring_inv (input killed_cancelled))
  /\ plain_inv (input killed_drained)
  /\ plain_inv (input killed_cancelled).
Proof.
  destruct (ring_invariant_holds 8 [OpIntr [104; NEWLINE]; OpRead 5] (OpRead 5)
              blank_page (mkCrtc 0 ∅) 0 [] killed_example killed_drained
              killed_cancelled) as (Hboot & Hinv & Hplain & Hplain').
  - vm_compute. repeat split; discriminate.
  - vm_compute. reflexivity.
  - vm_compute. reflexivity.
  - split; [exact Hboot|]. split; [exact Hinv|].
    split; [apply Hplain|apply Hplain']; vm_compute; reflexivity.
Defined.

(** ** Which way the indices move *)

Lemma consoleintr_default_forward c s s' :
  final_state (consoleintr_default c s) = Some s' ->
  ring_inv (input s) -> pending (input s) <= pending (input s').
Proof.
  intros E Hinv. unfold consoleintr_default in E.
  destruct (negb (c =? 0)); simpl in E.
  2:{ injection E as <-. lia. }
  destruct (Z.ltb_spec (to_uint (input_e (input s) - input_r (input s))) INPUT_BUF)
    as [Hroom|_].
  2:{ injection E as <-. lia. }
  set (c' := if c =? CARRIAGE_RETURN then NEWLINE else c) in *.
  set (s1 := set_e _ _) in *.
  destruct (store_keeps_inv (input s) (to_char c') Hinv Hroom) as (Hinv1 & Hp1 & Ha1).
  change (mkInput _ _ _ _) with (input s1) in Hinv1, Hp1, Ha1.
  unfold bind in E.
  destruct (consputc c' DEFAULT_CONSOLE_COLOR s1) as [[] s2|s2|] eqn:E2;
    [| |discriminate].
  - assert (Hi2 : input s2 = input s1).
    { apply (consputc_final c' DEFAULT_CONSOLE_COLOR). rewrite E2. reflexivity. }
    rewrite Hi2 in E.
    destruct ((c' =? NEWLINE) || (c' =? CTRL_D)
              || (input_e (input s1) =? to_uint (input_r (input s1) + INPUT_BUF)));
      injection E as <-.
    + destruct (commit_keeps_inv (input s1) Hinv1) as (_ & Hp3 & _).
      simpl. rewrite Hi2.
      change (mkInput _ _ _ _) with
        (mkInput (input_buf (input s1)) (input_r (input s1))
                 (input_e (input s1)) (input_e (input s1))).
      lia.
    + rewrite Hi2. lia.
  - injection E as <-.
    assert (Hi2 : input s2 = input s1).
    { apply (consputc_final c' DEFAULT_CONSOLE_COLOR). rewrite E2. reflexivity. }
    rewrite Hi2. lia.
Qed.

Lemma consoleintr_char_forward c s s' :
  final_state (consoleintr_char c s) = Some s' ->
  ring_inv (input s) -> ~ erasing c ->
  pending (input s) <= pending (input s').
Proof.
  intros E Hinv Hne. unfold erasing in Hne. unfold consoleintr_char in E.
  destruct (c =? CTRL_Z).
  { injection E as <-. simpl. lia. }
  destruct (c =? CTRL_P).
  { injection E as <-. simpl. lia. }
  destruct (Z.eqb_spec c CTRL_U) as [|_]; [tauto|].
  destruct (Z.eqb_spec c CTRL_H) as [|_]; [tauto|].
  destruct (Z.eqb_spec c 127) as [|_]; [tauto|].
  simpl in E. now apply (consoleintr_default_forward c).
Qed.

Lemma consoleintr_forward keys s s' :
  final_state (consoleintr keys s) = Some s' ->
  ring_inv (input s) -> Forall (fun c => ~ erasing c) keys ->
  pending (input s) <= pending (input s').
Proof.
  intros E Hinv Hkeys.
  assert (Hloop : forall keys s s',
            final_state (consoleintr_loop keys s) = Some s' ->
            ring_inv (input s) -> Forall (fun c => ~ erasing c) keys ->
            pending (input s) <= pending (input s')).
  { clear. induction keys as [|c keys IH]; intros s s' E Hinv Hkeys; simpl in E.
    { injection E as <-. lia. }
    apply Forall_cons in Hkeys as (Hc & Hkeys).
    destruct (c >=? 0); simpl in E.
    2:{ injection E as <-. lia. }
    unfold bind in E.
    destruct (consoleintr_char c s) as [[] s1|s1|] eqn:E1; [| |discriminate].
    - assert (E1' : final_state (consoleintr_char c s) = Some s1) by now rewrite E1.
      pose proof (consoleintr_char_forward c s s1 E1' Hinv Hc) as H1.
      destruct (consoleintr_char_final c s s1 E1' Hinv) as (Hinv1 & _).
      pose proof (IH s1 s' E Hinv1 Hkeys). lia.
    - injection E as <-.
      apply (consoleintr_char_forward c s s1); [now rewrite E1|exact Hinv|exact Hc]. }
  unfold consoleintr, bind, lift in E.
  set (sa := emit (EAcquire InputLock) s) in *.
  destruct (consoleintr_loop keys sa) as [[] s1|s1|] eqn:E1; [| |discriminate];
    injection E as <-;
    apply (Hloop keys sa s1); try assumption; rewrite E1; reflexivity.
Qed.

(** C4, amended: across any operation, whether it returns, sleeps or
    spins, [r] and [w] do not step back. In the
    arithmetic of the source, [r] moves forward by no more than what was
    committed, and [w] stays at or ahead of where it was, within one buffer
    of the old [r]; a read that pushes the EOF marker back only undoes its
    own increment. [e] is left where it was by every operation but the
    interrupt handler; the handler leaves [r] alone and moves [e] forward
    or not at all, unless a backspace, a delete or a kill-line is among the
    keys, and those, the only steps back, never take [e] below [w]. On the
    plain values, [r <= r'], [w <= w'] and, but for those keys, [e <= e']
    as long as [r] is more than [C] below 2^32. *)
Theorem r_and_w_never_step_back (sz : Z) (o : operation) (s s' : State) :
  ring_inv (input s) ->
  run sz o s = Some s' ->
  advance s s' <= available (input s)
  /\ available (input s) <= committed_from s s' <= INPUT_BUF
  /\ available (input s') <= pending (input s')
  /\ match o with
     | OpIntr keys =>
         input_r (input s') = input_r (input s)
         /\ (Forall (fun c => ~ erasing c) keys ->
             pending (input s) <= pending (input s'))
     | _ => input_e (input s') = input_e (input s)
     end
  /\ (input_r (input s) + INPUT_BUF < 2 ^ 32 ->
      input_r (input s) <= input_r (input s')
      /\ input_w (input s) <= input_w (input s')
      /\ (match o with
          | OpIntr keys => Forall (fun c => ~ erasing c) keys
          | _ => True
          end -> input_e (input s) <= input_e (input s'))).
Proof.
  intros Hinv E.
  destruct (run_indices sz o s s' Hinv E) as (Hinv' & Hadv & Hcom).
  assert (He : match o with
               | OpIntr keys =>
                   input_r (input s') = input_r (input s)
                   /\ (Forall (fun c => ~ erasing c) keys ->
                       pending (input s) <= pending (input s'))
               | _ => input_e (input s') = input_e (input s)
               end).
  { destruct o; simpl in E.
    - split.
      + exact (relates_final _ _ _ _ (r_consoleintr keys) E).
      + intros Hkeys. now apply (consoleintr_forward keys).
    - injection E as <-.
      exact (f_equal (fun x => input_e (input x)) (consoleread_step n s)).
    - injection E as <-.
      exact (f_equal (fun x => input_e (input x))
               (consoleread_loop_step (Z.to_nat n) target n dst s s
                  (read_step_refl s))).
    - pose proof (relates_final _ _ _ _ (core_consolewrite buf n) E)
        as (_ & _ & Hi & _). now rewrite Hi.
    - pose proof (relates_final _ _ _ _ (ps_cprintf sz fmt ap) E) as (Hi & _).
      now rewrite Hi.
    - pose proof (relates_final _ _ _ _ (ps_panic sz msg) E) as (Hi & _).
      now rewrite Hi.
    - pose proof (relates_final _ _ _ _ (core_consputc c color) E)
        as (_ & _ & Hi & _). now rewrite Hi. }
  split; [exact Hadv|]. split; [exact Hcom|]. split; [apply Hinv'|].
  split; [exact He|].
  intros Hn. unfold committed_from, advance, available in *.
  pose proof Hinv as ((_ & Hr & Hw & Hee) & Hb).
  pose proof Hinv' as ((_ & Hr' & Hw' & Hee') & Hb').
  split; [uint_arith|]. split; [uint_arith|].
  destruct o; intros Hkeys;
    try (rewrite He; lia).
  destruct He as (Hreq & Hfw). specialize (Hfw Hkeys).
  unfold pending, available in *. rewrite Hreq in *. uint_arith.
Qed.

Lemma r_and_w_never_step_back_witness :
  advance idle hello_typed <= available (input idle)
  /\ available (input idle) <= committed_from idle hello_typed <= INPUT_BUF
  /\ available (input hello_typed) <= pending (input hello_typed)
  /\ (input_r (input hello_typed) = input_r (input idle)
      /\ pending (input idle) <= pending (input hello_typed))
  /\ (input_r (input idle) <= input_r (input hello_typed)
      /\ input_w (input idle) <= input_w (input hello_typed)
      /\ input_e (input idle) <= input_e (input hello_typed)).
Proof.
  assert (Hkeys : Forall (fun c => ~ erasing c) (hello ++ [NEWLINE])).
  { repeat (constructor;
            [intros [H | [H | H]]; vm_compute in H; discriminate|]).
    constructor. }
  destruct (r_and_w_never_step_back 8 (OpIntr (hello ++ [NEWLINE])) idle hello_typed)
    as (Hadv & Hcom & Hav & (Hr & He) & Hplain).
  - vm_compute. repeat split; discriminate.
  - vm_compute. reflexivity.
  - split; [exact Hadv|]. split; [exact Hcom|]. split; [exact Hav|].
    split; [split; [exact Hr|exact (He Hkeys)]|].
    destruct Hplain as (Hr' & Hw' & He'); [vm_compute; reflexivity|].
    split; [exact Hr'|]. split; [exact Hw'|exact (He' Hkeys)].
Defined.

(** ** A cursor past the page *)

(** With the cursor past the 25 rows, a character other than [BACKSPACE]
    takes the offset past the start of row 25; the scroll then runs its
    [memset] with a count that has wrapped, and [consputc] has no defined
    result. *)
Theorem consputc_past_the_page (c color : Z) (s : State) :
  panicked s = 0 -> 25 * COLUMNS <= cursor_pos s -> c <> BACKSPACE ->
  consputc c color s = Undef.
Proof.
  intros Hp Hcur Hc. unfold consputc. rewrite Hp.
  change (0 =? 0) with true. cbv iota.
  destruct (Z.eqb_spec c BACKSPACE) as [|_]; [contradiction|].
  rewrite cgaputc_eq.
  change (cursor_pos (uartputc c s)) with (cursor_pos s).
  set (s0 := outb CRTPORT 15 (outb CRTPORT 14 (uartputc c s))).
  destruct (cga_advance c color (cursor_pos s) s0) as [pos1 s1] eqn:E1.
  assert (H1 : 25 * COLUMNS < pos1).
  { unfold cga_advance in E1.
    destruct (c =? NEWLINE).
    { injection E1 as <- _.
      rewrite Z.rem_mod_nonneg by (unfold COLUMNS in *; lia).
      unfold COLUMNS in *. Z.to_euclidean_division_equations. lia. }
    destruct (Z.eqb_spec c BACKSPACE) as [|_]; [contradiction|].
    injection E1 as <- _. lia. }
  unfold cga_scroll.
  assert (Hq : (Z.quot pos1 COLUMNS >=? 24) = true).
  { rewrite Z.geb_leb. apply Z.leb_le. unfold COLUMNS in *.
    Z.to_euclidean_division_equations. lia. }
  rewrite Hq. cbv zeta.
  destruct (Z.ltb_spec (24 * COLUMNS - (pos1 - COLUMNS)) 0) as [_|Hge];
    [reflexivity|unfold COLUMNS in *; lia].
Qed.

Lemma consputc_past_the_page_witness :
  consputc 97 DEFAULT_CONSOLE_COLOR off_screen_example = Undef.
Proof.
  apply (consputc_past_the_page 97 DEFAULT_CONSOLE_COLOR off_screen_example).
  - reflexivity.
  - vm_compute. discriminate.
  - vm_compute. discriminate.
Defined.
